(** * The politeiawww inventory cache (politeiawww/inventory.go)

    A shallow embedding of the in-memory inventory of proposal records:
    the keyed store, its status counters, the metadata loaders, the
    comment tally and the paginated proposal listing. *)

From Stdlib Require Import ZArith Lia.
From stdpp Require Import gmap strings list fin_maps sorting.

Local Open Scope Z_scope.

(** ** Go's [int]

    The counters of the backend are Go [int]s (64 bits on the platforms
    politeiawww is built for); [+=] wraps around in two's complement. *)

Definition int_wrap (z : Z) : Z := (z + 2 ^ 63) mod 2 ^ 64 - 2 ^ 63.
Definition int_add (a b : Z) : Z := int_wrap (a + b).

(** ** Heap addresses of maps and backing arrays *)

Definition loc := positive.

(** ** politeiad/api/v1 *)

Module pd.

(** [RecordStatusT] is an int-typed enumeration. *)
Definition RecordStatusT := Z.

Record MetadataStream := {
  ID : Z;            (* uint64 *)
  Payload : string
}.

(** The fields of [pd.Record] the inventory reads;
    [Token] is [CensorshipRecord.Token]. *)
Record Record := {
  Status : RecordStatusT;
  Timestamp : Z;
  Token : string;
  Metadata : list MetadataStream
}.

End pd.

(** ** politeiawww/api/v1 *)

Module www.

(** [PropStatusT] and [PropStateT] are int-typed enumerations. *)
Definition PropStatusT := Z.
Definition PropStateT := Z.

(** Modelled from the spec: the declaration of [www.Comment] is not among
    the sources; section 3 gives it an id, the owning token, author,
    content, timestamp and the derived up/down vote totals. *)
Record Comment := {
  CommentID : string;
  Token : string;
  Author : string;
  Content : string;
  Timestamp : Z;
  upVotes : Z;
  downVotes : Z
}.

(** Modelled from the spec: the declaration of [www.LikeComment] is not
    among the sources; section 3 (LikeEvent) gives it the token, comment
    id, voting user's public key, an action in {+1, -1} and a timestamp. *)
Record LikeComment := {
  LikeToken : string;
  LikeCommentID : string;
  LikePublicKey : string;
  Action : Z;
  LikeTimestamp : Z
}.

(** The fields of [www.ProposalRecord] that [_getAllProposals] and
    [getProposals] read or write. *)
Record ProposalRecord := {
  PropToken : string;          (* CensorshipRecord.Token *)
  PropTimestamp : Z;           (* int64 *)
  State : PropStateT;
  PropStatus : PropStatusT;
  PublicKey : string;
  UserId : string;
  Username : string;
  NumComments : Z              (* uint *)
}.

End www.

(** ** What a JSON decoder yields

    [encoding/json] is library code.  A [json.Decoder] reading a finite
    payload yields finitely many values and then, on every later call,
    either [io.EOF] ([js_end = None]) or one and the same error. *)

Definition json_error := string.

Record json_stream (T : Type) := {
  js_values : list T;
  js_end : option json_error
}.
Arguments js_values {T} _.
Arguments js_end {T} _.

(** ** Declarations of the repository that the inventory uses but that
    live in other files: types, constants, converters, and the decoders
    instantiated at those types. *)

Class Externals := {
  BackendProposalMetadata : Type;
  MDPublicKey : BackendProposalMetadata → string;
  MDStreamChanges : Type;
  AuthorizeVoteReply : Type;              (* www.AuthorizeVoteReply *)
  StartVote : Type;                       (* www.StartVote *)
  StartVoteReply : Type;                  (* www.StartVoteReply *)
  pluginAuthorizeVoteReply : Type;        (* decredplugin.AuthorizeVoteReply *)
  pluginStartVote : Type;                 (* decredplugin.StartVote *)
  pluginStartVoteReply : Type;            (* decredplugin.StartVoteReply *)
  (* zero values *)
  zeroProposalMD : BackendProposalMetadata;
  zeroChanges : MDStreamChanges;
  zeroAuthorizeVoteReply : AuthorizeVoteReply;
  zeroStartVote : StartVote;
  zeroStartVoteReply : StartVoteReply;
  (* converters *)
  convertPropStatusFromPD : pd.RecordStatusT → www.PropStatusT;
  convertAuthorizeVoteReplyFromDecredplugin :
    pluginAuthorizeVoteReply → AuthorizeVoteReply;
  convertStartVoteFromDecredplugin : pluginStartVote → StartVote;
  convertStartVoteReplyFromDecredplugin :
    pluginStartVoteReply → StartVoteReply;
  (* json.NewDecoder(strings.NewReader(payload)) at each decoded type *)
  decodeProposalMD : string → json_stream BackendProposalMetadata;
  decodeChanges : string → json_stream MDStreamChanges;
  decodeAuthorizeVoteReply : string → json_stream pluginAuthorizeVoteReply;
  decodeStartVote : string → json_stream pluginStartVote;
  decodeStartVoteReply : string → json_stream pluginStartVoteReply;
  (* status constants of www *)
  PropStatusInvalid : www.PropStatusT;
  PropStatusNotReviewed : www.PropStatusT;
  PropStatusCensored : www.PropStatusT;
  PropStatusPublic : www.PropStatusT;
  PropStatusUnreviewedChanges : www.PropStatusT;
  PropStatusAbandoned : www.PropStatusT;
  (* metadata stream ids *)
  mdStreamGeneral : Z;
  mdStreamChanges : Z;
  MDStreamAuthorizeVote : Z;
  MDStreamVoteBits : Z;
  MDStreamVoteSnapshot : Z;
  (* www.ProposalListPageSize *)
  ProposalListPageSize : Z;
  (* number of spare slots the runtime adds when append has to grow a
     slice to the given length *)
  growslice_spare : nat → nat
}.

Section Inventory.

Context `{Ext : Externals}.

(** ** Slices of [MDStreamChanges]

    A slice is a pointer to a backing array and a length; its capacity is
    the length of the backing array (no slice of the inventory is ever
    re-sliced, so all of them start at the array's first slot). *)

Record slice := {
  sl_arr : option loc;     (* None: the nil slice *)
  sl_len : nat
}.

Definition nil_slice : slice := {| sl_arr := None; sl_len := 0 |}.

(** ** The inventory record

    [comments] and [commentsLikes] are Go maps, that is references to map
    objects ([None] is the nil map); [changes] is a slice. *)

Record inventoryRecord := {
  record : pd.Record;
  proposalMD : BackendProposalMetadata;
  comments : option loc;
  commentsLikes : option loc;
  changes : slice;
  voteAuthorization : AuthorizeVoteReply;
  votebits : StartVote;
  voting : StartVoteReply
}.

Definition zero_pdRecord : pd.Record :=
  {| pd.Status := 0; pd.Timestamp := 0; pd.Token := ""; pd.Metadata := [] |}.

(** [inventoryRecord{}] *)
Definition zero_inventoryRecord : inventoryRecord :=
  {| record := zero_pdRecord; proposalMD := zeroProposalMD;
     comments := None; commentsLikes := None; changes := nil_slice;
     voteAuthorization := zeroAuthorizeVoteReply;
     votebits := zeroStartVote; voting := zeroStartVoteReply |}.

Definition set_record (r : pd.Record) (ir : inventoryRecord) :=
  {| record := r; proposalMD := proposalMD ir; comments := comments ir;
     commentsLikes := commentsLikes ir; changes := changes ir;
     voteAuthorization := voteAuthorization ir; votebits := votebits ir;
     voting := voting ir |}.

Definition set_proposalMD (md : BackendProposalMetadata) (ir : inventoryRecord) :=
  {| record := record ir; proposalMD := md; comments := comments ir;
     commentsLikes := commentsLikes ir; changes := changes ir;
     voteAuthorization := voteAuthorization ir; votebits := votebits ir;
     voting := voting ir |}.

Definition set_comments (c : option loc) (ir : inventoryRecord) :=
  {| record := record ir; proposalMD := proposalMD ir; comments := c;
     commentsLikes := commentsLikes ir; changes := changes ir;
     voteAuthorization := voteAuthorization ir; votebits := votebits ir;
     voting := voting ir |}.

Definition set_commentsLikes (c : option loc) (ir : inventoryRecord) :=
  {| record := record ir; proposalMD := proposalMD ir; comments := comments ir;
     commentsLikes := c; changes := changes ir;
     voteAuthorization := voteAuthorization ir; votebits := votebits ir;
     voting := voting ir |}.

Definition set_changes (s : slice) (ir : inventoryRecord) :=
  {| record := record ir; proposalMD := proposalMD ir; comments := comments ir;
     commentsLikes := commentsLikes ir; changes := s;
     voteAuthorization := voteAuthorization ir; votebits := votebits ir;
     voting := voting ir |}.

Definition set_voteAuthorization (a : AuthorizeVoteReply) (ir : inventoryRecord) :=
  {| record := record ir; proposalMD := proposalMD ir; comments := comments ir;
     commentsLikes := commentsLikes ir; changes := changes ir;
     voteAuthorization := a; votebits := votebits ir; voting := voting ir |}.

Definition set_votebits (v : StartVote) (ir : inventoryRecord) :=
  {| record := record ir; proposalMD := proposalMD ir; comments := comments ir;
     commentsLikes := commentsLikes ir; changes := changes ir;
     voteAuthorization := voteAuthorization ir; votebits := v;
     voting := voting ir |}.

Definition set_voting (v : StartVoteReply) (ir : inventoryRecord) :=
  {| record := record ir; proposalMD := proposalMD ir; comments := comments ir;
     commentsLikes := commentsLikes ir; changes := changes ir;
     voteAuthorization := voteAuthorization ir; votebits := votebits ir;
     voting := v |}.

(** ** Log output *)

Inductive log_line :=
  | LogError (msg : string)
  | LogInfo (msg : string)
  | LogTrace (msg : string).

(** ** The backend

    The first group of fields are those of the Go struct.  [inventory]
    holds one [*inventoryRecord] per token; a pointer is stored under the
    token it was created for and under no other, so the pointed-to struct
    is kept directly under its key.  The second group are the objects the
    records refer to (the map objects and the backing arrays of the
    [changes] slices) and the lines written to the package logger. *)

Record backend := {
  inventory : gmap string inventoryRecord;
  userPubkeys : gmap string string;
  numOfPropsByUserID : gmap string Z;
  numOfInvalid : Z;
  numOfCensored : Z;
  numOfUnvetted : Z;
  numOfUnvettedChanges : Z;
  numOfPublic : Z;
  numOfAbandoned : Z;
  (* referenced objects *)
  commentMaps : gmap loc (gmap string www.Comment);
  likeMaps : gmap loc (gmap string (list www.LikeComment));
  changeArrays : gmap loc (list MDStreamChanges);
  logOutput : list log_line
}.

Definition set_inventory (i : gmap string inventoryRecord) (b : backend) :=
  {| inventory := i; userPubkeys := userPubkeys b;
     numOfPropsByUserID := numOfPropsByUserID b;
     numOfInvalid := numOfInvalid b; numOfCensored := numOfCensored b;
     numOfUnvetted := numOfUnvetted b;
     numOfUnvettedChanges := numOfUnvettedChanges b;
     numOfPublic := numOfPublic b; numOfAbandoned := numOfAbandoned b;
     commentMaps := commentMaps b; likeMaps := likeMaps b;
     changeArrays := changeArrays b; logOutput := logOutput b |}.

Definition set_numOfPropsByUserID (n : gmap string Z) (b : backend) :=
  {| inventory := inventory b; userPubkeys := userPubkeys b;
     numOfPropsByUserID := n;
     numOfInvalid := numOfInvalid b; numOfCensored := numOfCensored b;
     numOfUnvetted := numOfUnvetted b;
     numOfUnvettedChanges := numOfUnvettedChanges b;
     numOfPublic := numOfPublic b; numOfAbandoned := numOfAbandoned b;
     commentMaps := commentMaps b; likeMaps := likeMaps b;
     changeArrays := changeArrays b; logOutput := logOutput b |}.

Definition set_counters (inv cen unv unvc pub aba : Z) (b : backend) :=
  {| inventory := inventory b; userPubkeys := userPubkeys b;
     numOfPropsByUserID := numOfPropsByUserID b;
     numOfInvalid := inv; numOfCensored := cen; numOfUnvetted := unv;
     numOfUnvettedChanges := unvc; numOfPublic := pub; numOfAbandoned := aba;
     commentMaps := commentMaps b; likeMaps := likeMaps b;
     changeArrays := changeArrays b; logOutput := logOutput b |}.

Definition set_commentMaps (h : gmap loc (gmap string www.Comment)) (b : backend) :=
  {| inventory := inventory b; userPubkeys := userPubkeys b;
     numOfPropsByUserID := numOfPropsByUserID b;
     numOfInvalid := numOfInvalid b; numOfCensored := numOfCensored b;
     numOfUnvetted := numOfUnvetted b;
     numOfUnvettedChanges := numOfUnvettedChanges b;
     numOfPublic := numOfPublic b; numOfAbandoned := numOfAbandoned b;
     commentMaps := h; likeMaps := likeMaps b;
     changeArrays := changeArrays b; logOutput := logOutput b |}.

Definition set_likeMaps (h : gmap loc (gmap string (list www.LikeComment))) (b : backend) :=
  {| inventory := inventory b; userPubkeys := userPubkeys b;
     numOfPropsByUserID := numOfPropsByUserID b;
     numOfInvalid := numOfInvalid b; numOfCensored := numOfCensored b;
     numOfUnvetted := numOfUnvetted b;
     numOfUnvettedChanges := numOfUnvettedChanges b;
     numOfPublic := numOfPublic b; numOfAbandoned := numOfAbandoned b;
     commentMaps := commentMaps b; likeMaps := h;
     changeArrays := changeArrays b; logOutput := logOutput b |}.

Definition set_changeArrays (h : gmap loc (list MDStreamChanges)) (b : backend) :=
  {| inventory := inventory b; userPubkeys := userPubkeys b;
     numOfPropsByUserID := numOfPropsByUserID b;
     numOfInvalid := numOfInvalid b; numOfCensored := numOfCensored b;
     numOfUnvetted := numOfUnvetted b;
     numOfUnvettedChanges := numOfUnvettedChanges b;
     numOfPublic := numOfPublic b; numOfAbandoned := numOfAbandoned b;
     commentMaps := commentMaps b; likeMaps := likeMaps b;
     changeArrays := h; logOutput := logOutput b |}.

Definition log_write (l : log_line) (b : backend) :=
  {| inventory := inventory b; userPubkeys := userPubkeys b;
     numOfPropsByUserID := numOfPropsByUserID b;
     numOfInvalid := numOfInvalid b; numOfCensored := numOfCensored b;
     numOfUnvetted := numOfUnvetted b;
     numOfUnvettedChanges := numOfUnvettedChanges b;
     numOfPublic := numOfPublic b; numOfAbandoned := numOfAbandoned b;
     commentMaps := commentMaps b; likeMaps := likeMaps b;
     changeArrays := changeArrays b; logOutput := logOutput b ++ [l] |}.

(** The backend before anything is inserted: an empty inventory, zero
    counters, and a given user directory. *)
Definition empty_backend (users : gmap string string) : backend :=
  {| inventory := ∅; userPubkeys := users; numOfPropsByUserID := ∅;
     numOfInvalid := 0; numOfCensored := 0; numOfUnvetted := 0;
     numOfUnvettedChanges := 0; numOfPublic := 0; numOfAbandoned := 0;
     commentMaps := ∅; likeMaps := ∅; changeArrays := ∅; logOutput := [] |}.

(** ** Errors and outcomes

    A Go [error] is [None] for [nil].  A call either returns, with a
    value and the backend it leaves, or panics (nil pointer dereference,
    write to a nil map). *)

Inductive error_value :=
  | ErrDuplicateToken (t : string)
  | ErrRecordNotFound (t : string)
  | ErrCommentNotFound (t cid : string)
  | ErrUserNotFound (uid : string)
  | ErrDecode (e : json_error)
  | ErrWrapped (context : string) (e : error_value).

Definition error := option error_value.

Inductive outcome (A : Type) :=
  | Returns (a : A) (b : backend)
  | Panics.
Arguments Returns {A} _ _.
Arguments Panics {A}.

Definition M (A : Type) := backend → outcome A.

Definition ret {A} (a : A) : M A := fun b => Returns a b.

Definition bind {A B} (m : M A) (k : A → M B) : M B :=
  fun b => match m b with
           | Returns a b' => k a b'
           | Panics => Panics
           end.

Definition panic {A} : M A := fun _ => Panics.
Definition get_backend : M backend := fun b => Returns b b.
Definition modify (f : backend → backend) : M unit := fun b => Returns tt (f b).

Notation "'let*' x ':=' m 'in' k" := (bind m (fun x => k))
  (at level 10, x name, m at level 100, k at level 200).
Notation "m '>>' k" := (bind m (fun _ => k))
  (at level 62, right associativity).

(** ** Slices: reading and [append] *)

Definition backing_array (h : gmap loc (list MDStreamChanges)) (s : slice)
  : list MDStreamChanges :=
  match sl_arr s with
  | Some a => default [] (h !! a)
  | None => []
  end.

(** The elements of a slice: the first [sl_len] slots of its array. *)
Definition slice_elems (h : gmap loc (list MDStreamChanges)) (s : slice)
  : list MDStreamChanges :=
  take (sl_len s) (backing_array h s).

(** A new backing array for [append]: the old elements, the new one, and
    the spare slots, zeroed. *)
Definition grown_array (old : list MDStreamChanges) (len : nat)
    (x : MDStreamChanges) : list MDStreamChanges :=
  take len old ++ x :: replicate (growslice_spare (S len)) zeroChanges.

Definition grow_append (s : slice) (x : MDStreamChanges)
    (h : gmap loc (list MDStreamChanges))
  : slice * gmap loc (list MDStreamChanges) :=
  let a' := fresh (dom h) in
  ({| sl_arr := Some a'; sl_len := S (sl_len s) |},
   <[a' := grown_array (backing_array h s) (sl_len s) x]> h).

(** [append(s, x)]: written in place when the capacity allows, into a
    new array otherwise. *)
Definition append (s : slice) (x : MDStreamChanges)
    (h : gmap loc (list MDStreamChanges))
  : slice * gmap loc (list MDStreamChanges) :=
  match sl_arr s with
  | Some a =>
      let arr := default [] (h !! a) in
      if decide (sl_len s < length arr)%nat
      then ({| sl_arr := Some a; sl_len := S (sl_len s) |},
            <[a := <[sl_len s := x]> arr]> h)
      else grow_append s x h
  | None => grow_append s x h
  end.

(** ** Status counters *)

(** The closure [executeUpdate] of [_updateInventoryCountOfPropStatus]. *)
Definition executeUpdate (v : Z) (status : www.PropStatusT) (b : backend)
  : backend :=
  if decide (status = PropStatusUnreviewedChanges) then
    set_counters (numOfInvalid b) (numOfCensored b) (numOfUnvetted b)
      (int_add (numOfUnvettedChanges b) v) (numOfPublic b) (numOfAbandoned b) b
  else if decide (status = PropStatusNotReviewed) then
    set_counters (numOfInvalid b) (numOfCensored b)
      (int_add (numOfUnvetted b) v)
      (numOfUnvettedChanges b) (numOfPublic b) (numOfAbandoned b) b
  else if decide (status = PropStatusCensored) then
    set_counters (numOfInvalid b) (int_add (numOfCensored b) v)
      (numOfUnvetted b)
      (numOfUnvettedChanges b) (numOfPublic b) (numOfAbandoned b) b
  else if decide (status = PropStatusPublic) then
    set_counters (numOfInvalid b) (numOfCensored b) (numOfUnvetted b)
      (numOfUnvettedChanges b) (int_add (numOfPublic b) v) (numOfAbandoned b) b
  else if decide (status = PropStatusAbandoned) then
    set_counters (numOfInvalid b) (numOfCensored b) (numOfUnvetted b)
      (numOfUnvettedChanges b) (numOfPublic b) (int_add (numOfAbandoned b) v) b
  else
    set_counters (int_add (numOfInvalid b) v) (numOfCensored b)
      (numOfUnvetted b)
      (numOfUnvettedChanges b) (numOfPublic b) (numOfAbandoned b) b.

Definition _updateInventoryCountOfPropStatus (status : pd.RecordStatusT)
    (oldStatus : option pd.RecordStatusT) (b : backend) : backend :=
  let b1 :=
    match oldStatus with
    | Some old => executeUpdate (-1) (convertPropStatusFromPD old) b
    | None => b
    end in
  executeUpdate 1 (convertPropStatusFromPD status) b1.

Definition _updateCountOfUserProposals (token : string) : M error :=
  fun b =>
    match inventory b !! token with
    | None => Returns (Some (ErrRecordNotFound token)) b
    | Some ir =>
        let pk := MDPublicKey (proposalMD ir) in
        match userPubkeys b !! pk with
        | None => Returns (Some (ErrUserNotFound "")) b
        | Some uid =>
            let n := default 0 (numOfPropsByUserID b !! uid) in
            Returns None
              (set_numOfPropsByUserID
                 (<[uid := int_add n 1]> (numOfPropsByUserID b)) b)
        end
    end.

(** ** Metadata loaders *)

(** One call of [d.Decode] on a fresh decoder. *)
Inductive decoded (T : Type) :=
  | DecodeEOF
  | DecodeError (e : json_error)
  | Decoded (v : T).
Arguments DecodeEOF {T}.
Arguments DecodeError {T} _.
Arguments Decoded {T} _.

Definition Decode {T} (d : json_stream T) : decoded T :=
  match js_values d with
  | v :: _ => Decoded v
  | [] => match js_end d with
          | None => DecodeEOF
          | Some e => DecodeError e
          end
  end.

(** A field write through [b.inventory[token]]: a nil pointer dereference
    when the token has no record. *)
Definition update_entry (token : string)
    (f : inventoryRecord → inventoryRecord) : M unit :=
  fun b =>
    match inventory b !! token with
    | None => Panics
    | Some ir => Returns tt (set_inventory (<[token := f ir]> (inventory b)) b)
    end.

Definition loadPropMD (token payload : string) : M error :=
  match Decode (decodeProposalMD payload) with
  | DecodeEOF => ret None
  | DecodeError e => ret (Some (ErrDecode e))
  | Decoded md => update_entry token (set_proposalMD md) >> ret None
  end.

(** One turn of the loop of [loadChanges] that decoded [md]. *)
Definition appendChange (token : string) (md : MDStreamChanges) : M unit :=
  fun b =>
    match inventory b !! token with
    | None => Panics
    | Some p =>
        let '(s, h) := append (changes p) md (changeArrays b) in
        Returns tt
          (set_inventory (<[token := set_changes s p]> (inventory b))
             (set_changeArrays h b))
    end.

Fixpoint loadChanges_loop (token : string) (vals : list MDStreamChanges)
    (fin : option json_error) : M error :=
  match vals with
  | [] => match fin with
          | None => ret None
          | Some e => ret (Some (ErrDecode e))
          end
  | md :: rest => appendChange token md >> loadChanges_loop token rest fin
  end.

Definition loadChanges (token payload : string) : M error :=
  let d := decodeChanges payload in
  loadChanges_loop token (js_values d) (js_end d).

Definition loadVoteAuthorization (token payload : string) : M error :=
  match Decode (decodeAuthorizeVoteReply payload) with
  | DecodeEOF => ret None
  | DecodeError e => ret (Some (ErrDecode e))
  | Decoded avr =>
      let avrWWW := convertAuthorizeVoteReplyFromDecredplugin avr in
      update_entry token (set_voteAuthorization avrWWW) >> ret None
  end.

Definition loadVoting (token payload : string) : M error :=
  match Decode (decodeStartVoteReply payload) with
  | DecodeEOF => ret None
  | DecodeError e => ret (Some (ErrDecode e))
  | Decoded md =>
      update_entry token
        (set_voting (convertStartVoteReplyFromDecredplugin md)) >> ret None
  end.

Definition loadVoteBits (token payload : string) : M error :=
  match Decode (decodeStartVote payload) with
  | DecodeEOF => ret None
  | DecodeError e => ret (Some (ErrDecode e))
  | Decoded md =>
      modify (log_write (LogTrace "loadVoteBits: %v %v")) >>
      update_entry token
        (set_votebits (convertStartVoteFromDecredplugin md)) >> ret None
  end.

(** The switch of [loadRecordMetadata]: the loader a stream id selects
    and the message logged when that loader fails; [None] for an id the
    switch does not know. *)
Definition stream_loader (id : Z)
  : option ((string → string → M error) * string) :=
  if decide (id = mdStreamGeneral) then
    Some (loadPropMD, "initializeInventory could not load metadata: %v")
  else if decide (id = mdStreamChanges) then
    Some (loadChanges, "initializeInventory could not load changes: %v")
  else if decide (id = MDStreamAuthorizeVote) then
    Some (loadVoteAuthorization,
          "initializeInventory could not load vote authorization: %v")
  else if decide (id = MDStreamVoteBits) then
    Some (loadVoteBits, "initializeInventory could not load vote bits: %v")
  else if decide (id = MDStreamVoteSnapshot) then
    Some (loadVoting, "initializeInventory could not load vote snapshot: %v")
  else None.

Definition invalid_stream_msg : string :=
  "initializeInventory: invalid metadata stream ID %v token %v".

(** The body of the loop of [loadRecordMetadata] for one stream. *)
Definition loadStream (t : string) (m : pd.MetadataStream) : M unit :=
  match stream_loader (pd.ID m) with
  | Some (load, msg) =>
      let* err := load t (pd.Payload m) in
      match err with
      | Some _ => modify (log_write (LogError msg))
      | None => ret tt
      end
  | None => modify (log_write (LogError invalid_stream_msg))
  end.

Fixpoint loadStreams (t : string) (ms : list pd.MetadataStream) : M unit :=
  match ms with
  | [] => ret tt
  | m :: rest => loadStream t m >> loadStreams t rest
  end.

Definition loadRecordMetadata (v : pd.Record) : M unit :=
  loadStreams (pd.Token v) (pd.Metadata v).

(** ** Insert and update *)

(** [&inventoryRecord{record: record, comments: make(map[string]www.Comment)}] *)
Definition new_entry (record : pd.Record) (cm : loc) : inventoryRecord :=
  set_comments (Some cm) (set_record record zero_inventoryRecord).

(** The assignment [b.inventory[t] = &inventoryRecord{...}]. *)
Definition store_new_entry (record : pd.Record) (b : backend) : backend :=
  let cm := fresh (dom (commentMaps b)) in
  set_inventory (<[pd.Token record := new_entry record cm]> (inventory b))
    (set_commentMaps (<[cm := ∅]> (commentMaps b)) b).

Definition _newInventoryRecord (record : pd.Record) : M error :=
  fun b =>
    let t := pd.Token record in
    match inventory b !! t with
    | Some _ => Returns (Some (ErrDuplicateToken t)) b
    | None =>
        (loadRecordMetadata record >>
         modify (_updateInventoryCountOfPropStatus (pd.Status record) None) >>
         let* err := _updateCountOfUserProposals t in
         match err with
         | Some e =>
             ret (Some (ErrWrapped
                          "_newInventoryRecord: _updateCountOfUserProposals" e))
         | None => ret None
         end) (store_new_entry record b)
    end.

(** The exported wrappers take the lock and call the function of the
    same name; with the lock held the call is one step on the backend. *)
Definition newInventoryRecord (record : pd.Record) : M error :=
  _newInventoryRecord record.

Definition _updateInventoryRecord (r : pd.Record) : M error :=
  fun b =>
    let t := pd.Token r in
    match inventory b !! t with
    | None => Returns (Some (ErrRecordNotFound t)) b
    | Some ir =>
        let b1 :=
          _updateInventoryCountOfPropStatus (pd.Status r)
            (Some (pd.Status (record ir))) b in
        let b2 := set_inventory (<[t := set_record r ir]> (inventory b1)) b1 in
        (loadRecordMetadata r >> ret None) b2
    end.

Definition updateInventoryRecord (r : pd.Record) : M error :=
  _updateInventoryRecord r.

(** ** Reading records and their maps *)

(** The map object a [comments] field refers to; reading a nil map
    finds nothing. *)
Definition comments_of (b : backend) (ir : inventoryRecord)
  : gmap string www.Comment :=
  match comments ir with
  | Some l => default ∅ (commentMaps b !! l)
  | None => ∅
  end.

Definition likes_of (b : backend) (ir : inventoryRecord)
  : gmap string (list www.LikeComment) :=
  match commentsLikes ir with
  | Some l => default ∅ (likeMaps b !! l)
  | None => ∅
  end.

(** [return *r, nil]: the struct is copied, field by field. *)
Definition _getInventoryRecord (token : string)
  : M (inventoryRecord * error) :=
  fun b =>
    match inventory b !! token with
    | None => Returns (zero_inventoryRecord, Some (ErrRecordNotFound token)) b
    | Some r => Returns (r, None) b
    end.

Definition getInventoryRecord (token : string)
  : M (inventoryRecord * error) :=
  _getInventoryRecord token.

Definition _getInventoryRecordComment (token commentID : string)
  : M (option www.Comment * error) :=
  fun b =>
    match inventory b !! token with
    | None => Panics
    | Some ir =>
        match comments_of b ir !! commentID with
        | None => Returns (None, Some (ErrCommentNotFound token commentID)) b
        | Some comment => Returns (Some comment, None) b
        end
    end.

(** [m[k] = v] on the comments map [m] refers to: a panic on the nil map. *)
Definition write_comment (m : option loc) (k : string) (v : www.Comment)
  : M unit :=
  fun b =>
    match m with
    | None => Panics
    | Some l =>
        Returns tt
          (set_commentMaps
             (<[l := <[k := v]> (default ∅ (commentMaps b !! l))]>
                (commentMaps b)) b)
    end.

Definition _setRecordComment (comment : www.Comment) : M error :=
  fun b =>
    match inventory b !! www.Token comment with
    | None => Returns (Some (ErrRecordNotFound (www.Token comment))) b
    | Some ir =>
        (write_comment (comments ir) (www.CommentID comment) comment >>
         ret None) b
    end.

Definition setRecordComment (comment : www.Comment) : M error :=
  _setRecordComment comment.

(** ** What a caller can do with the record [getInventoryRecord] returned

    The caller holds its own struct [r]; the maps and the backing array
    its fields refer to are objects of the same heap. *)

Inductive caller_write :=
  | AssignFields (f : inventoryRecord → inventoryRecord)
      (* r.record = ..., r.voting = ..., r.comments = nil, ... *)
  | WriteComment (k : string) (v : www.Comment)
      (* r.comments[k] = v *)
  | WriteLikes (k : string) (v : list www.LikeComment)
      (* r.commentsLikes[k] = v *)
  | WriteChange (i : nat) (x : MDStreamChanges).
      (* r.changes[i] = x *)

Definition caller_apply (w : caller_write) (r : inventoryRecord)
  : M inventoryRecord :=
  match w with
  | AssignFields f => ret (f r)
  | WriteComment k v => write_comment (comments r) k v >> ret r
  | WriteLikes k v =>
      fun b =>
        match commentsLikes r with
        | None => Panics
        | Some l =>
            Returns r
              (set_likeMaps
                 (<[l := <[k := v]> (default ∅ (likeMaps b !! l))]>
                    (likeMaps b)) b)
        end
  | WriteChange i x =>
      fun b =>
        match sl_arr (changes r) with
        | Some a =>
            if decide (i < sl_len (changes r))%nat
            then Returns r
                   (set_changeArrays
                      (<[a := <[i := x]> (default [] (changeArrays b !! a))]>
                         (changeArrays b)) b)
            else Panics                      (* index out of range *)
        | None => Panics
        end
  end.

(** What an entry of the cache holds, its maps and slice read through. *)
Record entry_contents := {
  ec_record : pd.Record;
  ec_proposalMD : BackendProposalMetadata;
  ec_comments : gmap string www.Comment;
  ec_commentsLikes : gmap string (list www.LikeComment);
  ec_changes : list MDStreamChanges;
  ec_voteAuthorization : AuthorizeVoteReply;
  ec_votebits : StartVote;
  ec_voting : StartVoteReply
}.

Definition contents (b : backend) (ir : inventoryRecord) : entry_contents :=
  {| ec_record := record ir; ec_proposalMD := proposalMD ir;
     ec_comments := comments_of b ir; ec_commentsLikes := likes_of b ir;
     ec_changes := slice_elems (changeArrays b) (changes ir);
     ec_voteAuthorization := voteAuthorization ir;
     ec_votebits := votebits ir; ec_voting := voting ir |}.

Definition cached (b : backend) (token : string) : option entry_contents :=
  contents b <$> inventory b !! token.

(** ** The comment tally *)

Definition like_key (l : www.LikeComment) : string * string :=
  (www.LikeCommentID l, www.LikePublicKey l).

(** Modelled from the spec: the reduction behind
    [_updateResultsForCommentLike], which is not among the sources.
    Section 4.3: group the events by (comment id, user public key); in each
    group the event with the latest timestamp is the user's resultant
    action, a later event in ingestion order winning a tie. *)
Definition record_like (m : gmap (string * string) (Z * Z))
    (l : www.LikeComment) : gmap (string * string) (Z * Z) :=
  match m !! like_key l with
  | Some (ts, _) =>
      if decide (www.LikeTimestamp l < ts) then m
      else <[like_key l := (www.LikeTimestamp l, www.Action l)]> m
  | None => <[like_key l := (www.LikeTimestamp l, www.Action l)]> m
  end.

(** Modelled from the spec: the resultant (timestamp, action) per
    (comment id, user public key) of an event sequence (section 4.3). *)
Definition resultantActions (events : list www.LikeComment)
  : gmap (string * string) (Z * Z) :=
  foldl record_like ∅ events.

(** Modelled from the spec: the number of users whose resultant action on
    comment [cid] is [a] (section 4.3: resultant actions are summed per
    comment id into an up-count and a down-count). *)
Definition countAction (cid : string) (a : Z)
    (m : gmap (string * string) (Z * Z)) : Z :=
  Z.of_nat
    (length (filter (λ kv : (string * string) * (Z * Z),
                       kv.1.1 = cid ∧ kv.2.2 = a) (map_to_list m))).

(** Modelled from the spec: the (up, down) totals of comment [cid]. *)
Definition tally (cid : string) (events : list www.LikeComment) : Z * Z :=
  let m := resultantActions events in
  (countAction cid 1 m, countAction cid (-1) m).

Definition set_votes (up down : Z) (c : www.Comment) : www.Comment :=
  {| www.CommentID := www.CommentID c; www.Token := www.Token c;
     www.Author := www.Author c; www.Content := www.Content c;
     www.Timestamp := www.Timestamp c;
     www.upVotes := up; www.downVotes := down |}.

(** Modelled from the spec: [_updateResultsForCommentLike] is not among the
    sources.  Sections 4.3 and 7: it fails with NotFound when the token or
    the comment of the like is not in the cache; otherwise it reduces the
    like events recorded for the like's comment to the (up, down) totals
    and writes the pair into that comment. *)
Definition _updateResultsForCommentLike (like : www.LikeComment)
  : M (option www.Comment * error) :=
  fun b =>
    let token := www.LikeToken like in
    let commentID := www.LikeCommentID like in
    match inventory b !! token with
    | None => Returns (None, Some (ErrRecordNotFound token)) b
    | Some ir =>
        match comments_of b ir !! commentID with
        | None => Returns (None, Some (ErrCommentNotFound token commentID)) b
        | Some c =>
            let events := default [] (likes_of b ir !! commentID) in
            let '(up, down) := tally commentID events in
            let c' := set_votes up down c in
            (write_comment (comments ir) commentID c' >>
             ret (Some c', None)) b
        end
    end.

(** The inner loop of [_processCommentsLikesResults]. *)
Fixpoint processLikes (token : string) (likes : list www.LikeComment)
  : M error :=
  match likes with
  | [] => ret None
  | l :: rest =>
      let* res := _updateResultsForCommentLike l in
      match snd res with
      | Some err =>
          ret (Some (ErrWrapped
                       "processCommentsLikesResults: updateResutsForCommentLike"
                       err))
      | None => processLikes token rest
      end
  end.

(** The outer loop: [range] visits the keys of the map in an order of its
    own choosing, here [order]. *)
Fixpoint processComments (token : string)
    (commentLikes : gmap string (list www.LikeComment))
    (order : list string) : M error :=
  match order with
  | [] => ret None
  | k :: rest =>
      let* err := processLikes token (default [] (commentLikes !! k)) in
      match err with
      | Some e => ret (Some e)
      | None => processComments token commentLikes rest
      end
  end.

(** [order] is the sequence of keys in which the [range] over
    [ir.commentsLikes] runs. *)
Definition _processCommentsLikesResults (order : list string)
    (token : string) : M error :=
  fun b =>
    match inventory b !! token with
    | None => Returns (Some (ErrRecordNotFound token)) b
    | Some ir => processComments token (likes_of b ir) order b
    end.

(** An order in which [range] can visit a map: each key once. *)
Definition range_order {V} (m : gmap string V) (order : list string) : Prop :=
  order ≡ₚ (map_to_list m).*1.

(** ** Listing proposals *)

Record proposalsRequest := {
  After : string;
  Before : string;
  ReqUserId : string;
  StateMap : gmap www.PropStateT bool
}.

Definition set_NumComments (n : Z) (v : www.ProposalRecord) :=
  {| www.PropToken := www.PropToken v; www.PropTimestamp := www.PropTimestamp v;
     www.State := www.State v; www.PropStatus := www.PropStatus v;
     www.PublicKey := www.PublicKey v; www.UserId := www.UserId v;
     www.Username := www.Username v; www.NumComments := n |}.

Definition set_UserId (u : string) (v : www.ProposalRecord) :=
  {| www.PropToken := www.PropToken v; www.PropTimestamp := www.PropTimestamp v;
     www.State := www.State v; www.PropStatus := www.PropStatus v;
     www.PublicKey := www.PublicKey v; www.UserId := u;
     www.Username := www.Username v; www.NumComments := www.NumComments v |}.

Definition set_Username (u : string) (v : www.ProposalRecord) :=
  {| www.PropToken := www.PropToken v; www.PropTimestamp := www.PropTimestamp v;
     www.State := www.State v; www.PropStatus := www.PropStatus v;
     www.PublicKey := www.PublicKey v; www.UserId := www.UserId v;
     www.Username := u; www.NumComments := www.NumComments v |}.

(** Two methods of the backend defined in other files. *)
Variable _convertPropFromInventoryRecord :
  backend → inventoryRecord → www.ProposalRecord.
Variable getUsernameById : backend → string → string.

(** The body of the loop of [_getAllProposals] for one record. *)
Definition proposalView (vv : inventoryRecord) : M www.ProposalRecord :=
  fun b =>
    let v := _convertPropFromInventoryRecord b vv in
    let v := set_NumComments (Z.of_nat (size (comments_of b vv))) v in
    match userPubkeys b !! www.PublicKey v with
    | Some uid =>
        Returns (set_Username (getUsernameById b uid) (set_UserId uid v)) b
    | None =>
        Returns (set_UserId "" v)
          (log_write
             (LogError "user not found for public key %v, for proposal %v")
             (log_write (LogInfo "%v") b))
    end.

(** [order] is the sequence of tokens in which the [range] over
    [b.inventory] runs. *)
Fixpoint allProposals_loop (order : list string)
    (allProposals : list www.ProposalRecord) : M (list www.ProposalRecord) :=
  match order with
  | [] => ret allProposals
  | t :: rest =>
      fun b =>
        match inventory b !! t with
        | None => allProposals_loop rest allProposals b
        | Some vv =>
            (let* v := proposalView vv in
             allProposals_loop rest (allProposals ++ [v])) b
        end
  end.

Definition _getAllProposals (order : list string)
  : M (list www.ProposalRecord) :=
  allProposals_loop order [].

(** The [less] function handed to [sort.Slice]. *)
Definition less (a b : www.ProposalRecord) : bool :=
  if negb (www.PropTimestamp a =? www.PropTimestamp b)
  then www.PropTimestamp a <? www.PropTimestamp b
  else String.ltb (www.PropToken b) (www.PropToken a).

(** [sort.Slice] is library code: it leaves the slice a permutation of
    itself ordered by [less].  Proposals differ in timestamp or token, so
    there is one such permutation; insertion sort computes it. *)
Fixpoint sort_insert (x : www.ProposalRecord) (l : list www.ProposalRecord)
  : list www.ProposalRecord :=
  match l with
  | [] => [x]
  | y :: l' => if less x y then x :: l else y :: sort_insert x l'
  end.

Definition sortSlice (l : list www.ProposalRecord) : list www.ProposalRecord :=
  foldr sort_insert [] l.

(** The two filters at the head of both loops of [getProposals]:
    [true] when the proposal passes both. *)
Definition passesFilters (pr : proposalsRequest) (proposal : www.ProposalRecord)
  : bool :=
  if bool_decide (ReqUserId pr ≠ "") && bool_decide (ReqUserId pr ≠ www.UserId proposal)
  then false
  else match StateMap pr !! www.State proposal with
       | Some val => val
       | None => false
       end.

(** The variables of the first loop. *)
Record page := {
  pageStarted : bool;
  beforeIdx : Z;
  proposals : list www.ProposalRecord
}.

(** The first loop, from index [n - 1] down to 0. *)
Fixpoint scanBack (pr : proposalsRequest) (allProposals : list www.ProposalRecord)
    (n : nat) (w : page) : page :=
  match n with
  | O => w
  | S i =>
      match allProposals !! i with
      | None => w
      | Some proposal =>
          if negb (passesFilters pr proposal) then scanBack pr allProposals i w
          else if pageStarted w then
            let ps := proposals w ++ [proposal] in
            let w' := {| pageStarted := true; beforeIdx := beforeIdx w;
                         proposals := ps |} in
            if Z.of_nat (length ps) >=? ProposalListPageSize then w'
            else scanBack pr allProposals i w'
          else if bool_decide (After pr ≠ "") then
            scanBack pr allProposals i
              {| pageStarted := bool_decide (www.PropToken proposal = After pr);
                 beforeIdx := beforeIdx w; proposals := proposals w |}
          else if bool_decide (Before pr ≠ "") then
            if bool_decide (www.PropToken proposal = Before pr)
            then {| pageStarted := pageStarted w; beforeIdx := Z.of_nat i;
                    proposals := proposals w |}
            else scanBack pr allProposals i w
          else scanBack pr allProposals i w
      end
  end.

(** The second loop, over [allProposals[beforeIdx+1:]]. *)
Fixpoint collectForward (pr : proposalsRequest)
    (rest : list www.ProposalRecord) (proposals : list www.ProposalRecord)
  : list www.ProposalRecord :=
  match rest with
  | [] => proposals
  | proposal :: rest' =>
      if negb (passesFilters pr proposal) then collectForward pr rest' proposals
      else
        let ps := proposal :: proposals in
        if Z.of_nat (length ps) >=? ProposalListPageSize then ps
        else collectForward pr rest' ps
  end.

(** [getProposals] from the sorted slice on. *)
Definition paginate (pr : proposalsRequest)
    (allProposals : list www.ProposalRecord) : list www.ProposalRecord :=
  let w0 := {| pageStarted := bool_decide (After pr = "")
                               && bool_decide (Before pr = "");
               beforeIdx := -1; proposals := [] |} in
  let w := scanBack pr allProposals (length allProposals) w0 in
  if 0 <=? beforeIdx w
  then collectForward pr (drop (Z.to_nat (beforeIdx w + 1)) allProposals)
         (proposals w)
  else proposals w.

Definition getProposals (order : list string) (pr : proposalsRequest)
  : M (list www.ProposalRecord) :=
  let* allProposals := _getAllProposals order in
  ret (paginate pr (sortSlice allProposals)).

(** ** Sequences of inserts and updates *)

Inductive cache_op :=
  | OpInsert (r : pd.Record)
  | OpUpdate (r : pd.Record).

Definition run_op (o : cache_op) : M error :=
  match o with
  | OpInsert r => newInventoryRecord r
  | OpUpdate r => updateInventoryRecord r
  end.

(** The operations run one after the other; the errors they return are
    collected. *)
Fixpoint run_ops (ops : list cache_op) : M (list error) :=
  match ops with
  | [] => ret []
  | o :: rest =>
      let* e := run_op o in
      let* es := run_ops rest in
      ret (e :: es)
  end.

(** ** The six status buckets *)

Inductive bucket :=
  | Invalid | Censored | Unvetted | UnvettedChanges | Public | Abandoned.

#[global] Instance bucket_eq_dec : EqDecision bucket.
Proof. solve_decision. Defined.

(** The bucket the switch of [executeUpdate] selects. *)
Definition bucket_of (status : www.PropStatusT) : bucket :=
  if decide (status = PropStatusUnreviewedChanges) then UnvettedChanges
  else if decide (status = PropStatusNotReviewed) then Unvetted
  else if decide (status = PropStatusCensored) then Censored
  else if decide (status = PropStatusPublic) then Public
  else if decide (status = PropStatusAbandoned) then Abandoned
  else Invalid.

Definition counter (k : bucket) (b : backend) : Z :=
  match k with
  | Invalid => numOfInvalid b
  | Censored => numOfCensored b
  | Unvetted => numOfUnvetted b
  | UnvettedChanges => numOfUnvettedChanges b
  | Public => numOfPublic b
  | Abandoned => numOfAbandoned b
  end.

Definition counters_sum (b : backend) : Z :=
  numOfInvalid b + numOfCensored b + numOfUnvetted b
  + numOfUnvettedChanges b + numOfPublic b + numOfAbandoned b.

(** The bucket of each entry of the inventory. *)
Definition entry_bucket (ir : inventoryRecord) : bucket :=
  bucket_of (convertPropStatusFromPD (pd.Status (record ir))).

Definition buckets (b : backend) : gmap string bucket :=
  entry_bucket <$> inventory b.

(** The number of entries in bucket [k]. *)
Definition count (k : bucket) (m : gmap string bucket) : nat :=
  size (filter (λ kv : string * bucket, kv.2 = k) m).

(** ** The page of a request, from the proposals that pass its filters

    [cursor_tail tok l] is what follows the first proposal of [l] with
    token [tok]; [cursor_head tok l] is what precedes it, if there is
    one. *)

Fixpoint cursor_tail (tok : string) (l : list www.ProposalRecord)
  : list www.ProposalRecord :=
  match l with
  | [] => []
  | p :: l' => if bool_decide (www.PropToken p = tok) then l'
               else cursor_tail tok l'
  end.

Fixpoint cursor_head (tok : string) (l : list www.ProposalRecord)
  : option (list www.ProposalRecord) :=
  match l with
  | [] => None
  | p :: l' => if bool_decide (www.PropToken p = tok) then Some []
               else cons p <$> cursor_head tok l'
  end.

(** The page of [pr] over the sorted slice: the filters are applied first,
    the cursor is looked for among the proposals that are left, newest
    first. *)
Definition page_of_filtered (pr : proposalsRequest)
    (allProposals : list www.ProposalRecord) : list www.ProposalRecord :=
  let size := Z.to_nat ProposalListPageSize in
  let newest_first := reverse (filter (λ p, passesFilters pr p = true) allProposals) in
  if bool_decide (After pr ≠ "") then
    take size (cursor_tail (After pr) newest_first)
  else if bool_decide (Before pr ≠ "") then
    match cursor_head (Before pr) newest_first with
    | Some newer => reverse (take size (reverse newer))
    | None => []
    end
  else take size newest_first.


(** ** What the metadata loaders leave alone

    A loader writes decoded values into fields of one record, grows the
    backing arrays and logs; the rest of the backend is its frame. *)

Definition fixed_part (ir : inventoryRecord)
  : pd.Record * option loc * option loc :=
  (record ir, comments ir, commentsLikes ir).

Definition frame (b : backend) :=
  (fixed_part <$> inventory b, userPubkeys b, numOfPropsByUserID b,
   (numOfInvalid b, numOfCensored b, numOfUnvetted b,
    numOfUnvettedChanges b, numOfPublic b, numOfAbandoned b),
   commentMaps b, likeMaps b).

(** A function of the inventory that returns without a panic on every
    backend that holds the token, and changes nothing of the frame. *)
Definition framed {A} (m : M A) (t : string) : Prop :=
  ∀ b, is_Some (inventory b !! t) →
       ∃ a b', m b = Returns a b' ∧ frame b' = frame b.




(** Two events of one user on one comment with the same timestamp carry
    the same action. *)
Definition no_conflicting_ties (events : list www.LikeComment) : Prop :=
  ∀ l1 l2, l1 ∈ events → l2 ∈ events →
    like_key l1 = like_key l2 →
    www.LikeTimestamp l1 = www.LikeTimestamp l2 →
    www.Action l1 = www.Action l2.


(** The tokens of what a call returned. *)
Definition returned_tokens (o : outcome (list www.ProposalRecord))
  : option (list string) :=
  match o with
  | Returns ps _ => Some (www.PropToken <$> ps)
  | Panics => None
  end.

(** Each counter holds the number of entries of its bucket, as a Go
    [int]. *)
Definition counters_follow (b : backend) : Prop :=
  ∀ k, counter k b = int_wrap (Z.of_nat (count k (buckets b))).

(** ** Proposal statistics *)

Record proposalsStats := {
  NumOfInvalid : Z;
  NumOfCensored : Z;
  NumOfUnvetted : Z;
  NumOfUnvettedChanges : Z;
  NumOfPublic : Z;
  NumOfAbandoned : Z
}.

Definition _inventoryProposalStats : M proposalsStats :=
  fun b =>
    Returns {| NumOfInvalid := numOfInvalid b;
               NumOfCensored := numOfCensored b;
               NumOfUnvetted := numOfUnvetted b;
               NumOfUnvettedChanges := numOfUnvettedChanges b;
               NumOfPublic := numOfPublic b;
               NumOfAbandoned := numOfAbandoned b |} b.

Definition inventoryProposalStats : M proposalsStats :=
  _inventoryProposalStats.

(** [var ps proposalsStats] *)
Definition zero_proposalsStats : proposalsStats :=
  {| NumOfInvalid := 0; NumOfCensored := 0; NumOfUnvetted := 0;
     NumOfUnvettedChanges := 0; NumOfPublic := 0; NumOfAbandoned := 0 |}.

(** The field of a [proposalsStats] that belongs to a bucket, and
    [+= 1] on it. *)
Definition stat (k : bucket) (ps : proposalsStats) : Z :=
  match k with
  | Invalid => NumOfInvalid ps
  | Censored => NumOfCensored ps
  | Unvetted => NumOfUnvetted ps
  | UnvettedChanges => NumOfUnvettedChanges ps
  | Public => NumOfPublic ps
  | Abandoned => NumOfAbandoned ps
  end.

Definition incr_stat (k : bucket) (ps : proposalsStats) : proposalsStats :=
  {| NumOfInvalid :=
       if decide (k = Invalid) then int_add (NumOfInvalid ps) 1
       else NumOfInvalid ps;
     NumOfCensored :=
       if decide (k = Censored) then int_add (NumOfCensored ps) 1
       else NumOfCensored ps;
     NumOfUnvetted :=
       if decide (k = Unvetted) then int_add (NumOfUnvetted ps) 1
       else NumOfUnvetted ps;
     NumOfUnvettedChanges :=
       if decide (k = UnvettedChanges) then int_add (NumOfUnvettedChanges ps) 1
       else NumOfUnvettedChanges ps;
     NumOfPublic :=
       if decide (k = Public) then int_add (NumOfPublic ps) 1
       else NumOfPublic ps;
     NumOfAbandoned :=
       if decide (k = Abandoned) then int_add (NumOfAbandoned ps) 1
       else NumOfAbandoned ps |}.

(** The body of the loop of [userProposalStats]: the switch has no
    default case. *)
Definition countProposal (userID : string) (ps : proposalsStats)
    (v : www.ProposalRecord) : proposalsStats :=
  if bool_decide (www.UserId v ≠ userID) then ps
  else if decide (www.PropStatus v = PropStatusInvalid) then
    incr_stat Invalid ps
  else if decide (www.PropStatus v = PropStatusNotReviewed) then
    incr_stat Unvetted ps
  else if decide (www.PropStatus v = PropStatusUnreviewedChanges) then
    incr_stat UnvettedChanges ps
  else if decide (www.PropStatus v = PropStatusCensored) then
    incr_stat Censored ps
  else if decide (www.PropStatus v = PropStatusPublic) then
    incr_stat Public ps
  else if decide (www.PropStatus v = PropStatusAbandoned) then
    incr_stat Abandoned ps
  else ps.

Definition userProposalStats (order : list string) (userID : string)
  : M proposalsStats :=
  let* allProposals := _getAllProposals order in
  ret (foldl (countProposal userID) zero_proposalsStats allProposals).

(** The status constant each case of that switch compares with. *)
Definition status_of (k : bucket) : www.PropStatusT :=
  match k with
  | Invalid => PropStatusInvalid
  | Censored => PropStatusCensored
  | Unvetted => PropStatusNotReviewed
  | UnvettedChanges => PropStatusUnreviewedChanges
  | Public => PropStatusPublic
  | Abandoned => PropStatusAbandoned
  end.

Definition all_buckets : list bucket :=
  [Invalid; Censored; Unvetted; UnvettedChanges; Public; Abandoned].

(** ** Setting the vote metadata of a record *)

Definition _setRecordVoting (token : string) (sv : StartVote)
    (svr : StartVoteReply) : M error :=
  fun b =>
    match inventory b !! token with
    | None => Returns (Some (ErrRecordNotFound token)) b
    | Some ir =>
        let ir := set_voting svr ir in
        let ir := set_votebits sv ir in
        Returns None (set_inventory (<[token := ir]> (inventory b)) b)
    end.

Definition _setRecordVoteAuthorization (token : string)
    (avr : AuthorizeVoteReply) : M error :=
  fun b =>
    match inventory b !! token with
    | None => Returns (Some (ErrRecordNotFound token)) b
    | Some _ =>
        (update_entry token (set_voteAuthorization avr) >> ret None) b
    end.

Definition setRecordVoteAuthorization (token : string)
    (avr : AuthorizeVoteReply) : M error :=
  _setRecordVoteAuthorization token avr.

(** ** One proposal *)

(** [www.ProposalRecord{}] *)
Definition zero_ProposalRecord : www.ProposalRecord :=
  {| www.PropToken := ""; www.PropTimestamp := 0; www.State := 0;
     www.PropStatus := 0; www.PublicKey := ""; www.UserId := "";
     www.Username := ""; www.NumComments := 0 |}.

Definition _getProposal (token : string) : M (www.ProposalRecord * error) :=
  let* res := _getInventoryRecord token in
  match res.2 with
  | Some err => ret (zero_ProposalRecord, Some err)
  | None =>
      fun b => Returns (_convertPropFromInventoryRecord b res.1, None) b
  end.

End Inventory.

Arguments Returns {Ext A} _ _.
Arguments Panics {Ext A}.
Arguments DecodeEOF {T}.
Arguments DecodeError {T} _.
Arguments Decoded {T} _.

Notation "'let*' x ':=' m 'in' k" := (bind m (fun x => k))
  (at level 10, x name, m at level 100, k at level 200).
Notation "m '>>' k" := (bind m (fun _ => k))
  (at level 62, right associativity).

(** * Loading comments, likes and whole inventories

    [loadComments] and [_loadCommentsLikes] send a command to the decred
    plugin of politeiad and decode its reply.  The plugin's types and the
    converters are declared in other files.  The exchange itself (the
    random challenge, the encoded command, the HTTP request, the JSON of
    the reply, the check of the challenge response, the decoding of the
    payload) is I/O that touches nothing of the inventory: for a token it
    either stops at the first step that fails, with that step's error, or
    yields the decoded reply. *)

Class Plugin `{Ext : Externals} := {
  pluginComment : Type;                       (* decredplugin.Comment *)
  pluginCommentID : pluginComment → string;   (* its CommentID *)
  pluginLikeComment : Type;                   (* decredplugin.LikeComment *)
  _convertDecredCommentToWWWComment : backend → pluginComment → www.Comment;
  convertDecredLikeCommentToWWWLikeComment :
    pluginLikeComment → www.LikeComment;
  (* CmdGetComments: the error of the step that failed, or gcr.Comments *)
  getComments : string → error_value + list pluginComment;
  (* CmdProposalCommentsLikes: likewise, or gpclr.CommentsLikes *)
  getProposalCommentsLikes : string → error_value + list pluginLikeComment
}.

(** The fields of [pd.InventoryReply] that [initializeInventory] reads. *)
Record InventoryReply := {
  Vetted : list pd.Record;
  Branches : list pd.Record
}.

Section Loading.

Context `{Ext : Externals} {Plg : Plugin}.

(** [b.inventory[t].comments[v.CommentID] = c] for one comment of the
    reply. *)
Definition fillComment (t : string) (v : pluginComment) : M unit :=
  fun b =>
    let c := _convertDecredCommentToWWWComment b v in
    match inventory b !! t with
    | None => Panics
    | Some ir => write_comment (comments ir) (pluginCommentID v) c b
    end.

Fixpoint fillComments (t : string) (cs : list pluginComment) : M unit :=
  match cs with
  | [] => ret tt
  | v :: rest => fillComment t v >> fillComments t rest
  end.

Definition loadComments (t : string) : M error :=
  modify (log_write (LogTrace "loadComments: %v")) >>
  match getComments t with
  | inl err => ret (Some err)
  | inr gcrComments =>
      fillComments t gcrComments >>
      modify (log_write (LogTrace "loadComments: %v inserted %v")) >>
      ret None
  end.

(** [b.inventory[token].commentsLikes = make(map[string][]www.LikeComment)] *)
Definition resetCommentsLikes (token : string) : M unit :=
  fun b =>
    match inventory b !! token with
    | None => Panics
    | Some ir =>
        let l := fresh (dom (likeMaps b)) in
        Returns tt
          (set_inventory
             (<[token := set_commentsLikes (Some l) ir]> (inventory b))
             (set_likeMaps (<[l := ∅]> (likeMaps b)) b))
    end.

(** The body of the loop of [_loadCommentsLikes]: the like is appended
    to the slice kept under its comment id. *)
Definition appendLike (token : string) (v : pluginLikeComment) : M unit :=
  fun b =>
    let lc := convertDecredLikeCommentToWWWLikeComment v in
    match inventory b !! token with
    | None => Panics
    | Some ir =>
        let cls := default [] (likes_of b ir !! www.LikeCommentID lc) in
        match commentsLikes ir with
        | None => Panics
        | Some l =>
            Returns tt
              (set_likeMaps
                 (<[l := <[www.LikeCommentID lc := cls ++ [lc]]>
                           (default ∅ (likeMaps b !! l))]> (likeMaps b)) b)
        end
    end.

Fixpoint appendLikes (token : string) (vs : list pluginLikeComment)
  : M unit :=
  match vs with
  | [] => ret tt
  | v :: rest => appendLike token v >> appendLikes token rest
  end.

Definition _loadCommentsLikes (token : string) : M error :=
  modify (log_write (LogTrace "loadCommentsLikes %v")) >>
  match getProposalCommentsLikes token with
  | inl err => ret (Some err)
  | inr commentsLikes =>
      resetCommentsLikes token >>
      appendLikes token commentsLikes >>
      modify (log_write (LogTrace "loadCommentsLikes: %v inserted %v")) >>
      ret None
  end.

(** [order] is the sequence in which [_processCommentsLikesResults]
    ranges over the like map of the record. *)
Definition loadRecord (order : list string) (record : pd.Record) : M error :=
  let t := pd.Token record in
  loadRecordMetadata record >>
  let* err := loadComments t in
  match err with
  | Some e => ret (Some (ErrWrapped "could not load comments for %s: %v" e))
  | None =>
      let* err := _loadCommentsLikes t in
      match err with
      | Some e =>
          ret (Some (ErrWrapped "could not load comment likes for %s: %v" e))
      | None =>
          let* err := _processCommentsLikesResults order t in
          match err with
          | Some e =>
              ret (Some (ErrWrapped
                     "could not process comment likes results for %s: %v" e))
          | None => ret None
          end
      end
  end.

(** The loop of [initializeInventory]; [order t] is the range order of
    the like map of token [t]. *)
Fixpoint initializeInventory_loop (order : string → list string)
    (records : list pd.Record) : M error :=
  match records with
  | [] => ret None
  | v :: rest =>
      let* err := _newInventoryRecord v in
      match err with
      | Some e => ret (Some e)
      | None =>
          let* err := loadRecord (order (pd.Token v)) v in
          match err with
          | Some e => ret (Some e)
          | None => initializeInventory_loop order rest
          end
      end
  end.

Definition initializeInventory (order : string → list string)
    (inv : InventoryReply) : M error :=
  modify (set_inventory ∅) >>
  initializeInventory_loop order (Vetted inv ++ Branches inv).

(** ** Sequences of calls

    The functions that change the cache of a running server. *)

Inductive cache_call :=
  | CallInsert (r : pd.Record)
  | CallUpdate (r : pd.Record)
  | CallSetComment (c : www.Comment)
  | CallSetVoting (token : string) (sv : StartVote) (svr : StartVoteReply)
  | CallSetVoteAuthorization (token : string) (avr : AuthorizeVoteReply).

Definition run_call (c : cache_call) : M error :=
  match c with
  | CallInsert r => newInventoryRecord r
  | CallUpdate r => updateInventoryRecord r
  | CallSetComment c => setRecordComment c
  | CallSetVoting token sv svr => _setRecordVoting token sv svr
  | CallSetVoteAuthorization token avr => setRecordVoteAuthorization token avr
  end.

(** The calls run one after the other; the errors they return are
    collected. *)
Fixpoint run_calls (cs : list cache_call) : M (list error) :=
  match cs with
  | [] => ret []
  | c :: rest =>
      let* e := run_call c in
      let* es := run_calls rest in
      ret (e :: es)
  end.

(** Every record has a comments map of its own. *)
Definition own_comments (b : backend) : Prop :=
  ∀ t ir, inventory b !! t = Some ir →
    (∃ l, comments ir = Some l ∧ is_Some (commentMaps b !! l))
    ∧ ∀ t' ir', inventory b !! t' = Some ir' →
        comments ir' = comments ir → t' = t.

(** The proposal metadata a stream brings: the first value decoded
    from it when the switch of [loadRecordMetadata] hands it to
    [loadPropMD]. *)
Definition generalMD (m : pd.MetadataStream) : option BackendProposalMetadata :=
  if decide (pd.ID m = mdStreamGeneral)
  then head (js_values (decodeProposalMD (pd.Payload m)))
  else None.

(** The records, the user directory and the counters of [b'] are
    those of [b]. *)
Definition same_records (b b' : backend) : Prop :=
  record <$> inventory b' = record <$> inventory b
  ∧ comments <$> inventory b' = comments <$> inventory b
  ∧ userPubkeys b' = userPubkeys b
  ∧ numOfPropsByUserID b' = numOfPropsByUserID b
  ∧ ∀ k, counter k b' = counter k b.

(** The number of records of a list that fall into bucket [k]. *)
Definition records_in (k : bucket) (rs : list pd.Record) : nat :=
  length (filter (λ r, bucket_of (convertPropStatusFromPD (pd.Status r)) = k)
            rs).

(** ** The changes of a record

    A slice as the runtime builds it: its array is allocated and at
    least as long as the slice; the nil slice is empty. *)
Definition sl_wf (h : gmap loc (list MDStreamChanges)) (s : slice) : Prop :=
  match sl_arr s with
  | Some a => ∃ arr, h !! a = Some arr ∧ (sl_len s ≤ length arr)%nat
  | None => sl_len s = 0%nat
  end.

(** The streams that the switch of [loadRecordMetadata] hands to
    [loadChanges], and the values decoded from them, in order. *)
Definition is_changes_stream (m : pd.MetadataStream) : bool :=
  bool_decide (pd.ID m ≠ mdStreamGeneral ∧ pd.ID m = mdStreamChanges).

Definition decodedChanges (ms : list pd.MetadataStream)
  : list MDStreamChanges :=
  ms ≫= (λ m, if is_changes_stream m
              then js_values (decodeChanges (pd.Payload m)) else []).

End Loading.

(** * A small instance

    Stand-ins for the declarations of other files, with which the
    functions above can be run: a proposal's metadata is its author's
    public key, the other decoded values are numbers, and a payload is
    either empty, the text [bad] (a syntax error), or one value. *)

Module Demo.

Definition one_value {T} (v : T) (p : string) : json_stream T :=
  if decide (p = "") then {| js_values := []; js_end := None |}
  else if decide (p = "bad")
       then {| js_values := []; js_end := Some "invalid character" |}
       else {| js_values := [v]; js_end := None |}.

Definition ext : Externals := {|
  BackendProposalMetadata := string;
  MDPublicKey := λ md, md;
  MDStreamChanges := Z;
  AuthorizeVoteReply := Z;
  StartVote := Z;
  StartVoteReply := Z;
  pluginAuthorizeVoteReply := Z;
  pluginStartVote := Z;
  pluginStartVoteReply := Z;
  zeroProposalMD := "";
  zeroChanges := 0;
  zeroAuthorizeVoteReply := 0;
  zeroStartVote := 0;
  zeroStartVoteReply := 0;
  convertPropStatusFromPD := λ s, s;
  convertAuthorizeVoteReplyFromDecredplugin := λ x, x;
  convertStartVoteFromDecredplugin := λ x, x;
  convertStartVoteReplyFromDecredplugin := λ x, x;
  decodeProposalMD := λ p, one_value p p;
  decodeChanges := one_value 7;
  decodeAuthorizeVoteReply := one_value 1;
  decodeStartVote := one_value 1;
  decodeStartVoteReply := one_value 1;
  PropStatusInvalid := 0;
  PropStatusNotReviewed := 2;
  PropStatusCensored := 3;
  PropStatusPublic := 4;
  PropStatusUnreviewedChanges := 5;
  PropStatusAbandoned := 6;
  mdStreamGeneral := 0;
  mdStreamChanges := 2;
  MDStreamAuthorizeVote := 13;
  MDStreamVoteBits := 14;
  MDStreamVoteSnapshot := 15;
  ProposalListPageSize := 2;
  growslice_spare := λ n, n
|}.

#[local] Existing Instance ext.

Definition users : gmap string string :=
  <["pk-alice" := "alice"]> (<["pk-bob" := "bob"]> ∅).

(** A record with status [status], written by the owner of [pk]. *)
Definition proposal (token : string) (timestamp : Z) (status : Z)
    (pk : string) : pd.Record :=
  {| pd.Status := status; pd.Timestamp := timestamp; pd.Token := token;
     pd.Metadata := [ {| pd.ID := 0; pd.Payload := pk |} ] |}.

Definition recA := proposal "A" 1 4 "pk-alice".
Definition recB := proposal "B" 2 4 "pk-alice".
Definition recC := proposal "C" 3 4 "pk-bob".
Definition recD := proposal "D" 4 4 "pk-alice".
Definition recE := proposal "E" 5 4 "pk-alice".

(** [A] again, now censored. *)
Definition recA' := proposal "A" 1 3 "pk-alice".

(** A record whose author is not in the user directory. *)
Definition recX := proposal "X" 9 2 "pk-nobody".


Definition ops : list cache_op :=
  [OpInsert recA; OpInsert recB; OpUpdate recA'; OpInsert recX;
   OpInsert recA; OpUpdate recC].

(** The backend an outcome leaves; the given one after a panic. *)
Definition after {A} (b : backend) (m : M A) : backend :=
  match m b with
  | Returns _ b' => b'
  | Panics => b
  end.

(** The value an outcome returns; [d] after a panic. *)
Definition returned {A} (d : A) (b : backend) (m : M A) : A :=
  match m b with
  | Returns a _ => a
  | Panics => d
  end.

Definition with_A : backend := after (empty_backend users) (newInventoryRecord recA).

Definition with_five : backend :=
  after (empty_backend users)
    (run_ops [OpInsert recC; OpInsert recA; OpInsert recE; OpInsert recB;
              OpInsert recD]).

(** Stand-ins for [_convertPropFromInventoryRecord] and
    [getUsernameById]: a public proposal is vetted (state 2), any other
    unvetted (state 1); a user is named by their id. *)
Definition convertProp (b : backend) (ir : inventoryRecord)
  : www.ProposalRecord :=
  {| www.PropToken := pd.Token (record ir);
     www.PropTimestamp := pd.Timestamp (record ir);
     www.State := if decide (pd.Status (record ir) = 4) then 2 else 1;
     www.PropStatus := convertPropStatusFromPD (pd.Status (record ir));
     www.PublicKey := MDPublicKey (proposalMD ir);
     www.UserId := ""; www.Username := ""; www.NumComments := 0 |}.

Definition usernameById (b : backend) (uid : string) : string := uid.

Definition comment1 : www.Comment :=
  {| www.CommentID := "1"; www.Token := "A"; www.Author := "bob";
     www.Content := "first"; www.Timestamp := 10;
     www.upVotes := 0; www.downVotes := 0 |}.

(** Comment [c1] of proposal [A] and the like events on it. *)
Definition comment_c1 : www.Comment :=
  {| www.CommentID := "c1"; www.Token := "A"; www.Author := "carol";
     www.Content := "a comment"; www.Timestamp := 0;
     www.upVotes := 0; www.downVotes := 0 |}.

Definition like (cid pk : string) (action timestamp : Z) : www.LikeComment :=
  {| www.LikeToken := "A"; www.LikeCommentID := cid; www.LikePublicKey := pk;
     www.Action := action; www.LikeTimestamp := timestamp |}.

Definition events : list www.LikeComment :=
  [like "c1" "u1" 1 1; like "c1" "u1" (-1) 2; like "c1" "u2" 1 3].



(** An order in which [range] may visit the five tokens. *)
Definition order_five : list string := ["D"; "B"; "E"; "A"; "C"].

Definition vetted : gmap www.PropStateT bool := <[2 := true]> ∅.

Definition after_C : proposalsRequest :=
  {| After := "C"; Before := ""; ReqUserId := ""; StateMap := vetted |}.

Definition before_C : proposalsRequest :=
  {| After := ""; Before := "C"; ReqUserId := ""; StateMap := vetted |}.

(** After [C], among the proposals of alice; [C] is bob's. *)
Definition after_C_alice : proposalsRequest :=
  {| After := "C"; Before := ""; ReqUserId := "alice"; StateMap := vetted |}.


(** The entry of [A] in [with_A]. *)
Definition entry_A : inventoryRecord :=
  default zero_inventoryRecord (inventory with_A !! "A").

(** [A] again, with a stream of changes. *)
Definition recA_changes : pd.Record :=
  {| pd.Status := 4; pd.Timestamp := 1; pd.Token := "A";
     pd.Metadata := [ {| pd.ID := 2; pd.Payload := "x" |} ] |}.

(** [A] again, with two general streams, the second of which does not
    decode. *)
Definition recA_two : pd.Record :=
  {| pd.Status := 4; pd.Timestamp := 1; pd.Token := "A";
     pd.Metadata := [ {| pd.ID := 0; pd.Payload := "pk-bob" |};
                      {| pd.ID := 0; pd.Payload := "bad" |} ] |}.

(** A stand-in for the decred plugin: its comments and likes are those
    of politeiawww; it has two comments and three likes for [A], fails
    for [B] and has nothing for the other tokens. *)
Definition plugin : Plugin := {|
  pluginComment := www.Comment;
  pluginCommentID := www.CommentID;
  pluginLikeComment := www.LikeComment;
  _convertDecredCommentToWWWComment := λ _ c, c;
  convertDecredLikeCommentToWWWLikeComment := λ l, l;
  getComments := λ t,
    if decide (t = "A") then inr [comment_c1; comment1]
    else if decide (t = "B") then inl (ErrDecode "unexpected end of JSON input")
    else inr [];
  getProposalCommentsLikes := λ t,
    if decide (t = "A") then inr events else inr []
|}.

(** The range order of the like map of every token. *)
Definition like_order (t : string) : list string := ["c1"].

Definition reply : InventoryReply :=
  {| Vetted := [recA; recC]; Branches := [recD] |}.

End Demo.

(** * Properties *)

Section Properties.

Context `{Ext : Externals}.

Implicit Types (b : backend) (ir : inventoryRecord) (t token : string).

Ltac unfold_M := unfold bind, ret, modify, panic in *.

(** ** The frame of the loaders *)

Lemma frame_inventory_lookup b b' t :
  frame b' = frame b →
  fixed_part <$> inventory b' !! t = fixed_part <$> inventory b !! t.
Proof.
  intros H. unfold frame in H.
  assert (fixed_part <$> inventory b' = fixed_part <$> inventory b) as E
    by congruence.
  by rewrite <- !lookup_fmap, E.
Qed.

Lemma frame_is_Some b b' t :
  frame b' = frame b → is_Some (inventory b !! t) → is_Some (inventory b' !! t).
Proof.
  intros H Hs. apply frame_inventory_lookup with (t := t) in H.
  destruct Hs as [ir Hir]. rewrite Hir in H.
  destruct (inventory b' !! t); [eauto | discriminate].
Qed.

Lemma frame_log_write l b : frame (log_write l b) = frame b.
Proof. reflexivity. Qed.

Lemma fmap_insert_fixed (m : gmap string inventoryRecord) t ir ir' :
  m !! t = Some ir → fixed_part ir' = fixed_part ir →
  fixed_part <$> <[t := ir']> m = fixed_part <$> m.
Proof.
  intros Hm Hf. rewrite fmap_insert, Hf.
  apply insert_id. by rewrite lookup_fmap, Hm.
Qed.

Lemma update_entry_frame t f b :
  (∀ ir, fixed_part (f ir) = fixed_part ir) →
  is_Some (inventory b !! t) →
  ∃ b', update_entry t f b = Returns tt b' ∧ frame b' = frame b.
Proof.
  intros Hf [ir Hir]. unfold update_entry. rewrite Hir.
  eexists; split; [reflexivity |].
  unfold frame; simpl. by rewrite (fmap_insert_fixed _ _ ir).
Qed.

Lemma framed_ret {A} (a : A) t : framed (ret a) t.
Proof. intros b _. by exists a, b. Qed.

Lemma framed_bind {A B} (m : M A) (k : A → M B) t :
  framed m t → (∀ a, framed (k a) t) → framed (bind m k) t.
Proof.
  intros Hm Hk b Hs. destruct (Hm b Hs) as (a & b1 & E1 & F1).
  destruct (Hk a b1 (frame_is_Some _ _ _ F1 Hs)) as (c & b2 & E2 & F2).
  exists c, b2. unfold bind. rewrite E1. split; [done | congruence].
Qed.

Lemma framed_update_entry t f :
  (∀ ir, fixed_part (f ir) = fixed_part ir) → framed (update_entry t f) t.
Proof.
  intros Hf b Hs. destruct (update_entry_frame t f b Hf Hs) as (b' & E & F).
  by exists tt, b'.
Qed.

Lemma framed_log l t : framed (modify (log_write l)) t.
Proof. intros b _. by exists tt, (log_write l b). Qed.

Lemma framed_appendChange t md : framed (appendChange t md) t.
Proof.
  intros b [p Hp]. unfold appendChange. rewrite Hp.
  destruct (append (changes p) md (changeArrays b)) as [s h].
  eexists tt, _; split; [reflexivity |].
  unfold frame; simpl. by rewrite (fmap_insert_fixed _ _ p).
Qed.

Lemma framed_loadChanges_loop t vals fin :
  framed (loadChanges_loop t vals fin) t.
Proof.
  induction vals as [| md rest IH]; simpl.
  - destruct fin; apply framed_ret.
  - apply framed_bind; [apply framed_appendChange | done].
Qed.

Lemma framed_loadPropMD t p : framed (loadPropMD t p) t.
Proof.
  unfold loadPropMD. destruct (Decode _); try apply framed_ret.
  apply framed_bind; [by apply framed_update_entry | intros; apply framed_ret].
Qed.

Lemma framed_loadChanges t p : framed (loadChanges t p) t.
Proof. apply framed_loadChanges_loop. Qed.

Lemma framed_loadVoteAuthorization t p : framed (loadVoteAuthorization t p) t.
Proof.
  unfold loadVoteAuthorization. destruct (Decode _); try apply framed_ret.
  apply framed_bind; [by apply framed_update_entry | intros; apply framed_ret].
Qed.

Lemma framed_loadVoting t p : framed (loadVoting t p) t.
Proof.
  unfold loadVoting. destruct (Decode _); try apply framed_ret.
  apply framed_bind; [by apply framed_update_entry | intros; apply framed_ret].
Qed.

Lemma framed_loadVoteBits t p : framed (loadVoteBits t p) t.
Proof.
  unfold loadVoteBits. destruct (Decode _); try apply framed_ret.
  apply framed_bind; [apply framed_log | intros _].
  apply framed_bind; [by apply framed_update_entry | intros; apply framed_ret].
Qed.

Lemma stream_loader_cases id load msg :
  stream_loader id = Some (load, msg) →
  load = loadPropMD ∨ load = loadChanges ∨ load = loadVoteAuthorization
  ∨ load = loadVoteBits ∨ load = loadVoting.
Proof.
  unfold stream_loader. repeat case_decide; intros [= <- <-]; tauto.
Qed.

Lemma framed_stream_loader id load msg t p :
  stream_loader id = Some (load, msg) → framed (load t p) t.
Proof.
  intros H. destruct (stream_loader_cases _ _ _ H) as [-> | [-> | [-> | [-> | ->]]]].
  - apply framed_loadPropMD.
  - apply framed_loadChanges.
  - apply framed_loadVoteAuthorization.
  - apply framed_loadVoteBits.
  - apply framed_loadVoting.
Qed.

Lemma framed_loadStream t m : framed (loadStream t m) t.
Proof.
  unfold loadStream. destruct (stream_loader (pd.ID m)) as [[load msg] |] eqn:E.
  - apply framed_bind; [by eapply framed_stream_loader |].
    intros [e |]; [apply framed_log | apply framed_ret].
  - apply framed_log.
Qed.

Lemma framed_loadStreams t ms : framed (loadStreams t ms) t.
Proof.
  induction ms as [| m rest IH]; simpl; [apply framed_ret |].
  apply framed_bind; [apply framed_loadStream | done].
Qed.

Lemma framed_loadRecordMetadata v :
  framed (loadRecordMetadata v) (pd.Token v).
Proof. apply framed_loadStreams. Qed.

(** ** Wrap-around arithmetic *)

Lemma int_wrap_small z : - 2 ^ 63 ≤ z < 2 ^ 63 → int_wrap z = z.
Proof. intros H. unfold int_wrap. rewrite Z.mod_small; lia. Qed.

Lemma int_add_wrap x v : int_add (int_wrap x) v = int_wrap (x + v).
Proof.
  unfold int_add, int_wrap. f_equal.
  replace ((x + 2 ^ 63) mod 2 ^ 64 - 2 ^ 63 + v + 2 ^ 63)
    with ((x + 2 ^ 63) mod 2 ^ 64 + v) by lia.
  rewrite Z.add_mod_idemp_l by lia. f_equal. lia.
Qed.

(** ** Counting the entries of a bucket *)

Lemma count_empty k : count k ∅ = 0%nat.
Proof. unfold count. by rewrite map_filter_empty, map_size_empty. Qed.

Lemma count_insert_fresh k (m : gmap string bucket) t k' :
  m !! t = None →
  count k (<[t := k']> m) = (count k m + if decide (k' = k) then 1 else 0)%nat.
Proof.
  intros Hm. unfold count. case_decide as E.
  - rewrite map_filter_insert_True by done.
    rewrite map_size_insert_None; [lia |].
    by rewrite map_lookup_filter_None; left.
  - rewrite map_filter_insert_not' by (simpl; congruence). lia.
Qed.

Lemma count_delete k (m : gmap string bucket) t k0 :
  m !! t = Some k0 →
  count k m = (count k (delete t m) + if decide (k0 = k) then 1 else 0)%nat.
Proof.
  intros Hm. rewrite <- (insert_delete_id m t k0) at 1 by done.
  apply count_insert_fresh, lookup_delete_eq.
Qed.

Lemma count_insert_present k (m : gmap string bucket) t k0 k' :
  m !! t = Some k0 →
  (count k (<[t := k']> m) + if decide (k0 = k) then 1 else 0)%nat
  = (count k m + if decide (k' = k) then 1 else 0)%nat.
Proof.
  intros Hm. rewrite <- (insert_delete_eq m t k').
  rewrite count_insert_fresh by apply lookup_delete_eq.
  rewrite (count_delete k m t k0 Hm). lia.
Qed.

Lemma count_total (m : gmap string bucket) :
  (count Invalid m + count Censored m + count Unvetted m
   + count UnvettedChanges m + count Public m + count Abandoned m)%nat
  = size m.
Proof.
  induction m as [| t k m Hm _ IH] using map_first_key_ind.
  - by rewrite !count_empty, map_size_empty.
  - rewrite !count_insert_fresh, map_size_insert_None by done.
    destruct k; repeat case_decide; try congruence; lia.
Qed.

Lemma count_le_size k (m : gmap string bucket) : (count k m ≤ size m)%nat.
Proof. apply map_size_filter. Qed.

(** ** The counters follow the buckets *)

Lemma buckets_frame b b' : frame b' = frame b → buckets b' = buckets b.
Proof.
  intros H. unfold frame in H.
  assert (fixed_part <$> inventory b' = fixed_part <$> inventory b) as E
    by congruence.
  unfold buckets. apply map_eq; intros t.
  apply (f_equal (λ m, m !! t)) in E. cbv beta in E.
  rewrite !lookup_fmap in E. rewrite !lookup_fmap.
  destruct (inventory b' !! t) as [ir' |], (inventory b !! t) as [ir |];
    simpl in *; try congruence.
  injection E as E. unfold entry_bucket. unfold fixed_part in E. congruence.
Qed.

Lemma counter_frame k b b' : frame b' = frame b → counter k b' = counter k b.
Proof.
  intros H. unfold frame in H. destruct k; simpl; congruence.
Qed.

Lemma executeUpdate_counter v s b k :
  counter k (executeUpdate v s b)
  = if decide (k = bucket_of s) then int_add (counter k b) v else counter k b.
Proof.
  unfold executeUpdate, bucket_of.
  destruct k; repeat case_decide; simpl; congruence.
Qed.

Lemma executeUpdate_rest v s b :
  inventory (executeUpdate v s b) = inventory b
  ∧ userPubkeys (executeUpdate v s b) = userPubkeys b
  ∧ numOfPropsByUserID (executeUpdate v s b) = numOfPropsByUserID b
  ∧ commentMaps (executeUpdate v s b) = commentMaps b
  ∧ likeMaps (executeUpdate v s b) = likeMaps b
  ∧ changeArrays (executeUpdate v s b) = changeArrays b
  ∧ logOutput (executeUpdate v s b) = logOutput b.
Proof. unfold executeUpdate. repeat case_decide; done. Qed.

Lemma updateCountOfUserProposals_returns t b :
  ∃ e b', _updateCountOfUserProposals t b = Returns e b'
          ∧ inventory b' = inventory b
          ∧ (∀ k, counter k b' = counter k b)
          ∧ (∀ ir, inventory b !! t = Some ir →
               (e = None ↔ is_Some (userPubkeys b !! MDPublicKey (proposalMD ir)))).
Proof.
  unfold _updateCountOfUserProposals.
  destruct (inventory b !! t) as [ir |] eqn:Hir.
  - destruct (userPubkeys b !! MDPublicKey (proposalMD ir)) as [uid |] eqn:Hu.
    + eexists _, _; split; [reflexivity |].
      split; [done |]. split; [by intros [] |].
      intros ir' [= <-]. rewrite Hu. split; eauto.
    + eexists _, _; split; [reflexivity |].
      split; [done |]. split; [done |].
      intros ir' [= <-]. rewrite Hu. split; [done | by intros [? ?]].
  - eexists _, _; split; [reflexivity |]. repeat split; done.
Qed.

(** What [_newInventoryRecord] does for a token the inventory does not
    hold. *)
Lemma newInventoryRecord_fresh r b :
  inventory b !! pd.Token r = None →
  ∃ b2 ir e b',
    loadRecordMetadata r (store_new_entry r b) = Returns tt b2
    ∧ inventory b2 !! pd.Token r = Some ir
    ∧ record ir = r
    ∧ _newInventoryRecord r b = Returns e b'
    ∧ inventory b' = inventory b2
    ∧ buckets b' = <[pd.Token r := bucket_of (convertPropStatusFromPD (pd.Status r))]> (buckets b)
    ∧ (∀ k, counter k b'
            = if decide (k = bucket_of (convertPropStatusFromPD (pd.Status r)))
              then int_add (counter k b) 1 else counter k b)
    ∧ (e = None ↔ is_Some (userPubkeys b !! MDPublicKey (proposalMD ir))).
Proof.
  intros Hfresh.
  set (b1 := store_new_entry r b).
  assert (inventory b1 !! pd.Token r
          = Some (new_entry r (fresh (dom (commentMaps b))))) as H1
    by (unfold b1, store_new_entry; simpl; apply lookup_insert_eq).
  destruct (framed_loadRecordMetadata r b1 (mk_is_Some _ _ H1))
    as ([] & b2 & Hload & Hframe).
  pose proof (frame_inventory_lookup _ _ (pd.Token r) Hframe) as Hlk.
  rewrite H1 in Hlk. destruct (inventory b2 !! pd.Token r) as [ir |] eqn:Hir;
    [| discriminate].
  simpl in Hlk. injection Hlk as Hrec _ _.
  set (b3 := _updateInventoryCountOfPropStatus (pd.Status r) None b2).
  destruct (updateCountOfUserProposals_returns (pd.Token r) b3)
    as (e & b4 & Hu & Hinv4 & Hc4 & He).
  destruct (executeUpdate_rest 1 (convertPropStatusFromPD (pd.Status r)) b2)
    as (Hi3 & Hu3 & _).
  exists b2, ir.
  exists (match e with
          | Some e' => Some (ErrWrapped
               "_newInventoryRecord: _updateCountOfUserProposals" e')
          | None => None end), b4.
  split; [done |]. split; [done |]. split; [done |].
  split.
  { unfold _newInventoryRecord. rewrite Hfresh. fold b1.
    unfold bind, modify. rewrite Hload. fold b3. rewrite Hu.
    by destruct e. }
  split; [by rewrite Hinv4 |].
  split.
  { unfold buckets. rewrite Hinv4. fold (buckets b3).
    transitivity (buckets b1).
    - transitivity (buckets b2); [| by apply buckets_frame].
      unfold buckets, b3, _updateInventoryCountOfPropStatus. by rewrite Hi3.
    - unfold buckets, b1, store_new_entry; simpl. by rewrite fmap_insert. }
  split.
  { intros k. rewrite Hc4. unfold b3, _updateInventoryCountOfPropStatus.
    rewrite executeUpdate_counter, (counter_frame k _ _ Hframe).
    by destruct k. }
  assert (userPubkeys b3 = userPubkeys b) as HU.
  { unfold b3, _updateInventoryCountOfPropStatus. rewrite Hu3.
    unfold frame in Hframe. transitivity (userPubkeys b1); [congruence | done]. }
  assert (inventory b3 !! pd.Token r = Some ir) as Hir3
    by (unfold b3, _updateInventoryCountOfPropStatus; by rewrite Hi3).
  specialize (He ir Hir3). rewrite HU in He. rewrite <- He.
  destruct e; split; congruence.
Qed.

Lemma updateInventoryRecord_present r b ir :
  inventory b !! pd.Token r = Some ir →
  ∃ b', _updateInventoryRecord r b = Returns None b'
    ∧ record <$> inventory b' !! pd.Token r = Some r
    ∧ buckets b'
      = <[pd.Token r := bucket_of (convertPropStatusFromPD (pd.Status r))]>
          (buckets b)
    ∧ (∀ k, counter k b'
            = let c := if decide (k = entry_bucket ir)
                       then int_add (counter k b) (-1) else counter k b in
              if decide (k = bucket_of (convertPropStatusFromPD (pd.Status r)))
              then int_add c 1 else c).
Proof.
  intros Hir.
  set (b1 := _updateInventoryCountOfPropStatus (pd.Status r)
               (Some (pd.Status (record ir))) b).
  set (b2 := set_inventory (<[pd.Token r := set_record r ir]> (inventory b1)) b1).
  assert (inventory b1 = inventory b) as Hi1.
  { unfold b1, _updateInventoryCountOfPropStatus.
    destruct (executeUpdate_rest 1 (convertPropStatusFromPD (pd.Status r))
                (executeUpdate (-1)
                   (convertPropStatusFromPD (pd.Status (record ir))) b))
      as (-> & _).
    by destruct (executeUpdate_rest (-1)
                   (convertPropStatusFromPD (pd.Status (record ir))) b)
      as (-> & _). }
  assert (inventory b2 !! pd.Token r = Some (set_record r ir)) as H2
    by (unfold b2; simpl; apply lookup_insert_eq).
  destruct (framed_loadRecordMetadata r b2 (mk_is_Some _ _ H2))
    as ([] & b3 & Hload & Hframe).
  exists b3. split.
  { unfold _updateInventoryRecord. rewrite Hir. fold b1. fold b2.
    unfold bind, ret. by rewrite Hload. }
  split.
  { pose proof (frame_inventory_lookup _ _ (pd.Token r) Hframe) as Hlk.
    rewrite H2 in Hlk. destruct (inventory b3 !! pd.Token r); [| discriminate].
    simpl in *. injection Hlk as -> _ _. done. }
  split.
  { rewrite (buckets_frame _ _ Hframe). unfold buckets, b2; simpl.
    by rewrite fmap_insert, Hi1. }
  intros k. rewrite (counter_frame k _ _ Hframe).
  change (counter k b2) with (counter k b1).
  unfold b1, _updateInventoryCountOfPropStatus.
  rewrite !executeUpdate_counter. done.
Qed.

Lemma counters_follow_empty users : counters_follow (empty_backend users).
Proof.
  intros k. unfold buckets; simpl. rewrite fmap_empty, count_empty.
  by destruct k.
Qed.

Lemma run_op_total o b :
  ∃ e b', run_op o b = Returns e b'
          ∧ (counters_follow b → counters_follow b').
Proof.
  destruct o as [r | r]; simpl.
  - unfold newInventoryRecord.
    destruct (inventory b !! pd.Token r) as [ir |] eqn:Hir.
    + exists (Some (ErrDuplicateToken (pd.Token r))), b.
      unfold _newInventoryRecord. by rewrite Hir.
    + destruct (newInventoryRecord_fresh r b Hir)
        as (b2 & ir & e & b' & _ & _ & _ & Hnew & _ & Hbk & Hc & _).
      exists e, b'. split; [done |]. intros Hinv k.
      rewrite Hc, Hbk, count_insert_fresh, Hinv
        by (unfold buckets; by rewrite lookup_fmap, Hir).
      repeat case_decide; try congruence.
      * rewrite int_add_wrap. f_equal. lia.
      * f_equal. lia.
  - unfold updateInventoryRecord.
    destruct (inventory b !! pd.Token r) as [ir |] eqn:Hir.
    + destruct (updateInventoryRecord_present r b ir Hir)
        as (b' & Hup & _ & Hbk & Hc).
      exists None, b'. split; [done |]. intros Hinv k.
      rewrite Hc, Hbk. cbv zeta. rewrite !Hinv.
      assert (buckets b !! pd.Token r = Some (entry_bucket ir)) as Hb
        by (unfold buckets; by rewrite lookup_fmap, Hir).
      pose proof (count_insert_present k (buckets b) (pd.Token r) _
                    (bucket_of (convertPropStatusFromPD (pd.Status r))) Hb) as Hcnt.
      repeat case_decide; try congruence; rewrite ?int_add_wrap; f_equal; lia.
    + exists (Some (ErrRecordNotFound (pd.Token r))), b.
      unfold _updateInventoryRecord. by rewrite Hir.
Qed.

Lemma run_ops_total ops b :
  ∃ es b', run_ops ops b = Returns es b'
           ∧ (counters_follow b → counters_follow b').
Proof.
  revert b. induction ops as [| o rest IH]; intros b; simpl.
  - by exists [], b.
  - destruct (run_op_total o b) as (e & b1 & E1 & H1).
    destruct (IH b1) as (es & b2 & E2 & H2).
    exists (e :: es), b2. unfold bind, ret. rewrite E1, E2. auto.
Qed.

Lemma counters_follow_sum b :
  counters_follow b →
  Z.of_nat (size (inventory b)) < 2 ^ 63 →
  counters_sum b = Z.of_nat (size (inventory b)).
Proof.
  intros Hinv Hsize.
  assert (size (inventory b) = size (buckets b)) as Hsz
    by (unfold buckets; by rewrite map_size_fmap).
  assert (∀ k, counter k b = Z.of_nat (count k (buckets b))) as Hc.
  { intros k. rewrite Hinv. apply int_wrap_small.
    pose proof (count_le_size k (buckets b)). lia. }
  unfold counters_sum.
  change (numOfInvalid b) with (counter Invalid b).
  change (numOfCensored b) with (counter Censored b).
  change (numOfUnvetted b) with (counter Unvetted b).
  change (numOfUnvettedChanges b) with (counter UnvettedChanges b).
  change (numOfPublic b) with (counter Public b).
  change (numOfAbandoned b) with (counter Abandoned b).
  rewrite !Hc, Hsz, <- (count_total (buckets b)). lia.
Qed.

(** C1.  From an empty cache, every sequence of inserts and updates
    (whatever each of them returns) runs to its end and leaves the six
    status counters summing to the number of entries of the inventory,
    as long as that number fits a Go [int]; and an update of a token the
    cache holds writes the new record into the entry and, in the same
    call, takes one from the counter of the old status's bucket and adds
    one to the counter of the new status's bucket. *)
Theorem counters_sum_is_inventory_size :
  (∀ users ops,
     ∃ errs b,
       run_ops ops (empty_backend users) = Returns errs b
       ∧ (Z.of_nat (size (inventory b)) < 2 ^ 63 →
          counters_sum b = Z.of_nat (size (inventory b))))
  ∧ (∀ b r ir,
       inventory b !! pd.Token r = Some ir →
       ∃ b', updateInventoryRecord r b = Returns None b'
         ∧ record <$> inventory b' !! pd.Token r = Some r
         ∧ size (inventory b') = size (inventory b)
         ∧ ∀ k, counter k b'
                = let c := if decide (k = entry_bucket ir)
                           then int_add (counter k b) (-1) else counter k b in
                  if decide (k = bucket_of (convertPropStatusFromPD (pd.Status r)))
                  then int_add c 1 else c).
Proof.
  split.
  - intros users ops.
    destruct (run_ops_total ops (empty_backend users)) as (es & b & E & H).
    exists es, b. split; [done |].
    apply counters_follow_sum, H, counters_follow_empty.
  - intros b r ir Hir.
    destruct (updateInventoryRecord_present r b ir Hir)
      as (b' & Hup & Hrec & Hbk & Hc).
    exists b'. repeat split; try done.
    transitivity (size (buckets b')); [unfold buckets; by rewrite map_size_fmap |].
    rewrite Hbk. transitivity (size (buckets b));
      [| unfold buckets; by rewrite map_size_fmap].
    apply map_size_insert_Some.
    unfold buckets. rewrite lookup_fmap, Hir. by eexists.
Qed.

(** C2.  Inserting a record whose token the inventory already holds
    returns the duplicate-token error and leaves the backend (inventory,
    counters, everything else) as it was. *)
Theorem newInventoryRecord_duplicate b r :
  is_Some (inventory b !! pd.Token r) →
  newInventoryRecord r b = Returns (Some (ErrDuplicateToken (pd.Token r))) b.
Proof.
  intros [ir Hir]. unfold newInventoryRecord, _newInventoryRecord.
  by rewrite Hir.
Qed.

(** C10.  Inserting a record with a fresh token always stores the entry
    and loads its metadata; when the public key of the loaded proposal
    metadata has no user id in [userPubkeys], the call returns an error
    although the entry is in the inventory and the counter of the
    record's status bucket has been incremented. *)
Theorem newInventoryRecord_error_after_store b r :
  inventory b !! pd.Token r = None →
  ∃ b2 ir,
    loadRecordMetadata r (store_new_entry r b) = Returns tt b2
    ∧ inventory b2 !! pd.Token r = Some ir
    ∧ (userPubkeys b !! MDPublicKey (proposalMD ir) = None →
       ∃ e b',
         _newInventoryRecord r b = Returns (Some e) b'
         ∧ inventory b' !! pd.Token r = Some ir
         ∧ record ir = r
         ∧ size (inventory b') = S (size (inventory b))
         ∧ counter (bucket_of (convertPropStatusFromPD (pd.Status r))) b'
           = int_add
               (counter (bucket_of (convertPropStatusFromPD (pd.Status r))) b) 1
         ∧ b' ≠ b).
Proof.
  intros Hfresh.
  destruct (newInventoryRecord_fresh r b Hfresh)
    as (b2 & ir & e & b' & Hload & Hir & Hrec & Hnew & Hinv & Hbk & Hc & He).
  exists b2, ir. split; [done |]. split; [done |]. intros Hnone.
  destruct e as [e |].
  2:{ destruct He as [He _]. destruct (He eq_refl) as [? ?]. congruence. }
  exists e, b'. split; [done |]. split; [by rewrite Hinv |]. split; [done |].
  assert (size (inventory b') = S (size (inventory b))) as Hsz.
  { transitivity (size (buckets b')); [unfold buckets; by rewrite map_size_fmap |].
    rewrite Hbk, map_size_insert_None
      by (unfold buckets; by rewrite lookup_fmap, Hfresh).
    unfold buckets. by rewrite map_size_fmap. }
  split; [done |]. split.
  - rewrite Hc. by case_decide.
  - intros ->. lia.
Qed.

(** ** The metadata loader goes through every stream *)



Lemma Decode_error {T} (d : json_stream T) :
  Decode d ≠ DecodeEOF → (∀ v, Decode d ≠ Decoded v) →
  ∃ e, Decode d = DecodeError e.
Proof. destruct (Decode d); intros; [done | eauto | naive_solver]. Qed.



(** ** The page a request gets *)

Section Pages.

Variable pr : proposalsRequest.

Local Abbreviation passes := (λ p : www.ProposalRecord, passesFilters pr p = true).
Local Abbreviation pageSize := (Z.to_nat ProposalListPageSize).

Lemma reverse_take_S {A} (l : list A) i x :
  l !! i = Some x → reverse (take (S i) l) = x :: reverse (take i l).
Proof. intros H. by rewrite (take_S_r _ _ x), reverse_snoc. Qed.

Lemma page_full_or_not (ps : list www.ProposalRecord) p :
  1 ≤ ProposalListPageSize →
  Z.of_nat (length ps) < ProposalListPageSize →
  (Z.of_nat (length (ps ++ [p])) >=? ProposalListPageSize) = true
  ∧ (pageSize - length ps = 1)%nat
  ∨ (Z.of_nat (length (ps ++ [p])) >=? ProposalListPageSize) = false
    ∧ Z.of_nat (length (ps ++ [p])) < ProposalListPageSize
    ∧ (pageSize - length ps = S (pageSize - length (ps ++ [p])))%nat.
Proof.
  intros H1 Hlt. rewrite length_app; simpl. rewrite Z.geb_leb.
  destruct (Z.leb_spec ProposalListPageSize (Z.of_nat (length ps + 1)));
    [left | right]; repeat split; lia.
Qed.

(** The first loop once the page has started: it takes the proposals
    that pass the filters until the page is full. *)
Lemma scanBack_started all n bi ps :
  (n ≤ length all)%nat →
  1 ≤ ProposalListPageSize →
  Z.of_nat (length ps) < ProposalListPageSize →
  proposals (scanBack pr all n
               {| pageStarted := true; beforeIdx := bi; proposals := ps |})
  = ps ++ take (pageSize - length ps) (filter passes (reverse (take n all)))
  ∧ beforeIdx (scanBack pr all n
                 {| pageStarted := true; beforeIdx := bi; proposals := ps |})
    = bi.
Proof.
  intros Hn H1. revert ps. induction n as [| i IH]; intros ps Hlt.
  - simpl. by rewrite ?take_0, ?reverse_nil, ?filter_nil, ?take_nil, ?app_nil_r.
  - destruct (lookup_lt_is_Some_2 all i) as [p Hp]; [lia |].
    simpl scanBack. rewrite Hp, (reverse_take_S _ _ _ Hp).
    destruct (passesFilters pr p) eqn:Hpass; simpl negb; cbv iota.
    + rewrite filter_cons_True by done. simpl pageStarted.
      destruct (page_full_or_not ps p H1 Hlt) as [[-> ->] | (-> & Hlt' & ->)].
      * done.
      * destruct (IH ltac:(lia) (ps ++ [p]) Hlt') as [-> ->].
        split; [| done]. simpl. by rewrite <- app_assoc.
    + rewrite filter_cons_False by (rewrite Hpass; discriminate).
      apply IH; [lia | done].
Qed.

(** The first loop looking for the [after] cursor. *)
Lemma scanBack_after all n bi :
  (n ≤ length all)%nat →
  1 ≤ ProposalListPageSize →
  After pr ≠ "" →
  proposals (scanBack pr all n
               {| pageStarted := false; beforeIdx := bi; proposals := [] |})
  = take pageSize (cursor_tail (After pr) (filter passes (reverse (take n all))))
  ∧ beforeIdx (scanBack pr all n
                 {| pageStarted := false; beforeIdx := bi; proposals := [] |})
    = bi.
Proof.
  intros Hn H1 Hafter. induction n as [| i IH].
  - simpl. by rewrite ?take_0, ?reverse_nil, ?filter_nil, ?take_nil.
  - destruct (lookup_lt_is_Some_2 all i) as [p Hp]; [lia |].
    simpl scanBack. rewrite Hp, (reverse_take_S _ _ _ Hp).
    destruct (passesFilters pr p) eqn:Hpass; simpl negb; cbv iota.
    + rewrite filter_cons_True by done. simpl pageStarted. cbv iota.
      rewrite (bool_decide_eq_true_2 _ Hafter). simpl.
      case_bool_decide as Htok.
      * destruct (scanBack_started all i bi [] ltac:(lia) H1 ltac:(simpl; lia))
          as [-> ->].
        simpl. by rewrite Nat.sub_0_r.
      * apply IH. lia.
    + rewrite filter_cons_False by (rewrite Hpass; discriminate).
      apply IH. lia.
Qed.

(** The first loop looking for the [before] cursor: it stops at the
    newest proposal that passes the filters and carries the token. *)
Lemma scanBack_before all n bi :
  (n ≤ length all)%nat →
  After pr = "" → Before pr ≠ "" →
  let w := scanBack pr all n
             {| pageStarted := false; beforeIdx := bi; proposals := [] |} in
  proposals w = []
  ∧ match cursor_head (Before pr) (filter passes (reverse (take n all))) with
    | None => beforeIdx w = bi
    | Some newer =>
        ∃ i, beforeIdx w = Z.of_nat i ∧ (i < n)%nat
             ∧ newer = filter passes (reverse (drop (S i) (take n all)))
    end.
Proof.
  intros Hn Hafter Hbefore. cbv zeta. induction n as [| i IH].
  - simpl. by rewrite ?take_0, ?reverse_nil, ?filter_nil, ?take_nil.
  - destruct (lookup_lt_is_Some_2 all i) as [p Hp]; [lia |].
    simpl scanBack. rewrite Hp, (reverse_take_S _ _ _ Hp).
    assert (∀ j, (j < i)%nat →
              reverse (drop (S j) (take (S i) all))
              = p :: reverse (drop (S j) (take i all))) as Hdrop.
    { intros j Hj. rewrite (take_S_r _ _ p Hp).
      rewrite drop_app_le by (rewrite length_take; lia).
      by rewrite reverse_snoc. }
    destruct (passesFilters pr p) eqn:Hpass; simpl negb; cbv iota.
    + rewrite filter_cons_True by done. simpl pageStarted. cbv iota.
      assert (bool_decide (After pr ≠ "") = false) as ->
        by (apply bool_decide_eq_false_2; tauto).
      rewrite (bool_decide_eq_true_2 _ Hbefore). simpl cursor_head.
      case_bool_decide as Htok.
      * simpl. split; [done |]. exists i. split; [done |]. split; [lia |].
        rewrite drop_ge by (rewrite length_take; lia). done.
      * destruct (IH ltac:(lia)) as [Hps Hc]. split; [done |].
        destruct (cursor_head _ _) as [newer |]; simpl; [| done].
        destruct Hc as (j & Hj & Hlt & ->). exists j.
        split; [done |]. split; [lia |].
        rewrite (Hdrop j Hlt). by rewrite filter_cons_True.
    + rewrite filter_cons_False by (rewrite Hpass; discriminate).
      destruct (IH ltac:(lia)) as [Hps Hc]. split; [done |].
      destruct (cursor_head _ _) as [newer |]; [| done].
      destruct Hc as (j & Hj & Hlt & ->). exists j.
      split; [done |]. split; [lia |].
      rewrite (Hdrop j Hlt).
      by rewrite filter_cons_False by (rewrite Hpass; discriminate).
Qed.

(** The second loop: the proposals just after the cursor that pass the
    filters, as many as the page takes, newest first. *)
Lemma collectForward_page rest ps :
  1 ≤ ProposalListPageSize →
  Z.of_nat (length ps) < ProposalListPageSize →
  collectForward pr rest ps
  = reverse (take (pageSize - length ps) (filter passes rest)) ++ ps.
Proof.
  intros H1. revert ps. induction rest as [| p rest IH]; intros ps Hlt.
  - simpl. by rewrite ?filter_nil, ?take_nil.
  - simpl collectForward.
    destruct (passesFilters pr p) eqn:Hpass; simpl negb; cbv iota.
    + rewrite filter_cons_True by done.
      pose proof (page_full_or_not ps p H1 Hlt) as Hfull.
      rewrite length_app in Hfull. simpl in Hfull.
      replace (length ps + 1)%nat with (S (length ps)) in Hfull by lia.
      destruct Hfull as [[-> ->] | (-> & Hlt' & ->)].
      * done.
      * rewrite IH by (simpl; lia). simpl.
        by rewrite reverse_cons, <- app_assoc.
    + rewrite filter_cons_False by (rewrite Hpass; discriminate).
      by apply IH.
Qed.

(** [getProposals] filters first: its page is the page of the cursor
    among the proposals that pass the filters. *)
Lemma paginate_page_of_filtered all :
  1 ≤ ProposalListPageSize →
  paginate pr all = page_of_filtered pr all.
Proof.
  intros H1. unfold paginate, page_of_filtered.
  rewrite <- filter_reverse.
  destruct (decide (After pr = "")) as [Ha | Ha].
  - destruct (decide (Before pr = "")) as [Hb | Hb].
    + rewrite !(bool_decide_eq_true_2 _ Ha), !(bool_decide_eq_true_2 _ Hb).
      assert (bool_decide (After pr ≠ "") = false) as ->
        by (apply bool_decide_eq_false_2; tauto).
      assert (bool_decide (Before pr ≠ "") = false) as ->
        by (apply bool_decide_eq_false_2; tauto).
      simpl andb.
      destruct (scanBack_started all (length all) (-1) [] ltac:(lia) H1
                  ltac:(simpl; lia)) as [-> ->].
      simpl. rewrite Nat.sub_0_r. by rewrite (take_ge all) by lia.
    + rewrite (bool_decide_eq_true_2 _ Ha), (bool_decide_eq_false_2 _ Hb).
      assert (bool_decide (After pr ≠ "") = false) as ->
        by (apply bool_decide_eq_false_2; tauto).
      rewrite (bool_decide_eq_true_2 _ Hb). simpl andb.
      destruct (scanBack_before all (length all) (-1) ltac:(lia) Ha Hb)
        as [-> Hc].
      rewrite (take_ge all) in Hc by lia.
      destruct (cursor_head _ _) as [newer |].
      * destruct Hc as (i & -> & Hi & ->).
        assert ((0 <=? Z.of_nat i) = true) as -> by (apply Z.leb_le; lia).
        replace (Z.to_nat (Z.of_nat i + 1)) with (S i) by lia.
        rewrite collectForward_page by (simpl; lia).
        simpl. rewrite Nat.sub_0_r, app_nil_r.
        by rewrite filter_reverse, reverse_involutive.
      * rewrite Hc. done.
  - rewrite (bool_decide_eq_false_2 _ Ha), (bool_decide_eq_true_2 _ Ha).
    simpl andb.
    destruct (scanBack_after all (length all) (-1) ltac:(lia) H1 Ha) as [-> ->].
    simpl. by rewrite (take_ge all) by lia.
Qed.

Lemma cursor_tail_no_match tok (l : list www.ProposalRecord) :
  (∀ p, p ∈ l → www.PropToken p ≠ tok) → cursor_tail tok l = [].
Proof.
  induction l as [| p l IH]; intros H; simpl; [done |].
  rewrite bool_decide_eq_false_2 by (apply H; left).
  apply IH. intros q Hq. apply H. by right.
Qed.

Lemma cursor_head_no_match tok (l : list www.ProposalRecord) :
  (∀ p, p ∈ l → www.PropToken p ≠ tok) → cursor_head tok l = None.
Proof.
  induction l as [| p l IH]; intros H; simpl; [done |].
  rewrite bool_decide_eq_false_2 by (apply H; left).
  rewrite IH; [done |]. intros q Hq. apply H. by right.
Qed.

Lemma page_of_filtered_length all :
  (length (page_of_filtered pr all) ≤ pageSize)%nat.
Proof.
  unfold page_of_filtered.
  destruct (bool_decide (After pr ≠ "")); [rewrite length_take; lia |].
  destruct (bool_decide (Before pr ≠ "")); [| rewrite length_take; lia].
  destruct (cursor_head _ _); simpl; [| lia].
  rewrite length_reverse, length_take. lia.
Qed.

End Pages.

(** ** The snapshot and its order *)

Lemma sort_insert_perm x l : sort_insert x l ≡ₚ x :: l.
Proof.
  induction l as [| y l IH]; simpl; [done |].
  destruct (less x y); [done |]. rewrite IH. apply Permutation_swap.
Qed.

Lemma sortSlice_perm l : sortSlice l ≡ₚ l.
Proof.
  induction l as [| x l IH]; simpl; [done |].
  by rewrite sort_insert_perm, IH.
Qed.

(** ** Listing from the backend *)

Section Listing.

Variable conv : backend → inventoryRecord → www.ProposalRecord.
Variable uname : backend → string → string.

Lemma allProposals_loop_returns order acc b :
  ∃ all b', allProposals_loop conv uname order acc b = Returns all b'.
Proof.
  revert acc b. induction order as [| t rest IH]; intros acc b; simpl.
  - by exists acc, b.
  - destruct (inventory b !! t) as [vv |]; [| apply IH].
    unfold bind, proposalView.
    destruct (userPubkeys b !! _); apply IH.
Qed.

Lemma getProposals_returns order pr b :
  ∃ all b',
    _getAllProposals conv uname order b = Returns all b'
    ∧ getProposals conv uname order pr b
      = Returns (paginate pr (sortSlice all)) b'.
Proof.
  destruct (allProposals_loop_returns order [] b) as (all & b' & E).
  exists all, b'. split; [done |].
  unfold getProposals, bind, ret, _getAllProposals. by rewrite E.
Qed.





Lemma cursor_tail_at tok (l1 l2 : list www.ProposalRecord) c :
  (∀ p, p ∈ l1 → www.PropToken p ≠ tok) → www.PropToken c = tok →
  cursor_tail tok (l1 ++ c :: l2) = l2.
Proof.
  intros Hno Hc. induction l1 as [| p l1 IH]; simpl.
  - by rewrite (bool_decide_eq_true_2 _ Hc).
  - rewrite bool_decide_eq_false_2 by (apply Hno; left).
    apply IH. intros q Hq. apply Hno. by right.
Qed.

Lemma cursor_head_at tok (l1 l2 : list www.ProposalRecord) c :
  (∀ p, p ∈ l1 → www.PropToken p ≠ tok) → www.PropToken c = tok →
  cursor_head tok (l1 ++ c :: l2) = Some l1.
Proof.
  intros Hno Hc. induction l1 as [| p l1 IH]; simpl.
  - by rewrite (bool_decide_eq_true_2 _ Hc).
  - rewrite bool_decide_eq_false_2 by (apply Hno; left).
    rewrite IH; [done |]. intros q Hq. apply Hno. by right.
Qed.

(** C7.  Whatever the request and the inventory, [getProposals] returns,
    and what it returns is no longer than [www.ProposalListPageSize] (a
    page size of at least one). *)
Theorem getProposals_at_most_page_size order pr b :
  1 ≤ ProposalListPageSize →
  ∃ ps b',
    getProposals conv uname order pr b = Returns ps b'
    ∧ Z.of_nat (length ps) ≤ ProposalListPageSize.
Proof.
  intros H1.
  destruct (getProposals_returns order pr b) as (all & b' & _ & E).
  eexists _, b'. split; [exact E |].
  rewrite paginate_page_of_filtered by done.
  pose proof (page_of_filtered_length pr (sortSlice all)). lia.
Qed.


End Listing.

(** ** What the caller of [getInventoryRecord] shares with the cache *)

(** C9, as the code has it.  [getInventoryRecord] on a token the cache
    holds returns a copy of the entry's struct and leaves the backend as
    it is.  Assigning to fields of the returned struct changes nothing of
    the backend.  The maps and the slice of the copy are those of the
    entry: a write into the returned [comments] map, into the returned
    [commentsLikes] map, or to an element of the returned [changes] is a
    write to what the cached entry holds. *)
Theorem getInventoryRecord_copies_the_struct_only b token ir :
  inventory b !! token = Some ir →
  getInventoryRecord token b = Returns (ir, None) b
  ∧ (∀ f, caller_apply (AssignFields f) ir b = Returns (f ir) b)
  ∧ (∀ k v,
       is_Some (comments ir) →
       ∃ b', caller_apply (WriteComment k v) ir b = Returns ir b'
             ∧ ec_comments <$> cached b' token
               = Some (<[k := v]> (comments_of b ir)))
  ∧ (∀ k v,
       is_Some (commentsLikes ir) →
       ∃ b', caller_apply (WriteLikes k v) ir b = Returns ir b'
             ∧ ec_commentsLikes <$> cached b' token
               = Some (<[k := v]> (likes_of b ir)))
  ∧ (∀ i x,
       is_Some (sl_arr (changes ir)) →
       (i < sl_len (changes ir))%nat →
       ∃ b', caller_apply (WriteChange i x) ir b = Returns ir b'
             ∧ ec_changes <$> cached b' token
               = Some (<[i := x]> (slice_elems (changeArrays b) (changes ir)))).
Proof.
  intros Hir. split.
  { unfold getInventoryRecord, _getInventoryRecord. by rewrite Hir. }
  split; [done |].
  split.
  { intros k v [l Hl]. simpl. unfold bind, ret, write_comment. rewrite Hl.
    eexists; split; [reflexivity |].
    unfold cached; simpl. rewrite Hir; simpl. f_equal.
    unfold comments_of; simpl. by rewrite Hl, lookup_insert_eq. }
  split.
  { intros k v [l Hl]. simpl. rewrite Hl.
    eexists; split; [reflexivity |].
    unfold cached; simpl. rewrite Hir; simpl. f_equal.
    unfold likes_of; simpl. by rewrite Hl, lookup_insert_eq. }
  intros i x [a Ha] Hi. simpl. rewrite Ha.
  rewrite decide_True by done.
  eexists; split; [reflexivity |].
  unfold cached; simpl. rewrite Hir; simpl. f_equal.
  unfold slice_elems, backing_array; simpl. rewrite Ha, lookup_insert_eq.
  simpl. by rewrite take_insert_lt.
Qed.

(** ** The comment tally *)



Lemma no_conflicting_ties_perm events events' :
  events ≡ₚ events' → no_conflicting_ties events → no_conflicting_ties events'.
Proof.
  intros Hp H l1 l2 H1 H2. apply H; by rewrite Hp.
Qed.











(** ** Running the tally over a record's like events *)




Section OneRecord.

Variable t : string.
Variable ir : inventoryRecord.
Variable m : gmap string (list www.LikeComment).
Hypothesis m_carries_token :
  ∀ k events l, m !! k = Some events → l ∈ events → www.LikeToken l = t.





End OneRecord.



End Properties.

(** * Statistics *)

Section Statistics.

Context `{Ext : Externals}.

Variable conv : backend → inventoryRecord → www.ProposalRecord.
Variable uname : backend → string → string.

Lemma status_of_inj :
  NoDup (status_of <$> all_buckets) →
  ∀ k1 k2, status_of k1 = status_of k2 → k1 = k2.
Proof.
  intros Hnd k1 k2 E.
  set (idx := λ k, match k with
                   | Invalid => 0 | Censored => 1 | Unvetted => 2
                   | UnvettedChanges => 3 | Public => 4 | Abandoned => 5
                   end%nat).
  assert (∀ k, (status_of <$> all_buckets) !! idx k = Some (status_of k)) as Hl
    by (by intros []).
  assert (idx k1 = idx k2) as Hi.
  { eapply NoDup_lookup; [exact Hnd | apply Hl |]. rewrite E. apply Hl. }
  destruct k1, k2; simpl in Hi; congruence.
Qed.

Ltac for_buckets tac :=
  tac Invalid; tac Censored; tac Unvetted; tac UnvettedChanges; tac Public;
  tac Abandoned.

Lemma stat_incr_stat k k' ps :
  stat k (incr_stat k' ps)
  = if decide (k = k') then int_add (stat k ps) 1 else stat k ps.
Proof. destruct k, k'; reflexivity. Qed.

(** One turn of the loop: the proposal is counted under its status when
    it is the user's, and under that status only. *)
Lemma countProposal_stat userID ps v k :
  NoDup (status_of <$> all_buckets) →
  stat k (countProposal userID ps v)
  = if decide (www.UserId v = userID ∧ www.PropStatus v = status_of k)
    then int_add (stat k ps) 1 else stat k ps.
Proof.
  intros Hnd.
  assert (∀ k1 k2, k1 ≠ k2 → status_of k1 ≠ status_of k2) as Hne
    by (intros k1 k2 Hk E; by apply Hk, status_of_inj).
  for_buckets ltac:(fun k1 => for_buckets ltac:(fun k2 =>
    try (pose proof (Hne k1 k2 ltac:(discriminate))))).
  clear Hne. simpl in *. unfold countProposal.
  case_bool_decide as Hu.
  - rewrite decide_False by tauto. done.
  - repeat match goal with
      | |- context [decide (www.PropStatus v = ?c)] =>
          destruct (decide (www.PropStatus v = c))
      end;
      rewrite ?stat_incr_stat; destruct k; simpl in *;
      repeat match goal with
        | |- context [decide ?P] => destruct (decide P)
        end;
      first [reflexivity | exfalso; destruct_and?; first [tauto | congruence]].
Qed.

Lemma userStats_fold userID all k :
  NoDup (status_of <$> all_buckets) →
  stat k (foldl (countProposal userID) zero_proposalsStats all)
  = int_wrap
      (Z.of_nat
         (length (filter (λ v, www.UserId v = userID
                               ∧ www.PropStatus v = status_of k) all))).
Proof.
  intros Hnd. induction all as [| v all IH] using rev_ind.
  - by destruct k.
  - rewrite foldl_snoc, countProposal_stat, IH by done.
    rewrite filter_app, length_app.
    case_decide as Hv.
    + rewrite filter_cons_True, filter_nil by done. simpl.
      rewrite int_add_wrap. f_equal. lia.
    + rewrite filter_cons_False, filter_nil by done. simpl.
      f_equal. lia.
Qed.

(** X1.  [userProposalStats] returns, under each status, the number of the
    user's proposals of the snapshot with that status, as a Go [int]; a
    proposal whose status is none of the six constants is counted
    nowhere.  The six constants are pairwise different. *)
Theorem userProposalStats_counts order userID b :
  NoDup (status_of <$> all_buckets) →
  ∃ all b',
    _getAllProposals conv uname order b = Returns all b'
    ∧ ∃ ps,
        userProposalStats conv uname order userID b = Returns ps b'
        ∧ (∀ k, stat k ps
                = int_wrap
                    (Z.of_nat
                       (length
                          (filter (λ v, www.UserId v = userID
                                        ∧ www.PropStatus v = status_of k)
                             all))))
        ∧ (∀ v, (∀ k, www.PropStatus v ≠ status_of k) →
             ∀ ps0, countProposal userID ps0 v = ps0).
Proof.
  intros Hnd.
  destruct (allProposals_loop_returns conv uname order [] b) as (all & b' & E).
  exists all, b'. split; [exact E |]. eexists. split.
  { unfold userProposalStats, bind, ret.
    unfold _getAllProposals in *. rewrite E. reflexivity. }
  split; [intros k; by apply userStats_fold |].
  intros v Hv ps0. unfold countProposal.
  pose proof (Hv Invalid). pose proof (Hv Censored). pose proof (Hv Unvetted).
  pose proof (Hv UnvettedChanges). pose proof (Hv Public).
  pose proof (Hv Abandoned). simpl in *.
  case_bool_decide; [done |]. repeat case_decide; done.
Qed.

End Statistics.

(** * Sequences of calls *)

Section Calls.

Context `{Ext : Externals}.

Implicit Types (b : backend) (ir : inventoryRecord) (t token : string).

Lemma comments_fixed (m : gmap string inventoryRecord) :
  comments <$> m = (λ x : pd.Record * option loc * option loc, x.1.2)
                   <$> (fixed_part <$> m).
Proof. by rewrite <- map_fmap_compose. Qed.

Lemma own_comments_same b b' :
  comments <$> inventory b' = comments <$> inventory b →
  dom (commentMaps b') = dom (commentMaps b) →
  own_comments b → own_comments b'.
Proof.
  intros Hc Hd Hown.
  assert (∀ t ir', inventory b' !! t = Some ir' →
            ∃ ir, inventory b !! t = Some ir ∧ comments ir = comments ir')
    as Hback.
  { intros t ir' Hir'. apply (f_equal (λ m, m !! t)) in Hc. cbv beta in Hc.
    rewrite !lookup_fmap, Hir' in Hc.
    destruct (inventory b !! t) as [ir |]; [| discriminate].
    exists ir. split; [done |]. simpl in Hc. congruence. }
  intros t ir' Hir'. destruct (Hback t ir' Hir') as (ir & Hir & Hcm).
  destruct (Hown t ir Hir) as ((l & Hl & Hs) & Hsep). split.
  - exists l. split; [congruence |].
    apply elem_of_dom. rewrite Hd. by apply elem_of_dom.
  - intros t' ir2' Hir2' Heq.
    destruct (Hback t' ir2' Hir2') as (ir2 & Hir2 & Hcm2).
    apply (Hsep t' ir2 Hir2). congruence.
Qed.

Lemma own_comments_empty users : own_comments (empty_backend users).
Proof. intros t ir Hir. simpl in Hir. by rewrite lookup_empty in Hir. Qed.

Lemma own_comments_frame b b' :
  frame b' = frame b → own_comments b → own_comments b'.
Proof.
  intros F. apply own_comments_same.
  - rewrite !comments_fixed. unfold frame in F. congruence.
  - unfold frame in F. congruence.
Qed.

(** What [_updateCountOfUserProposals] can change. *)
Lemma updateCountOfUserProposals_effect t b e b' :
  _updateCountOfUserProposals t b = Returns e b' →
  inventory b' = inventory b ∧ commentMaps b' = commentMaps b
  ∧ likeMaps b' = likeMaps b ∧ changeArrays b' = changeArrays b
  ∧ userPubkeys b' = userPubkeys b ∧ logOutput b' = logOutput b.
Proof.
  unfold _updateCountOfUserProposals.
  destruct (inventory b !! t); [| by intros [= <- <-]].
  destruct (userPubkeys b !! _); by intros [= <- <-].
Qed.

(** An insert under a fresh token gives the record a new, empty comments
    map. *)
Lemma newInventoryRecord_layout r b e b' :
  inventory b !! pd.Token r = None →
  _newInventoryRecord r b = Returns e b' →
  fixed_part <$> inventory b'
  = <[pd.Token r := (r, Some (fresh (dom (commentMaps b))), None)]>
      (fixed_part <$> inventory b)
  ∧ commentMaps b' = <[fresh (dom (commentMaps b)) := ∅]> (commentMaps b)
  ∧ likeMaps b' = likeMaps b ∧ userPubkeys b' = userPubkeys b.
Proof.
  intros Hfresh Hrun. unfold _newInventoryRecord in Hrun.
  rewrite Hfresh in Hrun. unfold bind, modify in Hrun.
  set (b1 := store_new_entry r b) in *.
  assert (is_Some (inventory b1 !! pd.Token r)) as H1
    by (unfold b1, store_new_entry; simpl; rewrite lookup_insert_eq; eauto).
  destruct (framed_loadRecordMetadata r b1 H1) as ([] & b2 & Hload & Hframe).
  rewrite Hload in Hrun.
  set (b3 := _updateInventoryCountOfPropStatus (pd.Status r) None b2) in *.
  destruct (_updateCountOfUserProposals (pd.Token r) b3) as [e4 b4 |] eqn:Hu;
    [| discriminate].
  assert (b' = b4) as -> by (destruct e4; unfold ret in Hrun; congruence).
  destruct (updateCountOfUserProposals_effect _ _ _ _ Hu)
    as (Hi & Hc & Hl & _ & Hp & _).
  destruct (executeUpdate_rest 1 (convertPropStatusFromPD (pd.Status r)) b2)
    as (Hi3 & Hp3 & _ & Hc3 & Hl3 & _).
  unfold frame in Hframe.
  assert (fixed_part <$> inventory b2 = fixed_part <$> inventory b1) as Hf
    by congruence.
  assert (commentMaps b2 = commentMaps b1) as Hcm by congruence.
  assert (likeMaps b2 = likeMaps b1) as Hlm by congruence.
  assert (userPubkeys b2 = userPubkeys b1) as Hup by congruence.
  rewrite Hi, Hc, Hl, Hp. unfold b3, _updateInventoryCountOfPropStatus.
  rewrite Hi3, Hc3, Hl3, Hp3, Hf, Hcm, Hlm, Hup.
  unfold b1, store_new_entry; simpl. by rewrite fmap_insert.
Qed.

Lemma updateInventoryRecord_layout r b ir e b' :
  inventory b !! pd.Token r = Some ir →
  _updateInventoryRecord r b = Returns e b' →
  fixed_part <$> inventory b'
  = <[pd.Token r := (r, comments ir, commentsLikes ir)]>
      (fixed_part <$> inventory b)
  ∧ commentMaps b' = commentMaps b ∧ likeMaps b' = likeMaps b
  ∧ userPubkeys b' = userPubkeys b
  ∧ numOfPropsByUserID b' = numOfPropsByUserID b.
Proof.
  intros Hir Hrun. unfold _updateInventoryRecord in Hrun. rewrite Hir in Hrun.
  set (b1 := _updateInventoryCountOfPropStatus (pd.Status r)
               (Some (pd.Status (record ir))) b) in *.
  set (b2 := set_inventory (<[pd.Token r := set_record r ir]> (inventory b1)) b1)
    in *.
  assert (is_Some (inventory b2 !! pd.Token r)) as H2
    by (unfold b2; simpl; rewrite lookup_insert_eq; eauto).
  destruct (framed_loadRecordMetadata r b2 H2) as ([] & b3 & Hload & Hframe).
  unfold bind, ret in Hrun. rewrite Hload in Hrun. injection Hrun as <- <-.
  unfold frame in Hframe.
  assert (fixed_part <$> inventory b3 = fixed_part <$> inventory b2) as ->
    by congruence.
  assert (commentMaps b3 = commentMaps b2) as -> by congruence.
  assert (likeMaps b3 = likeMaps b2) as -> by congruence.
  assert (userPubkeys b3 = userPubkeys b2) as -> by congruence.
  assert (numOfPropsByUserID b3 = numOfPropsByUserID b2) as -> by congruence.
  unfold b2; simpl. unfold b1, _updateInventoryCountOfPropStatus.
  destruct (executeUpdate_rest 1 (convertPropStatusFromPD (pd.Status r))
              (executeUpdate (-1)
                 (convertPropStatusFromPD (pd.Status (record ir))) b))
    as (-> & -> & -> & -> & -> & _).
  destruct (executeUpdate_rest (-1)
              (convertPropStatusFromPD (pd.Status (record ir))) b)
    as (-> & -> & -> & -> & -> & _).
  by rewrite fmap_insert.
Qed.

(** ** The loaders of a token leave the other records alone *)

Lemma update_entry_others t f b b' :
  update_entry t f b = Returns tt b' →
  (∀ t', t' ≠ t → inventory b' !! t' = inventory b !! t')
  ∧ changeArrays b' = changeArrays b.
Proof.
  unfold update_entry. destruct (inventory b !! t); [| discriminate].
  intros [= <-]. split; [| done]. intros t' Ht. simpl.
  by rewrite lookup_insert_ne.
Qed.

Lemma appendChange_others t md b b' :
  appendChange t md b = Returns tt b' →
  ∀ t', t' ≠ t → inventory b' !! t' = inventory b !! t'.
Proof.
  unfold appendChange. destruct (inventory b !! t) as [p |]; [| discriminate].
  destruct (append _ _ _) as [s h]. intros [= <-] t' Ht. simpl.
  by rewrite lookup_insert_ne.
Qed.

Lemma loadChanges_loop_others t vals fin b e b' :
  loadChanges_loop t vals fin b = Returns e b' →
  ∀ t', t' ≠ t → inventory b' !! t' = inventory b !! t'.
Proof.
  revert b. induction vals as [| md rest IH]; intros b; simpl.
  - destruct fin; by intros [= <- <-].
  - unfold bind. destruct (appendChange t md b) as [[] b1 |] eqn:E;
      [| discriminate].
    intros Hrun t' Ht. rewrite (IH b1 Hrun t' Ht).
    by apply (appendChange_others t md b b1).
Qed.

Lemma single_value_loaders_others t p b e b' :
  loadPropMD t p b = Returns e b' ∨ loadVoteAuthorization t p b = Returns e b'
  ∨ loadVoteBits t p b = Returns e b' ∨ loadVoting t p b = Returns e b' →
  (∀ t', t' ≠ t → inventory b' !! t' = inventory b !! t')
  ∧ changeArrays b' = changeArrays b.
Proof.
  unfold loadPropMD, loadVoteAuthorization, loadVoteBits, loadVoting.
  intros [H | [H | [H | H]]];
    destruct (Decode _); unfold ret, bind, modify in H;
    try (by injection H as <- <-);
    match type of H with
    | context [update_entry ?t ?f ?b0] =>
        destruct (update_entry t f b0) as [[] b1 |] eqn:E; [| discriminate];
        injection H as <- <-;
        destruct (update_entry_others _ _ _ _ E) as [Ho Hc]
    end; split; auto.
Qed.

Lemma stream_loader_others id load msg t p b e b' :
  stream_loader id = Some (load, msg) →
  load t p b = Returns e b' →
  ∀ t', t' ≠ t → inventory b' !! t' = inventory b !! t'.
Proof.
  intros Hl Hrun.
  destruct (stream_loader_cases _ _ _ Hl) as [-> | [-> | [-> | [-> | ->]]]].
  - apply (single_value_loaders_others t p b e b'); auto.
  - by apply (loadChanges_loop_others _ _ _ _ _ _ Hrun).
  - apply (single_value_loaders_others t p b e b'); auto.
  - apply (single_value_loaders_others t p b e b'); auto.
  - apply (single_value_loaders_others t p b e b'); auto.
Qed.

Lemma loadStreams_others t ms b b' :
  loadStreams t ms b = Returns tt b' →
  ∀ t', t' ≠ t → inventory b' !! t' = inventory b !! t'.
Proof.
  revert b. induction ms as [| m rest IH]; intros b; simpl.
  - by intros [= <-].
  - unfold bind. destruct (loadStream t m b) as [[] b1 |] eqn:E;
      [| discriminate].
    intros Hrun t' Ht. rewrite (IH b1 Hrun t' Ht).
    unfold loadStream in E.
    destruct (stream_loader (pd.ID m)) as [[load msg] |] eqn:Hl.
    + unfold bind in E.
      destruct (load t (pd.Payload m) b) as [e b0 |] eqn:El; [| discriminate].
      rewrite <- (stream_loader_others _ _ _ _ _ _ _ _ Hl El t' Ht).
      destruct e; unfold modify, ret in E; by injection E as <-.
    + unfold modify in E. by injection E as <-.
Qed.

Lemma newInventoryRecord_others r b e b' :
  inventory b !! pd.Token r = None →
  _newInventoryRecord r b = Returns e b' →
  (∀ t', t' ≠ pd.Token r → inventory b' !! t' = inventory b !! t')
  ∧ ∃ ir,
      inventory b' !! pd.Token r = Some ir
      ∧ match userPubkeys b !! MDPublicKey (proposalMD ir) with
        | Some uid =>
            e = None
            ∧ numOfPropsByUserID b'
              = <[uid := int_add (default 0 (numOfPropsByUserID b !! uid)) 1]>
                  (numOfPropsByUserID b)
        | None =>
            e = Some (ErrWrapped
                        "_newInventoryRecord: _updateCountOfUserProposals"
                        (ErrUserNotFound ""))
            ∧ numOfPropsByUserID b' = numOfPropsByUserID b
        end.
Proof.
  intros Hfresh Hrun. unfold _newInventoryRecord in Hrun.
  rewrite Hfresh in Hrun. unfold bind, modify in Hrun.
  set (b1 := store_new_entry r b) in *.
  assert (is_Some (inventory b1 !! pd.Token r)) as H1
    by (unfold b1, store_new_entry; simpl; rewrite lookup_insert_eq; eauto).
  destruct (framed_loadRecordMetadata r b1 H1) as ([] & b2 & Hload & Hframe).
  rewrite Hload in Hrun.
  set (b3 := _updateInventoryCountOfPropStatus (pd.Status r) None b2) in *.
  destruct (executeUpdate_rest 1 (convertPropStatusFromPD (pd.Status r)) b2)
    as (Hi3 & Hp3 & Hn3 & _).
  fold (_updateInventoryCountOfPropStatus (pd.Status r) None b2) in Hi3, Hp3, Hn3.
  fold b3 in Hi3, Hp3, Hn3.
  unfold frame in Hframe.
  assert (userPubkeys b3 = userPubkeys b) as Hup
    by (rewrite Hp3; transitivity (userPubkeys b1); [congruence | done]).
  assert (numOfPropsByUserID b3 = numOfPropsByUserID b) as Hnp
    by (rewrite Hn3; transitivity (numOfPropsByUserID b1); [congruence | done]).
  pose proof (frame_is_Some b1 b2 (pd.Token r)) as Hs2.
  destruct Hs2 as [ir Hir]; [unfold frame; congruence | done |].
  assert (inventory b3 !! pd.Token r = Some ir) as Hir3 by (by rewrite Hi3).
  unfold _updateCountOfUserProposals in Hrun. rewrite Hir3, Hup, Hnp in Hrun.
  assert (∀ t', t' ≠ pd.Token r → inventory b3 !! t' = inventory b !! t') as Ho.
  { intros t' Hne. rewrite Hi3.
    rewrite (loadStreams_others _ _ _ _ Hload t' Hne).
    unfold b1, store_new_entry. simpl. by rewrite lookup_insert_ne. }
  destruct (userPubkeys b !! MDPublicKey (proposalMD ir)) as [uid |] eqn:Hu;
    unfold ret in Hrun; injection Hrun as <- <-.
  - split; [done |]. exists ir. rewrite Hu. simpl. done.
  - split; [done |]. exists ir. rewrite Hu. done.
Qed.

(** ** Every call returns and keeps the records apart *)

Lemma run_call_total c b :
  own_comments b →
  ∃ e b', run_call c b = Returns e b'
          ∧ own_comments b'
          ∧ (counters_follow b → counters_follow b').
Proof.
  intros Hown. destruct c as [r | r | c | token sv svr | token avr]; simpl.
  - destruct (run_op_total (OpInsert r) b) as (e & b' & E & Hc).
    exists e, b'. split; [exact E |]. split; [| exact Hc].
    simpl in E. unfold newInventoryRecord in E.
    destruct (inventory b !! pd.Token r) as [ir |] eqn:Hir.
    + unfold _newInventoryRecord in E. rewrite Hir in E.
      by injection E as <- <-.
    + destruct (newInventoryRecord_layout r b e b' Hir E)
        as (Hf & Hcm & _).
      intros t ir' Hir'.
      assert (fixed_part <$> inventory b' !! t = Some (fixed_part ir')) as Hl
        by (by rewrite Hir').
      rewrite <- lookup_fmap, Hf in Hl.
      assert (∀ t0 ir0, inventory b !! t0 = Some ir0 →
                comments ir0 ≠ Some (fresh (dom (commentMaps b)))) as Hold.
      { intros t0 ir0 Hir0 Heq.
        destruct (Hown t0 ir0 Hir0) as ((l & Hl0 & Hs) & _).
        assert (l = fresh (dom (commentMaps b))) as -> by congruence.
        apply elem_of_dom in Hs. by apply is_fresh in Hs. }
      assert (∀ t0 ir0, t0 ≠ pd.Token r → inventory b' !! t0 = Some ir0 →
                ∃ ir1, inventory b !! t0 = Some ir1
                       ∧ comments ir1 = comments ir0) as Hback.
      { intros t0 ir0 Hne Hir0.
        assert (fixed_part <$> inventory b' !! t0 = Some (fixed_part ir0)) as Hl0
          by (by rewrite Hir0).
        rewrite <- lookup_fmap, Hf, lookup_insert_ne, lookup_fmap in Hl0 by done.
        destruct (inventory b !! t0) as [ir1 |]; [| discriminate].
        exists ir1. split; [done |]. simpl in Hl0.
        unfold fixed_part in Hl0. congruence. }
      assert (∀ ir0, inventory b' !! pd.Token r = Some ir0 →
                comments ir0 = Some (fresh (dom (commentMaps b)))) as Hnew.
      { intros ir0 Hir0.
        assert (fixed_part <$> inventory b' !! pd.Token r
                = Some (fixed_part ir0)) as Hl0 by (by rewrite Hir0).
        rewrite <- lookup_fmap, Hf, lookup_insert_eq in Hl0.
        unfold fixed_part in Hl0. congruence. }
      destruct (decide (t = pd.Token r)) as [-> | Hne].
      * split.
        { exists (fresh (dom (commentMaps b))). split; [by apply Hnew |].
          rewrite Hcm, lookup_insert_eq. eauto. }
        intros t' ir2 Hir2 Heq.
        destruct (decide (t' = pd.Token r)) as [| Hne']; [done |].
        destruct (Hback t' ir2 Hne' Hir2) as (ir1 & Hir1 & Hc1).
        exfalso. apply (Hold t' ir1 Hir1).
        rewrite Hc1, Heq. by apply Hnew.
      * destruct (Hback t ir' Hne Hir') as (ir1 & Hir1 & Hc1).
        destruct (Hown t ir1 Hir1) as ((l & Hl1 & Hs) & Hsep). split.
        { exists l. split; [congruence |]. rewrite Hcm.
          rewrite lookup_insert_ne; [done |]. intros <-.
          apply (Hold t ir1 Hir1). done. }
        intros t' ir2 Hir2 Heq.
        destruct (decide (t' = pd.Token r)) as [-> | Hne'].
        { exfalso. apply (Hold t ir1 Hir1).
          rewrite Hc1, <- Heq. by apply Hnew. }
        destruct (Hback t' ir2 Hne' Hir2) as (ir3 & Hir3 & Hc3).
        apply (Hsep t' ir3 Hir3). congruence.
  - destruct (run_op_total (OpUpdate r) b) as (e & b' & E & Hc).
    exists e, b'. split; [exact E |]. split; [| exact Hc].
    simpl in E. unfold updateInventoryRecord in E.
    destruct (inventory b !! pd.Token r) as [ir |] eqn:Hir.
    + destruct (updateInventoryRecord_layout r b ir e b' Hir E)
        as (Hf & Hcm & _).
      apply (own_comments_same b); [| by rewrite Hcm | done].
      rewrite !comments_fixed, Hf, fmap_insert. simpl.
      apply insert_id. by rewrite !lookup_fmap, Hir.
    + unfold _updateInventoryRecord in E. rewrite Hir in E.
      by injection E as <- <-.
  - unfold setRecordComment, _setRecordComment.
    destruct (inventory b !! www.Token c) as [ir |] eqn:Hir.
    + destruct (Hown _ ir Hir) as ((l & Hl & Hs) & _).
      rewrite Hl. unfold bind, ret, write_comment.
      eexists _, _. split; [reflexivity |]. split.
      * apply (own_comments_same b); [done | | done]. simpl.
        apply dom_insert_lookup_L. done.
      * intros Hcf k. apply Hcf.
    + exists (Some (ErrRecordNotFound (www.Token c))), b. auto.
  - unfold _setRecordVoting.
    destruct (inventory b !! token) as [ir |] eqn:Hir.
    + eexists _, _. split; [reflexivity |]. split.
      * apply (own_comments_same b); [| done | done]. simpl.
        rewrite fmap_insert. apply insert_id. by rewrite lookup_fmap, Hir.
      * intros Hcf k.
        replace (buckets (set_inventory
                   (<[token := set_votebits sv (set_voting svr ir)]>
                      (inventory b)) b)) with (buckets b); [apply (Hcf k) |].
        unfold buckets; simpl. rewrite fmap_insert. symmetry.
        apply insert_id. by rewrite lookup_fmap, Hir.
    + exists (Some (ErrRecordNotFound token)), b. auto.
  - unfold setRecordVoteAuthorization, _setRecordVoteAuthorization.
    destruct (inventory b !! token) as [ir |] eqn:Hir.
    + unfold bind, ret, update_entry. rewrite Hir.
      eexists _, _. split; [reflexivity |]. split.
      * apply (own_comments_same b); [| done | done]. simpl.
        rewrite fmap_insert. apply insert_id. by rewrite lookup_fmap, Hir.
      * intros Hcf k.
        replace (buckets (set_inventory
                   (<[token := set_voteAuthorization avr ir]> (inventory b)) b))
          with (buckets b); [apply (Hcf k) |].
        unfold buckets; simpl. rewrite fmap_insert. symmetry.
        apply insert_id. by rewrite lookup_fmap, Hir.
    + exists (Some (ErrRecordNotFound token)), b. auto.
Qed.

Lemma run_calls_total cs b :
  own_comments b →
  ∃ es b', run_calls cs b = Returns es b'
           ∧ own_comments b'
           ∧ (counters_follow b → counters_follow b').
Proof.
  revert b. induction cs as [| c rest IH]; intros b Hown; simpl.
  - by exists [], b.
  - destruct (run_call_total c b Hown) as (e & b1 & E1 & Hown1 & H1).
    destruct (IH b1 Hown1) as (es & b2 & E2 & Hown2 & H2).
    exists (e :: es), b2. unfold bind, ret. rewrite E1, E2. auto.
Qed.

(** X2.  From the empty cache every sequence of calls (inserts, updates,
    comments, vote metadata) returns, and [inventoryProposalStats] then
    returns, under each status, the number of records of that status's
    bucket as a Go [int], and leaves the backend as it is; as long as the
    number of records fits a Go [int] the six numbers sum to it. *)
Theorem inventoryProposalStats_counts users cs :
  ∃ es b ps,
    run_calls cs (empty_backend users) = Returns es b
    ∧ inventoryProposalStats b = Returns ps b
    ∧ (∀ k, stat k ps = int_wrap (Z.of_nat (count k (buckets b))))
    ∧ (Z.of_nat (size (inventory b)) < 2 ^ 63 →
       NumOfInvalid ps + NumOfCensored ps + NumOfUnvetted ps
       + NumOfUnvettedChanges ps + NumOfPublic ps + NumOfAbandoned ps
       = Z.of_nat (size (inventory b))).
Proof.
  destruct (run_calls_total cs (empty_backend users) (own_comments_empty users))
    as (es & b & E & _ & Hc).
  specialize (Hc (counters_follow_empty users)).
  eexists es, b, _. split; [exact E |]. split; [reflexivity |]. split.
  - intros k. rewrite <- (Hc k). by destruct k.
  - intros Hsz. apply (counters_follow_sum b Hc Hsz).
Qed.

(** ** Comments *)

Lemma comments_of_write b ir l k v :
  comments ir = Some l →
  comments_of
    (set_commentMaps
       (<[l := <[k := v]> (default ∅ (commentMaps b !! l))]> (commentMaps b)) b)
    ir
  = <[k := v]> (comments_of b ir).
Proof. intros Hl. unfold comments_of. simpl. by rewrite Hl, lookup_insert_eq. Qed.

Lemma comments_of_write_other b ir l l' k v :
  comments ir = Some l' → l' ≠ l →
  comments_of
    (set_commentMaps
       (<[l := <[k := v]> (default ∅ (commentMaps b !! l))]> (commentMaps b)) b)
    ir
  = comments_of b ir.
Proof.
  intros Hl Hne. unfold comments_of. simpl. by rewrite Hl, lookup_insert_ne.
Qed.

(** X9.  On a record whose comments map is not nil, [setRecordComment]
    returns nil and the comment can be read back under its id; the other
    comments of the record are as before; the inventory map is not
    touched; setting the same comment again changes nothing. *)
Theorem setRecordComment_round_trip b c ir :
  inventory b !! www.Token c = Some ir →
  is_Some (comments ir) →
  ∃ b',
    setRecordComment c b = Returns None b'
    ∧ _getInventoryRecordComment (www.Token c) (www.CommentID c) b'
      = Returns (Some c, None) b'
    ∧ comments_of b' ir = <[www.CommentID c := c]> (comments_of b ir)
    ∧ (∀ cid, cid ≠ www.CommentID c →
         comments_of b' ir !! cid = comments_of b ir !! cid)
    ∧ inventory b' = inventory b
    ∧ setRecordComment c b' = Returns None b'.
Proof.
  intros Hir [l Hl]. unfold setRecordComment, _setRecordComment.
  rewrite Hir. unfold bind, ret, write_comment. rewrite Hl.
  eexists. split; [reflexivity |].
  split.
  { unfold _getInventoryRecordComment. simpl. rewrite Hir.
    by rewrite (comments_of_write b ir l _ _ Hl), lookup_insert_eq. }
  split; [by apply comments_of_write |].
  split.
  { intros cid Hne. rewrite (comments_of_write b ir l _ _ Hl).
    by rewrite lookup_insert_ne. }
  split; [done |].
  simpl. rewrite Hir, Hl. unfold set_commentMaps; simpl.
  rewrite lookup_insert_eq. simpl. by rewrite !insert_insert_eq.
Qed.

(** X10.  After any sequence of calls from the empty cache, [setRecordComment]
    returns (it never writes to a nil map); it returns nil exactly when
    the inventory holds the comment's token; the comment is then among
    those of its record; and no other record sees any change. *)
Theorem setRecordComment_after_calls users cs c :
  ∃ es b e b',
    run_calls cs (empty_backend users) = Returns es b
    ∧ setRecordComment c b = Returns e b'
    ∧ (e = None ↔ is_Some (inventory b !! www.Token c))
    ∧ (e = None →
       (ec_comments <$> cached b' (www.Token c)) ≫= (.!! www.CommentID c)
       = Some c)
    ∧ (∀ t', t' ≠ www.Token c → cached b' t' = cached b t').
Proof.
  destruct (run_calls_total cs (empty_backend users) (own_comments_empty users))
    as (es & b & E & Hown & _).
  exists es, b. unfold setRecordComment, _setRecordComment.
  destruct (inventory b !! www.Token c) as [ir |] eqn:Hir.
  - destruct (Hown _ ir Hir) as ((l & Hl & Hs) & Hsep).
    rewrite Hl. unfold bind, ret, write_comment.
    eexists None, _. split; [exact E |]. split; [reflexivity |].
    split; [split; eauto |]. split.
    + intros _. unfold cached. simpl. rewrite Hir. simpl.
      by rewrite (comments_of_write b ir l _ _ Hl), lookup_insert_eq.
    + intros t' Hne. unfold cached. simpl.
      destruct (inventory b !! t') as [ir' |] eqn:Hir'; [| done]. simpl.
      f_equal. unfold contents. simpl. f_equal.
      destruct (Hown _ ir' Hir') as ((l' & Hl' & _) & _).
      apply (comments_of_write_other b ir' l l' _ _ Hl').
      intros ->. apply Hne. apply (Hsep t' ir' Hir'). congruence.
  - eexists _, b. split; [exact E |]. split; [reflexivity |].
    split; [split; [discriminate | by intros [? ?]] |].
    split; [discriminate | done].
Qed.

(** ** Insert and update, read back *)

(** X3.  An insert under a token the inventory does not hold always stores
    the record.  Read back, the entry carries the record, has an empty
    comments map that is not nil, and a nil map of likes; the entries of
    the other tokens are as they were; the same insert again is refused
    as a duplicate.  This holds whether or not the insert returned an
    error. *)
Theorem newInventoryRecord_then_get b r :
  inventory b !! pd.Token r = None →
  ∃ e b' ir,
    newInventoryRecord r b = Returns e b'
    ∧ getInventoryRecord (pd.Token r) b' = Returns (ir, None) b'
    ∧ record ir = r
    ∧ is_Some (comments ir) ∧ comments_of b' ir = ∅
    ∧ commentsLikes ir = None
    ∧ (∀ t', t' ≠ pd.Token r → inventory b' !! t' = inventory b !! t')
    ∧ newInventoryRecord r b'
      = Returns (Some (ErrDuplicateToken (pd.Token r))) b'.
Proof.
  intros Hfresh.
  destruct (run_op_total (OpInsert r) b) as (e & b' & E & _). simpl in E.
  destruct (newInventoryRecord_layout r b e b' Hfresh E) as (Hf & Hcm & _).
  destruct (newInventoryRecord_others r b e b' Hfresh E)
    as (Ho & ir & Hir & _).
  exists e, b', ir. split; [exact E |].
  assert (fixed_part ir = (r, Some (fresh (dom (commentMaps b))), None)) as Hfix.
  { assert (fixed_part <$> inventory b' !! pd.Token r = Some (fixed_part ir))
      as Hl by (by rewrite Hir).
    rewrite <- lookup_fmap, Hf, lookup_insert_eq in Hl. congruence. }
  unfold fixed_part in Hfix. injection Hfix as Hrec Hc Hl.
  split; [unfold getInventoryRecord, _getInventoryRecord; by rewrite Hir |].
  split; [done |]. split; [rewrite Hc; eauto |].
  split; [unfold comments_of; by rewrite Hc, Hcm, lookup_insert_eq |].
  split; [done |]. split; [done |].
  unfold newInventoryRecord, _newInventoryRecord. by rewrite Hir.
Qed.

(** X4.  After an insert under a fresh token, the number of proposals of the
    author (the user the public key of the loaded metadata belongs to) is
    one more and no other user's number changes; when the public key
    belongs to no user the insert returns the user-not-found error and no
    number changes. *)
Theorem newInventoryRecord_counts_for_author b r :
  inventory b !! pd.Token r = None →
  ∃ e b' ir,
    newInventoryRecord r b = Returns e b'
    ∧ inventory b' !! pd.Token r = Some ir
    ∧ match userPubkeys b !! MDPublicKey (proposalMD ir) with
      | Some uid =>
          e = None
          ∧ numOfPropsByUserID b' !! uid
            = Some (int_add (default 0 (numOfPropsByUserID b !! uid)) 1)
          ∧ ∀ uid', uid' ≠ uid →
              numOfPropsByUserID b' !! uid' = numOfPropsByUserID b !! uid'
      | None =>
          e = Some (ErrWrapped
                      "_newInventoryRecord: _updateCountOfUserProposals"
                      (ErrUserNotFound ""))
          ∧ numOfPropsByUserID b' = numOfPropsByUserID b
      end.
Proof.
  intros Hfresh.
  destruct (run_op_total (OpInsert r) b) as (e & b' & E & _). simpl in E.
  destruct (newInventoryRecord_others r b e b' Hfresh E)
    as (_ & ir & Hir & Hu).
  exists e, b', ir. split; [exact E |]. split; [exact Hir |].
  destruct (userPubkeys b !! MDPublicKey (proposalMD ir)) as [uid |];
    [| exact Hu].
  destruct Hu as (-> & ->). split; [done |].
  split; [by rewrite lookup_insert_eq |].
  intros uid' Hne. by rewrite lookup_insert_ne.
Qed.

(** X5.  An update of a token the inventory holds returns nil.  Read back,
    the entry carries the new record and the comments and likes maps it
    had, with their contents; the entries of the other tokens are as
    they were; and the numbers of proposals per user are not touched,
    whoever the author in the new metadata is. *)
Theorem updateInventoryRecord_then_get b r ir :
  inventory b !! pd.Token r = Some ir →
  ∃ b' ir',
    updateInventoryRecord r b = Returns None b'
    ∧ getInventoryRecord (pd.Token r) b' = Returns (ir', None) b'
    ∧ record ir' = r
    ∧ comments ir' = comments ir ∧ commentsLikes ir' = commentsLikes ir
    ∧ comments_of b' ir' = comments_of b ir
    ∧ likes_of b' ir' = likes_of b ir
    ∧ numOfPropsByUserID b' = numOfPropsByUserID b
    ∧ (∀ t', t' ≠ pd.Token r → inventory b' !! t' = inventory b !! t').
Proof.
  intros Hir.
  destruct (updateInventoryRecord_present r b ir Hir) as (b' & E & _).
  destruct (updateInventoryRecord_layout r b ir None b' Hir E)
    as (Hf & Hcm & Hlm & _ & Hn).
  assert (∃ ir', inventory b' !! pd.Token r = Some ir'
                 ∧ fixed_part ir' = (r, comments ir, commentsLikes ir))
    as (ir' & Hir' & Hfix).
  { assert (fixed_part <$> inventory b' !! pd.Token r
            = Some (r, comments ir, commentsLikes ir)) as Hl
      by (by rewrite <- lookup_fmap, Hf, lookup_insert_eq).
    destruct (inventory b' !! pd.Token r) as [ir' |]; [| discriminate].
    exists ir'. split; [done |]. simpl in Hl. congruence. }
  unfold fixed_part in Hfix. injection Hfix as Hrec Hc Hl.
  exists b', ir'. split; [exact E |].
  split; [unfold getInventoryRecord, _getInventoryRecord; by rewrite Hir' |].
  split; [done |]. split; [done |]. split; [done |].
  split; [unfold comments_of; by rewrite Hc, Hcm |].
  split; [unfold likes_of; by rewrite Hl, Hlm |].
  split; [done |].
  intros t' Hne. unfold updateInventoryRecord, _updateInventoryRecord in E.
  rewrite Hir in E. unfold bind, ret in E.
  match type of E with
  | context [loadRecordMetadata r ?b0] =>
      destruct (loadRecordMetadata r b0) as [[] b3 |] eqn:Hload;
        [| discriminate]
  end.
  injection E as <-.
  rewrite (loadStreams_others _ _ _ _ Hload t' Hne). simpl.
  rewrite lookup_insert_ne by done.
  unfold _updateInventoryCountOfPropStatus.
  destruct (executeUpdate_rest 1 (convertPropStatusFromPD (pd.Status r))
              (executeUpdate (-1)
                 (convertPropStatusFromPD (pd.Status (record ir))) b))
    as (-> & _).
  by destruct (executeUpdate_rest (-1)
                 (convertPropStatusFromPD (pd.Status (record ir))) b)
    as (-> & _).
Qed.

(** ** The changes of a record accumulate *)

Lemma append_elems h s x s' h' :
  sl_wf h s → append s x h = (s', h') →
  slice_elems h' s' = slice_elems h s ++ [x] ∧ sl_wf h' s'.
Proof.
  unfold sl_wf, append, grow_append, slice_elems, backing_array.
  destruct (sl_arr s) as [a |] eqn:Ha.
  - intros (arr & Harr & Hlen). rewrite Harr. simpl.
    case_decide as Hlt; intros [= <- <-]; simpl.
    + rewrite !lookup_insert_eq. simpl. split.
      * rewrite (take_S_r _ _ x) by (by apply list_lookup_insert_eq).
        by rewrite take_insert_ge.
      * eexists. split; [reflexivity |]. rewrite length_insert. lia.
    + rewrite !lookup_insert_eq. simpl. unfold grown_array. split.
      * rewrite take_app, length_take, take_take.
        replace (S (sl_len s) `min` sl_len s)%nat with (sl_len s) by lia.
        replace (S (sl_len s) - sl_len s `min` length arr)%nat with 1%nat
          by lia.
        done.
      * eexists. split; [reflexivity |].
        rewrite length_app, length_take. simpl. lia.
  - intros Hlen [= <- <-]. simpl. rewrite !lookup_insert_eq. simpl.
    unfold grown_array. rewrite Hlen. simpl. split; [done |].
    eexists. split; [reflexivity |]. simpl. lia.
Qed.

Lemma appendChange_elems t md b ir :
  inventory b !! t = Some ir → sl_wf (changeArrays b) (changes ir) →
  ∃ b' ir',
    appendChange t md b = Returns tt b'
    ∧ inventory b' !! t = Some ir'
    ∧ slice_elems (changeArrays b') (changes ir')
      = slice_elems (changeArrays b) (changes ir) ++ [md]
    ∧ sl_wf (changeArrays b') (changes ir').
Proof.
  intros Hir Hwf. unfold appendChange. rewrite Hir.
  destruct (append (changes ir) md (changeArrays b)) as [s h] eqn:E.
  destruct (append_elems _ _ _ _ _ Hwf E) as [He Hw].
  eexists _, (set_changes s ir). split; [reflexivity |]. simpl.
  by rewrite lookup_insert_eq.
Qed.

Lemma loadChanges_loop_elems t vals fin b ir :
  inventory b !! t = Some ir → sl_wf (changeArrays b) (changes ir) →
  ∃ b' ir',
    loadChanges_loop t vals fin b = Returns (ErrDecode <$> fin) b'
    ∧ inventory b' !! t = Some ir'
    ∧ slice_elems (changeArrays b') (changes ir')
      = slice_elems (changeArrays b) (changes ir) ++ vals
    ∧ sl_wf (changeArrays b') (changes ir').
Proof.
  revert b ir. induction vals as [| md rest IH]; intros b ir Hir Hwf; simpl.
  - exists b, ir. rewrite app_nil_r. by destruct fin.
  - destruct (appendChange_elems t md b ir Hir Hwf)
      as (b1 & ir1 & E1 & Hir1 & He1 & Hw1).
    destruct (IH b1 ir1 Hir1 Hw1) as (b' & ir' & E & Hir' & He & Hw).
    exists b', ir'. unfold bind. rewrite E1. split; [done |].
    split; [done |]. split; [| done].
    by rewrite He, He1, <- app_assoc.
Qed.

(** X6.  [loadChanges] appends the values it decodes, in order, to the
    changes of the record; when the decoder ends in an error the call
    returns that error and the values decoded before it stay
    appended. *)
Theorem loadChanges_appends t p b ir :
  inventory b !! t = Some ir →
  sl_wf (changeArrays b) (changes ir) →
  ∃ b' ir',
    loadChanges t p b = Returns (ErrDecode <$> js_end (decodeChanges p)) b'
    ∧ inventory b' !! t = Some ir'
    ∧ slice_elems (changeArrays b') (changes ir')
      = slice_elems (changeArrays b) (changes ir)
        ++ js_values (decodeChanges p)
    ∧ sl_wf (changeArrays b') (changes ir').
Proof. apply loadChanges_loop_elems. Qed.

Lemma single_value_loaders_changes t p b e b' ir :
  inventory b !! t = Some ir →
  loadPropMD t p b = Returns e b' ∨ loadVoteAuthorization t p b = Returns e b'
  ∨ loadVoteBits t p b = Returns e b' ∨ loadVoting t p b = Returns e b' →
  ∃ ir', inventory b' !! t = Some ir' ∧ changes ir' = changes ir
         ∧ changeArrays b' = changeArrays b.
Proof.
  intros Hir.
  unfold loadPropMD, loadVoteAuthorization, loadVoteBits, loadVoting.
  intros [H | [H | [H | H]]];
    destruct (Decode _); unfold ret, bind, modify, update_entry in H;
    simpl in H; rewrite ?Hir in H; injection H as <- <-;
    try (by exists ir);
    (eexists; split; [simpl; apply lookup_insert_eq | done]).
Qed.

Lemma stream_loader_spec id :
  (id = mdStreamGeneral ∧ ∃ msg, stream_loader id = Some (loadPropMD, msg))
  ∨ (id ≠ mdStreamGeneral ∧ id = mdStreamChanges
     ∧ ∃ msg, stream_loader id = Some (loadChanges, msg))
  ∨ (id ≠ mdStreamGeneral ∧ id ≠ mdStreamChanges
     ∧ ((∃ msg, stream_loader id = Some (loadVoteAuthorization, msg))
        ∨ (∃ msg, stream_loader id = Some (loadVoteBits, msg))
        ∨ (∃ msg, stream_loader id = Some (loadVoting, msg))
        ∨ stream_loader id = None)).
Proof.
  unfold stream_loader. repeat case_decide; eauto 10.
Qed.

Lemma loadStream_elems t m b ir :
  inventory b !! t = Some ir → sl_wf (changeArrays b) (changes ir) →
  ∃ b' ir',
    loadStream t m b = Returns tt b'
    ∧ inventory b' !! t = Some ir'
    ∧ slice_elems (changeArrays b') (changes ir')
      = slice_elems (changeArrays b) (changes ir) ++ decodedChanges [m]
    ∧ sl_wf (changeArrays b') (changes ir').
Proof.
  intros Hir Hwf. unfold decodedChanges. simpl. rewrite app_nil_r.
  unfold loadStream, is_changes_stream.
  assert (∀ load msg,
            stream_loader (pd.ID m) = Some (load, msg) →
            (load = loadPropMD ∨ load = loadVoteAuthorization
             ∨ load = loadVoteBits ∨ load = loadVoting) →
            ∃ b' ir',
              (let* err := load t (pd.Payload m) in
               match err with
               | Some _ => modify (log_write (LogError msg))
               | None => ret tt
               end) b = Returns tt b'
              ∧ inventory b' !! t = Some ir'
              ∧ slice_elems (changeArrays b') (changes ir')
                = slice_elems (changeArrays b) (changes ir)
              ∧ sl_wf (changeArrays b') (changes ir')) as Hsingle.
  { intros load msg Hl Hcase.
    destruct (framed_stream_loader _ _ _ t (pd.Payload m) Hl b
                (mk_is_Some _ _ Hir)) as (e & b1 & E & _).
    assert (∃ ir', inventory b1 !! t = Some ir' ∧ changes ir' = changes ir
                   ∧ changeArrays b1 = changeArrays b) as (ir' & Hir' & Hc & Ha).
    { apply (single_value_loaders_changes t (pd.Payload m) b e b1 ir Hir).
      destruct Hcase as [-> | [-> | [-> | ->]]]; auto. }
    unfold bind. rewrite E.
    destruct e; unfold modify, ret; eexists _, ir';
      (split; [reflexivity |]); simpl; rewrite ?Hc, ?Ha; auto. }
  destruct (stream_loader_spec (pd.ID m))
    as [(Hg & msg & Hl) | [(Hg & Hc & msg & Hl)
        | (Hg & Hc & [(msg & Hl) | [(msg & Hl) | [(msg & Hl) | Hl]]])]];
    rewrite Hl.
  - rewrite bool_decide_eq_false_2 by tauto. rewrite app_nil_r.
    apply Hsingle; auto.
  - rewrite bool_decide_eq_true_2 by done.
    destruct (loadChanges_loop_elems t
                (js_values (decodeChanges (pd.Payload m)))
                (js_end (decodeChanges (pd.Payload m))) b ir Hir Hwf)
      as (b1 & ir1 & E & Hir1 & He & Hw).
    fold (loadChanges t (pd.Payload m)) in E.
    unfold bind. rewrite E.
    destruct (js_end (decodeChanges (pd.Payload m))); simpl;
      unfold modify, ret; eexists _, ir1; (split; [reflexivity |]); auto.
  - rewrite bool_decide_eq_false_2 by tauto. rewrite app_nil_r.
    apply Hsingle; auto.
  - rewrite bool_decide_eq_false_2 by tauto. rewrite app_nil_r.
    apply Hsingle; auto.
  - rewrite bool_decide_eq_false_2 by tauto. rewrite app_nil_r.
    apply Hsingle; auto.
  - rewrite bool_decide_eq_false_2 by tauto. rewrite app_nil_r.
    unfold modify. eexists _, ir. split; [reflexivity |]. auto.
Qed.

Lemma loadStreams_elems t ms b ir :
  inventory b !! t = Some ir → sl_wf (changeArrays b) (changes ir) →
  ∃ b' ir',
    loadStreams t ms b = Returns tt b'
    ∧ inventory b' !! t = Some ir'
    ∧ slice_elems (changeArrays b') (changes ir')
      = slice_elems (changeArrays b) (changes ir) ++ decodedChanges ms
    ∧ sl_wf (changeArrays b') (changes ir').
Proof.
  revert b ir. induction ms as [| m rest IH]; intros b ir Hir Hwf; simpl.
  - exists b, ir. unfold decodedChanges. simpl. by rewrite app_nil_r.
  - destruct (loadStream_elems t m b ir Hir Hwf)
      as (b1 & ir1 & E1 & Hir1 & He1 & Hw1).
    destruct (IH b1 ir1 Hir1 Hw1) as (b' & ir' & E & Hir' & He & Hw).
    exists b', ir'. unfold bind. rewrite E1. split; [done |].
    split; [done |]. split; [| done].
    rewrite He, He1, <- app_assoc. f_equal.
    unfold decodedChanges. simpl. by rewrite app_nil_r.
Qed.

(** X7.  An update loads the metadata of the new record on top of what the
    entry holds: the values decoded from the record's changes streams
    are appended to the changes the entry already has, so that updating
    with the same record again appends them once more. *)
Theorem updateInventoryRecord_appends_changes b r ir :
  inventory b !! pd.Token r = Some ir →
  sl_wf (changeArrays b) (changes ir) →
  ∃ b' ir',
    updateInventoryRecord r b = Returns None b'
    ∧ inventory b' !! pd.Token r = Some ir'
    ∧ slice_elems (changeArrays b') (changes ir')
      = slice_elems (changeArrays b) (changes ir)
        ++ decodedChanges (pd.Metadata r)
    ∧ sl_wf (changeArrays b') (changes ir')
    ∧ ∃ b'' ir'',
        updateInventoryRecord r b' = Returns None b''
        ∧ inventory b'' !! pd.Token r = Some ir''
        ∧ slice_elems (changeArrays b'') (changes ir'')
          = slice_elems (changeArrays b) (changes ir)
            ++ decodedChanges (pd.Metadata r)
            ++ decodedChanges (pd.Metadata r).
Proof.
  assert (∀ b ir,
            inventory b !! pd.Token r = Some ir →
            sl_wf (changeArrays b) (changes ir) →
            ∃ b' ir',
              updateInventoryRecord r b = Returns None b'
              ∧ inventory b' !! pd.Token r = Some ir'
              ∧ slice_elems (changeArrays b') (changes ir')
                = slice_elems (changeArrays b) (changes ir)
                  ++ decodedChanges (pd.Metadata r)
              ∧ sl_wf (changeArrays b') (changes ir')) as Hone.
  { clear b ir. intros b ir Hir Hwf.
    unfold updateInventoryRecord, _updateInventoryRecord. rewrite Hir.
    set (b1 := _updateInventoryCountOfPropStatus (pd.Status r)
                 (Some (pd.Status (record ir))) b).
    set (b2 := set_inventory
                 (<[pd.Token r := set_record r ir]> (inventory b1)) b1).
    assert (changeArrays b2 = changeArrays b) as Hca.
    { unfold b2, b1, _updateInventoryCountOfPropStatus. simpl.
      destruct (executeUpdate_rest 1 (convertPropStatusFromPD (pd.Status r))
                  (executeUpdate (-1)
                     (convertPropStatusFromPD (pd.Status (record ir))) b))
        as (_ & _ & _ & _ & _ & -> & _).
      by destruct (executeUpdate_rest (-1)
                     (convertPropStatusFromPD (pd.Status (record ir))) b)
        as (_ & _ & _ & _ & _ & -> & _). }
    assert (inventory b2 !! pd.Token r = Some (set_record r ir)) as H2
      by (unfold b2; simpl; apply lookup_insert_eq).
    destruct (loadStreams_elems (pd.Token r) (pd.Metadata r) b2
                (set_record r ir) H2) as (b' & ir' & E & Hir' & He & Hw).
    { rewrite Hca. done. }
    exists b', ir'. unfold bind, ret, loadRecordMetadata. rewrite E.
    split; [done |]. split; [done |]. split; [| done].
    rewrite He, Hca. done. }
  intros Hir Hwf.
  destruct (Hone b ir Hir Hwf) as (b' & ir' & E & Hir' & He & Hw).
  exists b', ir'. split; [done |]. split; [done |]. split; [done |].
  split; [done |].
  destruct (Hone b' ir' Hir' Hw) as (b'' & ir'' & E' & Hir'' & He' & _).
  exists b'', ir''. split; [done |]. split; [done |].
  by rewrite He', He, <- app_assoc.
Qed.

(** ** Which proposal metadata a record ends up with *)

Lemma loadChanges_loop_keeps_md t vals fin b ir e b' :
  inventory b !! t = Some ir →
  loadChanges_loop t vals fin b = Returns e b' →
  ∃ ir', inventory b' !! t = Some ir' ∧ proposalMD ir' = proposalMD ir.
Proof.
  revert b ir. induction vals as [| md rest IH]; intros b ir Hir; simpl.
  - destruct fin; intros [= <- <-]; eauto.
  - unfold bind, appendChange. rewrite Hir.
    destruct (append _ _ _) as [sl h]. intros Hrun.
    destruct (IH (set_inventory (<[t := set_changes sl ir]> (inventory b))
                    (set_changeArrays h b)) (set_changes sl ir))
      as (ir' & Hir' & Hmd); [simpl; apply lookup_insert_eq | exact Hrun |].
    eauto.
Qed.

Lemma vote_loaders_keep_md t p b e b' ir :
  inventory b !! t = Some ir →
  loadVoteAuthorization t p b = Returns e b'
  ∨ loadVoteBits t p b = Returns e b' ∨ loadVoting t p b = Returns e b' →
  ∃ ir', inventory b' !! t = Some ir' ∧ proposalMD ir' = proposalMD ir.
Proof.
  intros Hir. unfold loadVoteAuthorization, loadVoteBits, loadVoting.
  intros [H | [H | H]];
    destruct (Decode _); unfold ret, bind, modify, update_entry in H;
    simpl in H; rewrite ?Hir in H; injection H as <- <-;
    try (by exists ir);
    (eexists; split; [simpl; apply lookup_insert_eq | done]).
Qed.

Lemma loadStream_proposalMD t m b ir :
  inventory b !! t = Some ir →
  ∃ b' ir',
    loadStream t m b = Returns tt b'
    ∧ inventory b' !! t = Some ir'
    ∧ proposalMD ir' = default (proposalMD ir) (generalMD m).
Proof.
  intros Hir.
  destruct (framed_loadStream t m b (mk_is_Some _ _ Hir)) as ([] & b' & E & _).
  exists b'.
  assert (∃ ir', inventory b' !! t = Some ir'
                 ∧ proposalMD ir' = default (proposalMD ir) (generalMD m))
    as (ir' & H1 & H2); [| by exists ir'].
  unfold loadStream, generalMD in *.
  assert (∀ msg (e : error) b1,
            (∃ ir', inventory b1 !! t = Some ir'
                    ∧ proposalMD ir' = proposalMD ir) →
            match e with
            | Some _ => modify (log_write (LogError msg))
            | None => ret tt
            end b1 = Returns tt b' →
            ∃ ir', inventory b' !! t = Some ir'
                   ∧ proposalMD ir' = proposalMD ir) as Hkeep.
  { intros msg e b1 Hk Hlog.
    destruct e; unfold modify, ret in Hlog; injection Hlog as <-; exact Hk. }
  destruct (stream_loader_spec (pd.ID m))
    as [(Hg & msg & Hl) | [(Hg & Hc & msg & Hl)
        | (Hg & Hc & [(msg & Hl) | [(msg & Hl) | [(msg & Hl) | Hl]]])]];
    rewrite Hl in E; unfold bind in E.
  - rewrite decide_True by done.
    unfold loadPropMD, Decode in E.
    destruct (js_values (decodeProposalMD (pd.Payload m))) as [| md rest];
      simpl.
    + destruct (js_end (decodeProposalMD (pd.Payload m)));
        unfold ret, modify in E; injection E as <-; by exists ir.
    + unfold bind, update_entry, ret in E. rewrite Hir in E.
      injection E as <-. eexists.
      split; [simpl; apply lookup_insert_eq | done].
  - rewrite decide_False by done.
    destruct (loadChanges t (pd.Payload m) b) as [e b1 |] eqn:El;
      [| discriminate].
    apply (Hkeep msg e b1); [| exact E].
    by apply (loadChanges_loop_keeps_md _ _ _ _ _ _ _ Hir El).
  - rewrite decide_False by done.
    destruct (loadVoteAuthorization t (pd.Payload m) b) as [e b1 |] eqn:El;
      [| discriminate].
    apply (Hkeep msg e b1); [| exact E].
    apply (vote_loaders_keep_md t (pd.Payload m) b e b1 ir Hir); auto.
  - rewrite decide_False by done.
    destruct (loadVoteBits t (pd.Payload m) b) as [e b1 |] eqn:El;
      [| discriminate].
    apply (Hkeep msg e b1); [| exact E].
    apply (vote_loaders_keep_md t (pd.Payload m) b e b1 ir Hir); auto.
  - rewrite decide_False by done.
    destruct (loadVoting t (pd.Payload m) b) as [e b1 |] eqn:El;
      [| discriminate].
    apply (Hkeep msg e b1); [| exact E].
    apply (vote_loaders_keep_md t (pd.Payload m) b e b1 ir Hir); auto.
  - rewrite decide_False by done.
    unfold modify in E. injection E as <-. by exists ir.
Qed.

(** X8.  After [loadRecordMetadata] the proposal metadata of the record is
    the value of the last general stream that decodes to one; a general
    stream that is empty or does not decode, and every stream of another
    id, leaves the metadata as it is, so that without a general stream
    that decodes the record keeps the metadata it had. *)
Theorem loadRecordMetadata_last_general_stream v b ir :
  inventory b !! pd.Token v = Some ir →
  ∃ b' ir',
    loadRecordMetadata v b = Returns tt b'
    ∧ inventory b' !! pd.Token v = Some ir'
    ∧ proposalMD ir'
      = default (proposalMD ir) (last (omap generalMD (pd.Metadata v))).
Proof.
  unfold loadRecordMetadata. generalize (pd.Token v) as t.
  generalize (pd.Metadata v) as ms. clear v.
  intros ms t. revert b ir.
  induction ms as [| m rest IH]; intros b ir Hir.
  - by exists b, ir.
  - destruct (loadStream_proposalMD t m b ir Hir) as (b1 & ir1 & E1 & Hir1 & H1).
    destruct (IH b1 ir1 Hir1) as (b' & ir' & E & Hir' & H').
    exists b', ir'. cbn [loadStreams]. unfold bind. rewrite E1.
    split; [done |]. split; [done |]. rewrite H', H1.
    change (omap generalMD (m :: rest))
      with (match generalMD m with
            | Some y => y :: omap generalMD rest
            | None => omap generalMD rest
            end).
    destruct (generalMD m) as [md |]; simpl; [| done].
    rewrite last_cons. by destruct (last (omap generalMD rest)).
Qed.

(** ** Vote metadata *)

(** X11.  On a token the inventory holds, [_setRecordVoting] returns nil; the
    record read back carries the new vote bits and voting metadata and
    is otherwise the record that was there; no other record, no counter
    and no map changes. *)
Theorem setRecordVoting_round_trip b token ir sv svr :
  inventory b !! token = Some ir →
  ∃ b' ir',
    _setRecordVoting token sv svr b = Returns None b'
    ∧ getInventoryRecord token b' = Returns (ir', None) b'
    ∧ votebits ir' = sv ∧ voting ir' = svr
    ∧ set_votebits (votebits ir) (set_voting (voting ir) ir') = ir
    ∧ (∀ t', t' ≠ token → inventory b' !! t' = inventory b !! t')
    ∧ frame b' = frame b
    ∧ changeArrays b' = changeArrays b
    ∧ _setRecordVoting token sv svr b' = Returns None b'.
Proof.
  intros Hir. unfold _setRecordVoting. rewrite Hir.
  eexists _, _. split; [reflexivity |].
  split.
  { unfold getInventoryRecord, _getInventoryRecord. simpl.
    by rewrite lookup_insert_eq. }
  split; [done |]. split; [done |].
  split; [by destruct ir |].
  split; [intros t' Hne; simpl; by rewrite lookup_insert_ne |].
  split.
  { unfold frame. simpl. by rewrite (fmap_insert_fixed _ _ ir). }
  split; [done |].
  simpl. rewrite lookup_insert_eq. unfold set_inventory. simpl.
  by rewrite insert_insert_eq.
Qed.

(** X12.  Likewise for [setRecordVoteAuthorization] and the vote
    authorization of the record. *)
Theorem setRecordVoteAuthorization_round_trip b token ir avr :
  inventory b !! token = Some ir →
  ∃ b' ir',
    setRecordVoteAuthorization token avr b = Returns None b'
    ∧ getInventoryRecord token b' = Returns (ir', None) b'
    ∧ voteAuthorization ir' = avr
    ∧ set_voteAuthorization (voteAuthorization ir) ir' = ir
    ∧ (∀ t', t' ≠ token → inventory b' !! t' = inventory b !! t')
    ∧ frame b' = frame b
    ∧ changeArrays b' = changeArrays b
    ∧ setRecordVoteAuthorization token avr b' = Returns None b'.
Proof.
  intros Hir. unfold setRecordVoteAuthorization, _setRecordVoteAuthorization.
  rewrite Hir. unfold bind, ret, update_entry. rewrite Hir.
  eexists _, _. split; [reflexivity |].
  split.
  { unfold getInventoryRecord, _getInventoryRecord. simpl.
    by rewrite lookup_insert_eq. }
  split; [done |].
  split; [by destruct ir |].
  split; [intros t' Hne; simpl; by rewrite lookup_insert_ne |].
  split.
  { unfold frame. simpl. by rewrite (fmap_insert_fixed _ _ ir). }
  split; [done |].
  simpl. rewrite !lookup_insert_eq. unfold set_inventory. simpl.
  by rewrite insert_insert_eq.
Qed.

(** X13.  The three setters write different parts of a record: two of them
    run one after the other return the same errors and leave the same
    backend in either order, whatever the tokens and whether or not the
    inventory holds them. *)
Theorem setters_commute b token1 sv svr token2 avr c :
  (let* e1 := _setRecordVoting token1 sv svr in
   let* e2 := setRecordVoteAuthorization token2 avr in ret (e1, e2)) b
  = (let* e2 := setRecordVoteAuthorization token2 avr in
     let* e1 := _setRecordVoting token1 sv svr in ret (e1, e2)) b
  ∧ (let* e1 := _setRecordVoting token1 sv svr in
     let* e2 := setRecordComment c in ret (e1, e2)) b
    = (let* e2 := setRecordComment c in
       let* e1 := _setRecordVoting token1 sv svr in ret (e1, e2)) b
  ∧ (let* e1 := setRecordVoteAuthorization token2 avr in
     let* e2 := setRecordComment c in ret (e1, e2)) b
    = (let* e2 := setRecordComment c in
       let* e1 := setRecordVoteAuthorization token2 avr in ret (e1, e2)) b.
Proof.
  split; [| split].
  - unfold _setRecordVoting, setRecordVoteAuthorization,
      _setRecordVoteAuthorization, update_entry, bind, ret.
    destruct (inventory b !! token1) as [ir1 |] eqn:H1;
      destruct (inventory b !! token2) as [ir2 |] eqn:H2; simpl;
      rewrite ?H1, ?H2; simpl; [| | | done].
    + destruct (decide (token1 = token2)) as [-> | Hne].
      * assert (ir1 = ir2) as -> by congruence.
        repeat (rewrite ?lookup_insert_eq, ?H2; simpl).
        unfold set_inventory. simpl. by rewrite !insert_insert_eq.
      * repeat (rewrite ?lookup_insert_ne, ?H1, ?H2 by done; simpl).
        unfold set_inventory. simpl. do 2 f_equal.
        by apply insert_insert_ne.
    + assert (token2 ≠ token1) as Hne by congruence.
      by rewrite lookup_insert_ne, H2.
    + assert (token2 ≠ token1) as Hne by congruence.
      by rewrite lookup_insert_ne, H1.
  - unfold _setRecordVoting, setRecordComment, _setRecordComment,
      write_comment, bind, ret.
    destruct (inventory b !! token1) as [ir1 |] eqn:H1;
      destruct (inventory b !! www.Token c) as [irc |] eqn:Hc; simpl;
      rewrite ?H1, ?Hc; simpl; [| | | done].
    + destruct (decide (token1 = www.Token c)) as [E | Hne].
      * rewrite <- E in *. assert (ir1 = irc) as -> by congruence.
        rewrite lookup_insert_eq. simpl.
        destruct (comments irc); simpl; rewrite ?H1; done.
      * rewrite lookup_insert_ne, Hc by done.
        destruct (comments irc); simpl; rewrite ?H1; done.
    + assert (www.Token c ≠ token1) as Hne by congruence.
      by rewrite lookup_insert_ne, Hc.
    + destruct (comments irc); simpl; rewrite ?H1; done.
  - unfold setRecordVoteAuthorization, _setRecordVoteAuthorization,
      update_entry, setRecordComment, _setRecordComment, write_comment,
      bind, ret.
    destruct (inventory b !! token2) as [ir2 |] eqn:H2;
      destruct (inventory b !! www.Token c) as [irc |] eqn:Hc; simpl;
      rewrite ?H2, ?Hc; simpl; [| | | done].
    + destruct (decide (token2 = www.Token c)) as [E | Hne].
      * rewrite <- E in *. assert (ir2 = irc) as -> by congruence.
        rewrite lookup_insert_eq. simpl.
        destruct (comments irc); simpl; rewrite ?H2; done.
      * rewrite lookup_insert_ne, Hc by done.
        destruct (comments irc); simpl; rewrite ?H2; done.
    + assert (www.Token c ≠ token2) as Hne by congruence.
      by rewrite lookup_insert_ne, Hc.
    + destruct (comments irc); simpl; rewrite ?H2; done.
Qed.

End Calls.

(** * The snapshot of proposals and its pages *)

Section Snapshot.

Context `{Ext : Externals}.

Variable conv : backend → inventoryRecord → www.ProposalRecord.
Variable uname : backend → string → string.

(** What [_getAllProposals] says of the record under token [t] of
    backend [b]: its number of comments and the user id of its public
    key, the empty string when the key belongs to no user. *)
Local Abbreviation views b :=
  (λ (t : string) (v : www.ProposalRecord),
     ∃ ir, inventory b !! t = Some ir
           ∧ www.NumComments v = Z.of_nat (size (comments_of b ir))
           ∧ www.UserId v = default "" (userPubkeys b !! www.PublicKey v)).

Lemma proposalView_spec vv b :
  ∃ v b',
    proposalView conv uname vv b = Returns v b'
    ∧ www.NumComments v = Z.of_nat (size (comments_of b vv))
    ∧ www.UserId v = default "" (userPubkeys b !! www.PublicKey v)
    ∧ inventory b' = inventory b ∧ frame b' = frame b
    ∧ changeArrays b' = changeArrays b.
Proof.
  unfold proposalView.
  destruct (userPubkeys b !! _) as [uid |] eqn:Hu;
    eexists _, _; (split; [reflexivity |]); simpl in *; rewrite Hu; done.
Qed.

Lemma allProposals_loop_spec order acc b :
  (∀ t, t ∈ order → is_Some (inventory b !! t)) →
  ∃ vs b',
    allProposals_loop conv uname order acc b = Returns (acc ++ vs) b'
    ∧ Forall2 (views b) order vs
    ∧ inventory b' = inventory b ∧ frame b' = frame b
    ∧ changeArrays b' = changeArrays b.
Proof.
  revert acc b. induction order as [| t rest IH]; intros acc b Hin; simpl.
  - exists [], b. rewrite app_nil_r. by repeat split.
  - destruct (Hin t) as [vv Hvv]; [left |]. rewrite Hvv.
    destruct (proposalView_spec vv b) as (v & b1 & E1 & Hn & Hu & Hi & Hf & Hc).
    unfold bind. rewrite E1.
    destruct (IH (acc ++ [v]) b1) as (vs & b' & E & HF & Hi' & Hf' & Hc').
    { intros t' Ht'. rewrite Hi. apply Hin. by right. }
    exists (v :: vs), b'. rewrite E, <- app_assoc. split; [done |].
    assert (commentMaps b1 = commentMaps b ∧ userPubkeys b1 = userPubkeys b)
      as [Hcm Hup] by (unfold frame in Hf; split; congruence).
    split.
    + constructor; [by exists vv |].
      eapply Forall2_impl; [exact HF |].
      intros t' v' (ir & Hir & Hn' & Hu'). exists ir.
      rewrite <- Hi, <- Hup. split; [done |]. split; [| done].
      rewrite Hn'. unfold comments_of. by rewrite Hcm.
    + repeat split; congruence.
Qed.

(** X15.  When [range] visits every token of the inventory once,
    [_getAllProposals] returns one proposal per record, in the order of
    the visit, each with the number of comments of its record and with
    the user id of its public key (empty when the key belongs to no
    user); nothing of the cache changes, the call only writes to the
    log. *)
Theorem getAllProposals_one_per_record order b :
  range_order (inventory b) order →
  ∃ all b',
    _getAllProposals conv uname order b = Returns all b'
    ∧ length all = size (inventory b)
    ∧ Forall2 (views b) order all
    ∧ inventory b' = inventory b ∧ frame b' = frame b
    ∧ changeArrays b' = changeArrays b.
Proof.
  intros Hro. unfold range_order in Hro.
  destruct (allProposals_loop_spec order [] b) as (vs & b' & E & HF & Hrest).
  { intros t Ht. rewrite Hro in Ht.
    apply list_elem_of_fmap in Ht as ([t' ir] & -> & Hin).
    apply elem_of_map_to_list in Hin. simpl. eauto. }
  exists vs, b'. split; [exact E |]. split; [| by split].
  rewrite <- (Forall2_length _ _ _ HF), Hro, length_fmap.
  apply length_map_to_list.
Qed.

(** ** The page is made of proposals that pass the filters *)

Lemma cursor_tail_sublist tok (l : list www.ProposalRecord) :
  cursor_tail tok l `sublist_of` l.
Proof.
  induction l as [| p l IH]; simpl; [done |].
  case_bool_decide; by apply sublist_cons.
Qed.

Lemma cursor_head_sublist tok (l l1 : list www.ProposalRecord) :
  cursor_head tok l = Some l1 → l1 `sublist_of` l.
Proof.
  revert l1. induction l as [| p l IH]; intros l1; simpl; [done |].
  case_bool_decide.
  - intros [= <-]. apply sublist_nil_l.
  - destruct (cursor_head tok l) as [l0 |]; [| done].
    intros [= <-]. apply sublist_skip. by apply IH.
Qed.

Lemma sublist_reverse {A} (l1 l2 : list A) :
  l1 `sublist_of` l2 → reverse l1 `sublist_of` reverse l2.
Proof.
  induction 1 as [| x l1 l2 _ IH | x l1 l2 _ IH]; [done | |].
  - rewrite !reverse_cons. by apply sublist_app.
  - rewrite reverse_cons. by apply sublist_inserts_r.
Qed.

Lemma reverse_take_reverse_sublist {A} (l : list A) n :
  reverse (take n (reverse l)) `sublist_of` l.
Proof.
  rewrite <- (reverse_involutive l) at 2.
  apply sublist_reverse, sublist_take.
Qed.

Lemma page_of_filtered_sublist pr all :
  page_of_filtered pr all
  `sublist_of` filter (λ p, passesFilters pr p = true) (reverse all).
Proof.
  unfold page_of_filtered. rewrite filter_reverse.
  set (L := reverse (filter _ all)).
  case_bool_decide.
  - etransitivity; [apply sublist_take | apply cursor_tail_sublist].
  - case_bool_decide; [| apply sublist_take].
    destruct (cursor_head (Before pr) L) as [newer |] eqn:E;
      [| apply sublist_nil_l].
    etransitivity; [apply reverse_take_reverse_sublist |].
    by eapply cursor_head_sublist.
Qed.

(** ** The order of the snapshot *)

Lemma ascii_compare_refl a : Ascii.compare a a = Eq.
Proof. unfold Ascii.compare. apply N.compare_refl. Qed.

Lemma ascii_compare_trans a1 a2 a3 :
  Ascii.compare a1 a2 = Lt → Ascii.compare a2 a3 = Lt →
  Ascii.compare a1 a3 = Lt.
Proof.
  unfold Ascii.compare. rewrite !N.compare_lt_iff. apply N.lt_trans.
Qed.

Lemma string_compare_refl (s : string) : String.compare s s = Eq.
Proof.
  induction s as [| a s IH]; simpl; [done |]. by rewrite ascii_compare_refl.
Qed.

Lemma string_compare_trans (s1 s2 s3 : string) :
  String.compare s1 s2 = Lt → String.compare s2 s3 = Lt →
  String.compare s1 s3 = Lt.
Proof.
  revert s2 s3. induction s1 as [| a1 s1 IH]; intros [| a2 s2] [| a3 s3];
    simpl; try done.
  destruct (Ascii.compare a1 a2) eqn:E12; try done;
    destruct (Ascii.compare a2 a3) eqn:E23; try done.
  - apply Ascii.compare_eq_iff in E12 as ->.
    apply Ascii.compare_eq_iff in E23 as ->.
    rewrite ascii_compare_refl. apply IH.
  - apply Ascii.compare_eq_iff in E12 as ->. by rewrite E23.
  - apply Ascii.compare_eq_iff in E23 as <-. by rewrite E12.
  - by rewrite (ascii_compare_trans _ _ _ E12 E23).
Qed.

Lemma string_ltb_irrefl (s : string) : String.ltb s s = false.
Proof. unfold String.ltb. by rewrite string_compare_refl. Qed.

Lemma string_ltb_asym (s1 s2 : string) :
  String.ltb s1 s2 = true → String.ltb s2 s1 = false.
Proof.
  unfold String.ltb. rewrite (String.compare_antisym s2 s1).
  by destruct (String.compare s1 s2).
Qed.

Lemma string_ltb_trans (s1 s2 s3 : string) :
  String.ltb s1 s2 = true → String.ltb s2 s3 = true → String.ltb s1 s3 = true.
Proof.
  unfold String.ltb.
  destruct (String.compare s1 s2) eqn:E12; try done.
  destruct (String.compare s2 s3) eqn:E23; try done.
  by rewrite (string_compare_trans _ _ _ E12 E23).
Qed.

Lemma string_ltb_total (s1 s2 : string) :
  s1 ≠ s2 → String.ltb s1 s2 = true ∨ String.ltb s2 s1 = true.
Proof.
  intros Hne. unfold String.ltb. rewrite (String.compare_antisym s2 s1).
  destruct (String.compare s1 s2) eqn:E; simpl; auto.
  by apply String.compare_eq_iff in E.
Qed.

Lemma less_cases (x y : www.ProposalRecord) :
  less x y = true
  ↔ www.PropTimestamp x < www.PropTimestamp y
    ∨ (www.PropTimestamp x = www.PropTimestamp y
       ∧ String.ltb (www.PropToken y) (www.PropToken x) = true).
Proof.
  unfold less.
  destruct (Z.eqb_spec (www.PropTimestamp x) (www.PropTimestamp y)) as [E | E];
    simpl.
  - split; [auto | intros [? | [_ ?]]; [lia | done]].
  - rewrite Z.ltb_lt. split; [auto | intros [? | [? _]]; [done | lia]].
Qed.

Lemma less_is_strict_order :
  (∀ x, less x x = false)
  ∧ (∀ x y, less x y = true → less y x = false)
  ∧ (∀ x y z, less x y = true → less y z = true → less x z = true)
  ∧ (∀ x y,
       (www.PropTimestamp x, www.PropToken x)
       ≠ (www.PropTimestamp y, www.PropToken y) →
       less x y = true ∨ less y x = true)
  ∧ (∀ x y, www.PropTimestamp x < www.PropTimestamp y → less x y = true).
Proof.
  split; [| split; [| split; [| split]]].
  - intros x. apply not_true_is_false. rewrite less_cases.
    intros [? | [_ H]]; [lia |]. by rewrite string_ltb_irrefl in H.
  - intros x y Hxy. apply not_true_is_false. rewrite less_cases in *.
    intros [? | [? H]]; destruct Hxy as [? | [? H']]; try lia.
    by rewrite (string_ltb_asym _ _ H') in H.
  - intros x y z. rewrite !less_cases.
    intros [? | [? H1]] [? | [? H2]]; try (left; lia).
    right. split; [lia |]. by apply (string_ltb_trans _ _ _ H2 H1).
  - intros x y Hne. rewrite !less_cases.
    destruct (Z.lt_total (www.PropTimestamp x) (www.PropTimestamp y))
      as [? | [E | ?]]; [auto | | auto].
    assert (www.PropToken y ≠ www.PropToken x) as Hk by congruence.
    destruct (string_ltb_total _ _ Hk); [left | right]; right; auto.
  - intros x y H. rewrite less_cases. auto.
Qed.



(** Not being before is transitive. *)
Lemma not_less_trans x y z :
  less y x = false → less z y = false → less z x = false.
Proof.
  intros H1 H2. apply not_true_is_false. intros H3.
  apply not_true_iff_false in H1, H2. rewrite less_cases in *.
  assert (www.PropTimestamp x = www.PropTimestamp y
          ∧ www.PropTimestamp y = www.PropTimestamp z) as [Exy Eyz].
  { destruct H3 as [? | [? _]]; split; lia. }
  destruct H3 as [? | [_ H3]]; [lia |].
  destruct (decide (www.PropToken x = www.PropToken y)) as [E | Hne].
  - apply H2. right. split; [lia |]. by rewrite <- E.
  - destruct (string_ltb_total _ _ Hne) as [H | H].
    + apply H1. right. split; [lia | done].
    + apply H2. right. split; [lia |].
      by apply (string_ltb_trans _ _ _ H H3).
Qed.

Lemma sort_insert_sorted x l :
  StronglySorted (λ a b, less b a = false) l →
  StronglySorted (λ a b, less b a = false) (sort_insert x l).
Proof.
  induction 1 as [| y l Hs IH Hy]; simpl.
  - by repeat constructor.
  - destruct (less x y) eqn:E.
    + constructor; [by constructor |].
      destruct less_is_strict_order as (_ & Hasym & _).
      constructor; [by apply Hasym |].
      eapply Forall_impl; [exact Hy |]. intros z Hz. simpl in Hz.
      apply (not_less_trans _ y); [| done]. by apply Hasym.
    + constructor; [done |].
      rewrite (sort_insert_perm x l). by constructor.
Qed.

Lemma sorted_unique (l1 l2 : list www.ProposalRecord) :
  NoDup ((λ p, (www.PropTimestamp p, www.PropToken p)) <$> l1) →
  l1 ≡ₚ l2 →
  StronglySorted (λ a b, less b a = false) l1 →
  StronglySorted (λ a b, less b a = false) l2 →
  l1 = l2.
Proof.
  revert l2. induction l1 as [| x l1 IH]; intros l2 Hnd Hp H1 H2.
  - by apply Permutation_nil_l in Hp.
  - destruct l2 as [| y l2]; [by apply Permutation_nil_r in Hp |].
    apply StronglySorted_inv in H1 as [H1 Hx].
    apply StronglySorted_inv in H2 as [H2 Hy].
    rewrite fmap_cons in Hnd. apply NoDup_cons in Hnd as [Hxn Hnd].
    assert (x = y) as ->.
    { assert (x ∈ y :: l2) as Hx2 by (rewrite <- Hp; left).
      apply elem_of_cons in Hx2 as [| Hx2]; [done |].
      assert (y ∈ x :: l1) as Hy1 by (rewrite Hp; left).
      apply elem_of_cons in Hy1 as [| Hy1]; [done |]. exfalso.
      rewrite Forall_forall in Hx, Hy.
      specialize (Hx y Hy1). specialize (Hy x Hx2). simpl in Hx, Hy.
      destruct less_is_strict_order as (_ & _ & _ & Htot & _).
      destruct (Htot x y) as [H | H]; [| congruence | congruence].
      intros Hk. apply Hxn. rewrite Hk.
      by apply (list_elem_of_fmap_2
                  (λ p, (www.PropTimestamp p, www.PropToken p))). }
    f_equal. apply IH; [done | by eapply Permutation_cons_inv | done | done].
Qed.

Lemma sortSlice_is_sorted l :
  StronglySorted (λ a b, less b a = false) (sortSlice l).
Proof.
  unfold sortSlice. induction l as [| x l IH]; simpl; [constructor |].
  by apply sort_insert_sorted.
Qed.

(** X18.  The sorted snapshot is the one arrangement of the snapshot in which
    no proposal is followed by one that is before it: [sortSlice]
    returns such an arrangement, and when no two proposals of the
    snapshot agree in both timestamp and token every such arrangement is
    the one it returns. *)
Theorem sortSlice_sorted l :
  sortSlice l ≡ₚ l
  ∧ StronglySorted (λ a b, less b a = false) (sortSlice l)
  ∧ (NoDup ((λ p, (www.PropTimestamp p, www.PropToken p)) <$> l) →
     ∀ l', l' ≡ₚ l → StronglySorted (λ a b, less b a = false) l' →
           l' = sortSlice l).
Proof.
  pose proof (sortSlice_is_sorted l) as Hs.
  split; [apply sortSlice_perm |]. split; [exact Hs |].
  intros Hnd l' Hp Hs'. apply sorted_unique; [| | done | done].
  - by rewrite Hp.
  - by rewrite Hp, sortSlice_perm.
Qed.

(** ** The pages of a listing *)

Lemma StronglySorted_sublist {A} (R : relation A) (l1 l2 : list A) :
  l1 `sublist_of` l2 → StronglySorted R l2 → StronglySorted R l1.
Proof.
  induction 1 as [| x l1 l2 Hsub IH | x l1 l2 Hsub IH]; intros Hs.
  - constructor.
  - apply StronglySorted_inv in Hs as [Hs Hx]. constructor; [by apply IH |].
    apply Forall_forall. intros y Hy. rewrite Forall_forall in Hx.
    apply Hx. by eapply elem_of_sublist.
  - apply StronglySorted_inv in Hs as [Hs _]. by apply IH.
Qed.

Lemma StronglySorted_reverse {A} (R : relation A) (l : list A) :
  StronglySorted R l → StronglySorted (flip R) (reverse l).
Proof.
  induction 1 as [| x l Hs IH Hx]; [constructor |].
  rewrite reverse_cons. apply StronglySorted_app_2; [| done | by repeat constructor].
  intros x1 x2 H1 H2. apply elem_of_cons in H2 as [-> | H2];
    [| by apply elem_of_nil in H2].
  rewrite elem_of_reverse in H1. rewrite Forall_forall in Hx.
  by apply Hx.
Qed.

(** X16.  With a page size of at least one, the page [getProposals] returns
    is made of proposals of the snapshot that pass both filters, in the
    order newest first of the sorted snapshot and each at most as often
    as there, so that in the page no proposal is before one that
    precedes it; without a cursor it is the head of that list, up to
    the page size. *)
Theorem getProposals_page_of_snapshot order pr b :
  1 ≤ ProposalListPageSize →
  ∃ all b' ps,
    _getAllProposals conv uname order b = Returns all b'
    ∧ getProposals conv uname order pr b = Returns ps b'
    ∧ ps `sublist_of` reverse (sortSlice all)
    ∧ Forall (λ p, passesFilters pr p = true ∧ p ∈ all) ps
    ∧ StronglySorted (λ x y, less x y = false) ps
    ∧ (After pr = "" → Before pr = "" →
       ps = take (Z.to_nat ProposalListPageSize)
              (filter (λ p, passesFilters pr p = true)
                 (reverse (sortSlice all)))).
Proof.
  intros H1.
  destruct (getProposals_returns conv uname order pr b) as (all & b' & E1 & E2).
  exists all, b', (paginate pr (sortSlice all)).
  split; [exact E1 |]. split; [exact E2 |].
  rewrite paginate_page_of_filtered by done.
  pose proof (page_of_filtered_sublist pr (sortSlice all)) as Hsub.
  assert (page_of_filtered pr (sortSlice all)
          `sublist_of` reverse (sortSlice all)) as Hsub'
    by (etransitivity; [exact Hsub | apply sublist_filter]).
  split; [exact Hsub' |].
  split.
  { apply Forall_forall. intros p Hp.
    assert (p ∈ filter (λ p, passesFilters pr p = true)
                  (reverse (sortSlice all))) as Hp'
      by (eapply elem_of_sublist; [exact Hp | exact Hsub]).
    apply list_elem_of_filter in Hp' as [Hpass Hin]. split; [done |].
    rewrite elem_of_reverse in Hin. by rewrite sortSlice_perm in Hin. }
  split.
  { apply (StronglySorted_sublist _ _ _ Hsub').
    apply (StronglySorted_reverse (λ a b, less b a = false)).
    apply sortSlice_is_sorted. }
  intros Ha Hb. unfold page_of_filtered.
  rewrite !bool_decide_eq_false_2 by tauto. by rewrite filter_reverse.
Qed.

(** X24.  With a page size of at least one and tokens that are not repeated
    among the proposals that pass the filters: the request with [after]
    set to the token of one of them returns the proposals that follow it
    in the listing (those that pass the filters, newest first), up to
    the page size, so that asking for the page after the last proposal
    of a page continues the listing where that page ended; the request
    with [before] set to it returns the proposals just before it, up to
    the page size, in the order of the listing.  The token is not the
    empty string, which stands for no cursor. *)
Theorem getProposals_next_page order pr b :
  1 ≤ ProposalListPageSize →
  ∃ all b',
    _getAllProposals conv uname order b = Returns all b'
    ∧ ∀ L i c,
        L = filter (λ p, passesFilters pr p = true) (reverse (sortSlice all)) →
        NoDup (www.PropToken <$> L) →
        L !! i = Some c →
        www.PropToken c ≠ "" →
        getProposals conv uname order
          {| After := www.PropToken c; Before := Before pr;
             ReqUserId := ReqUserId pr; StateMap := StateMap pr |} b
        = Returns (take (Z.to_nat ProposalListPageSize) (drop (S i) L)) b'
        ∧ getProposals conv uname order
            {| After := ""; Before := www.PropToken c;
               ReqUserId := ReqUserId pr; StateMap := StateMap pr |} b
          = Returns (reverse (take (Z.to_nat ProposalListPageSize)
                                (reverse (take i L)))) b'.
Proof.
  intros H1.
  destruct (allProposals_loop_returns conv uname order [] b) as (all & b' & E).
  fold (_getAllProposals conv uname order) in E.
  exists all, b'. split; [exact E |].
  intros L i c HL Hnd Hi Hc.
  assert (L = take i L ++ c :: drop (S i) L) as Hsplit
    by (symmetry; by apply take_drop_middle).
  assert (∀ p, p ∈ take i L → www.PropToken p ≠ www.PropToken c) as Hno.
  { intros p Hp Heq. rewrite Hsplit, fmap_app, fmap_cons in Hnd.
    apply NoDup_app in Hnd as (_ & Hnd & _).
    apply (Hnd (www.PropToken p)).
    - by apply list_elem_of_fmap_2.
    - rewrite Heq. left. }
  unfold getProposals, bind, ret. rewrite E.
  rewrite !paginate_page_of_filtered by done.
  unfold page_of_filtered; simpl.
  rewrite <- !filter_reverse.
  change (filter _ (reverse (sortSlice all)))
    with (filter (λ p, passesFilters pr p = true) (reverse (sortSlice all))).
  rewrite <- HL. split.
  - rewrite bool_decide_eq_true_2 by done. do 2 f_equal.
    rewrite Hsplit at 1. by apply cursor_tail_at.
  - rewrite bool_decide_eq_true_2 by done.
    rewrite Hsplit at 1. by rewrite cursor_head_at.
Qed.

(** X25.  With a page size of at least one, a request that sets [after]
    returns the same page whatever it sets [before] to: the second
    cursor is not looked at. *)
Theorem getProposals_after_overrides_before order pr b before :
  1 ≤ ProposalListPageSize →
  After pr ≠ "" →
  getProposals conv uname order
    {| After := After pr; Before := before;
       ReqUserId := ReqUserId pr; StateMap := StateMap pr |} b
  = getProposals conv uname order pr b.
Proof.
  intros H1 Ha. unfold getProposals, bind, ret.
  destruct (_getAllProposals conv uname order b) as [all b' |]; [| done].
  rewrite !paginate_page_of_filtered by done.
  unfold page_of_filtered; simpl.
  by rewrite !(bool_decide_eq_true_2 _ Ha).
Qed.

(** ** A token the inventory does not hold *)

(** X14.  On a token the inventory does not hold, the readers and setters of
    single records return the record-not-found error and leave the
    backend as it is, except [_getInventoryRecordComment], which
    dereferences the missing record and panics, as does a metadata
    loader once it has decoded a value. *)
Theorem missing_token b token :
  inventory b !! token = None →
  getInventoryRecord token b
  = Returns (zero_inventoryRecord, Some (ErrRecordNotFound token)) b
  ∧ _getProposal conv token b
    = Returns (zero_ProposalRecord, Some (ErrRecordNotFound token)) b
  ∧ (∀ r, pd.Token r = token →
       updateInventoryRecord r b = Returns (Some (ErrRecordNotFound token)) b)
  ∧ (∀ c, www.Token c = token →
       setRecordComment c b = Returns (Some (ErrRecordNotFound token)) b)
  ∧ (∀ sv svr,
       _setRecordVoting token sv svr b
       = Returns (Some (ErrRecordNotFound token)) b)
  ∧ (∀ avr,
       setRecordVoteAuthorization token avr b
       = Returns (Some (ErrRecordNotFound token)) b)
  ∧ _updateCountOfUserProposals token b
    = Returns (Some (ErrRecordNotFound token)) b
  ∧ (∀ order,
       _processCommentsLikesResults order token b
       = Returns (Some (ErrRecordNotFound token)) b)
  ∧ (∀ commentID, _getInventoryRecordComment token commentID b = Panics)
  ∧ (∀ p, js_values (decodeProposalMD p) ≠ [] → loadPropMD token p b = Panics)
  ∧ (∀ p, js_values (decodeChanges p) ≠ [] → loadChanges token p b = Panics).
Proof.
  intros Hnone.
  unfold getInventoryRecord, _getProposal, bind, _getInventoryRecord,
    updateInventoryRecord, _updateInventoryRecord, setRecordComment,
    _setRecordComment, _setRecordVoting, setRecordVoteAuthorization,
    _setRecordVoteAuthorization, _updateCountOfUserProposals,
    _processCommentsLikesResults, _getInventoryRecordComment.
  rewrite Hnone. simpl.
  repeat split; try done; try (by intros ? ->; rewrite Hnone).
  - intros p Hp. unfold loadPropMD, Decode.
    destruct (js_values (decodeProposalMD p)); [done |].
    unfold bind, update_entry. by rewrite Hnone.
  - intros p Hp. unfold loadChanges.
    destruct (js_values (decodeChanges p)); [done |].
    simpl. unfold bind, appendChange. by rewrite Hnone.
Qed.

End Snapshot.

(** * Comments, likes and whole inventories from politeiad *)

Section LoadingProperties.

Context `{Ext : Externals} {Plg : Plugin}.

Implicit Types (b : backend) (ir : inventoryRecord) (t token : string).

Lemma set_commentMaps_id b : set_commentMaps (commentMaps b) b = b.
Proof. by destruct b. Qed.

Lemma set_likeMaps_id b : set_likeMaps (likeMaps b) b = b.
Proof. by destruct b. Qed.

Lemma fillComments_spec t cs b ir l :
  inventory b !! t = Some ir → comments ir = Some l →
  ∃ h,
    fillComments t cs b = Returns tt (set_commentMaps h b)
    ∧ (∀ l', l' ≠ l → h !! l' = commentMaps b !! l')
    ∧ dom (default ∅ (h !! l))
      = dom (comments_of b ir) ∪ list_to_set (pluginCommentID <$> cs)
    ∧ (∀ cid, cid ∉ pluginCommentID <$> cs →
         default ∅ (h !! l) !! cid = comments_of b ir !! cid)
    ∧ (∀ cid, cid ∈ pluginCommentID <$> cs →
         ∃ v b0, v ∈ cs ∧ pluginCommentID v = cid
                 ∧ inventory b0 = inventory b ∧ userPubkeys b0 = userPubkeys b
                 ∧ default ∅ (h !! l) !! cid
                   = Some (_convertDecredCommentToWWWComment b0 v)).
Proof.
  intros Hir Hl. revert b Hir.
  induction cs as [| v rest IH]; intros b Hir; simpl.
  - exists (commentMaps b). rewrite set_commentMaps_id.
    split; [done |]. split; [done |].
    assert (default ∅ (commentMaps b !! l) = comments_of b ir) as ->
      by (unfold comments_of; by rewrite Hl).
    split; [simpl; by rewrite (right_id_L ∅ (∪)) |]. split; [done |].
    intros cid Hin. by apply elem_of_nil in Hin.
  - unfold bind, fillComment. rewrite Hir. unfold write_comment. rewrite Hl.
    set (c := _convertDecredCommentToWWWComment b v).
    set (b1 := set_commentMaps _ b).
    destruct (IH b1 Hir) as (h & E & Hother & Hdom & Hkeep & Hnew).
    assert (comments_of b1 ir = <[pluginCommentID v := c]> (comments_of b ir))
      as Hc1 by (by apply comments_of_write).
    exists h. split; [exact E |]. split.
    { intros l' Hne. rewrite (Hother l' Hne). unfold b1. simpl.
      by rewrite lookup_insert_ne. }
    split.
    { rewrite Hdom, Hc1, dom_insert_L. simpl.
      rewrite (comm_L (∪) {[pluginCommentID v]} (dom (comments_of b ir))).
      by rewrite (assoc_L (∪)). }
    split.
    { intros cid Hnin. rewrite not_elem_of_cons in Hnin.
      destruct Hnin as [Hne Hnin].
      rewrite (Hkeep cid Hnin), Hc1. by rewrite lookup_insert_ne. }
    intros cid Hin.
    destruct (decide (cid ∈ pluginCommentID <$> rest)) as [Hr | Hr].
    + destruct (Hnew cid Hr) as (v' & b0 & Hv' & Hid & Hi0 & Hu0 & Hlk).
      exists v', b0. split; [by right |]. done.
    + apply elem_of_cons in Hin as [-> | Hin]; [| done].
      exists v, b. split; [left |]. split; [done |]. split; [done |].
      split; [done |].
      rewrite (Hkeep _ Hr), Hc1. by rewrite lookup_insert_eq.
Qed.

(** X19.  [loadComments] on a record with a comments map.  When the exchange
    with politeiad fails the call returns its error and nothing but the
    log changes.  Otherwise it returns nil and the comments of the reply
    are merged into those of the record: the record then has the
    comments it had and those of the reply; a comment whose id is not in
    the reply is as it was; under an id of the reply is the conversion
    of a comment of the reply with that id. *)
Theorem loadComments_merges t b ir :
  inventory b !! t = Some ir →
  is_Some (comments ir) →
  match getComments t with
  | inl err =>
      loadComments t b
      = Returns (Some err) (log_write (LogTrace "loadComments: %v") b)
  | inr cs =>
      ∃ b',
        loadComments t b = Returns None b'
        ∧ inventory b' = inventory b
        ∧ dom (comments_of b' ir)
          = dom (comments_of b ir) ∪ list_to_set (pluginCommentID <$> cs)
        ∧ (∀ cid, cid ∉ pluginCommentID <$> cs →
             comments_of b' ir !! cid = comments_of b ir !! cid)
        ∧ (∀ cid, cid ∈ pluginCommentID <$> cs →
             ∃ v b0, v ∈ cs ∧ pluginCommentID v = cid
                     ∧ inventory b0 = inventory b
                     ∧ userPubkeys b0 = userPubkeys b
                     ∧ comments_of b' ir !! cid
                       = Some (_convertDecredCommentToWWWComment b0 v))
  end.
Proof.
  intros Hir [l Hl]. unfold loadComments.
  destruct (getComments t) as [err | cs]; [done |].
  unfold bind, modify.
  set (b0 := log_write (LogTrace "loadComments: %v") b).
  destruct (fillComments_spec t cs b0 ir l Hir Hl)
    as (h & E & Hother & Hdom & Hkeep & Hnew).
  rewrite E.
  exists (log_write (LogTrace "loadComments: %v inserted %v")
            (set_commentMaps h b0)).
  split; [reflexivity |]. split; [done |].
  assert (comments_of
            (log_write (LogTrace "loadComments: %v inserted %v")
               (set_commentMaps h b0)) ir = default ∅ (h !! l)) as ->
    by (unfold comments_of; simpl; by rewrite Hl).
  split; [exact Hdom |]. split; [exact Hkeep | exact Hnew].
Qed.

Lemma appendLikes_spec token vs b ir l :
  inventory b !! token = Some ir → commentsLikes ir = Some l →
  ∃ h,
    appendLikes token vs b = Returns tt (set_likeMaps h b)
    ∧ (∀ l', l' ≠ l → h !! l' = likeMaps b !! l')
    ∧ (∀ cid,
         default [] (default ∅ (h !! l) !! cid)
         = default [] (likes_of b ir !! cid)
           ++ filter (λ x, www.LikeCommentID x = cid)
                (convertDecredLikeCommentToWWWLikeComment <$> vs))
    ∧ (∀ cid,
         is_Some (default ∅ (h !! l) !! cid)
         ↔ is_Some (likes_of b ir !! cid)
           ∨ cid ∈ www.LikeCommentID
                   <$> (convertDecredLikeCommentToWWWLikeComment <$> vs)).
Proof.
  intros Hir Hl. revert b Hir.
  induction vs as [| v rest IH]; intros b Hir; simpl.
  - exists (likeMaps b). rewrite set_likeMaps_id.
    split; [done |]. split; [done |].
    assert (default ∅ (likeMaps b !! l) = likes_of b ir) as ->
      by (unfold likes_of; by rewrite Hl).
    split; [intros cid; by rewrite filter_nil, app_nil_r |].
    intros cid. split; [auto | intros [? | Hin]; [done |]].
    by apply elem_of_nil in Hin.
  - unfold bind, appendLike. rewrite Hir, Hl.
    set (lc := convertDecredLikeCommentToWWWLikeComment v).
    set (b1 := set_likeMaps _ b).
    assert (likes_of b1 ir
            = <[www.LikeCommentID lc :=
                  default [] (likes_of b ir !! www.LikeCommentID lc) ++ [lc]]>
                (likes_of b ir)) as Hl1.
    { unfold b1. repeat (unfold likes_of; simpl; rewrite ?Hl, ?lookup_insert_eq).
      done. }
    destruct (IH b1 Hir) as (h & E & Hother & Hlists & Hdom).
    exists h. split; [exact E |]. split.
    { intros l' Hne. rewrite (Hother l' Hne). unfold b1. simpl.
      by rewrite lookup_insert_ne. }
    split.
    + intros cid. rewrite (Hlists cid), Hl1.
      destruct (decide (www.LikeCommentID lc = cid)) as [<- | Hne].
      * rewrite lookup_insert_eq, filter_cons_True by done. simpl.
        by rewrite <- app_assoc.
      * rewrite lookup_insert_ne, filter_cons_False by done. done.
    + intros cid. rewrite (Hdom cid), Hl1.
      destruct (decide (www.LikeCommentID lc = cid)) as [<- | Hne].
      * rewrite lookup_insert_eq. split; [intros _; right; left |].
        intros _. left. eauto.
      * rewrite lookup_insert_ne by done. rewrite elem_of_cons.
        split; [tauto |]. intros [? | [? | ?]]; [tauto | congruence | tauto].
Qed.

(** X20.  [_loadCommentsLikes] on a token the inventory holds.  When the
    exchange with politeiad fails the call returns its error and nothing
    but the log changes.  Otherwise it returns nil and the record has a
    new map of likes, holding under each comment id the likes of the
    reply on that comment in the order of the reply and nothing else: the
    likes the record had before are dropped.  Nothing else of the record
    changes, and no other record and no comment. *)
Theorem loadCommentsLikes_groups token b ir :
  inventory b !! token = Some ir →
  match getProposalCommentsLikes token with
  | inl err =>
      _loadCommentsLikes token b
      = Returns (Some err) (log_write (LogTrace "loadCommentsLikes %v") b)
  | inr vs =>
      ∃ b' ir',
        _loadCommentsLikes token b = Returns None b'
        ∧ inventory b' !! token = Some ir'
        ∧ is_Some (commentsLikes ir')
        ∧ set_commentsLikes (commentsLikes ir) ir' = ir
        ∧ (∀ cid,
             default [] (likes_of b' ir' !! cid)
             = filter (λ x, www.LikeCommentID x = cid)
                 (convertDecredLikeCommentToWWWLikeComment <$> vs))
        ∧ (∀ cid,
             is_Some (likes_of b' ir' !! cid)
             ↔ cid ∈ www.LikeCommentID
                     <$> (convertDecredLikeCommentToWWWLikeComment <$> vs))
        ∧ (∀ t', t' ≠ token → inventory b' !! t' = inventory b !! t')
        ∧ commentMaps b' = commentMaps b
  end.
Proof.
  intros Hir. unfold _loadCommentsLikes.
  destruct (getProposalCommentsLikes token) as [err | vs]; [done |].
  unfold bind, modify, resetCommentsLikes. simpl. rewrite Hir.
  set (b0 := log_write (LogTrace "loadCommentsLikes %v") b).
  set (l := fresh (dom (likeMaps b0))).
  set (ir1 := set_commentsLikes (Some l) ir).
  set (b1 := set_inventory _ _).
  assert (inventory b1 !! token = Some ir1) as Hir1
    by (unfold b1; simpl; apply lookup_insert_eq).
  destruct (appendLikes_spec token vs b1 ir1 l Hir1 eq_refl)
    as (h & E & Hother & Hlists & Hdom).
  rewrite E.
  exists (log_write (LogTrace "loadCommentsLikes: %v inserted %v")
            (set_likeMaps h b1)), ir1.
  split; [reflexivity |].
  assert (likes_of b1 ir1 = ∅) as Hempty
    by (unfold likes_of, b1; simpl; by rewrite lookup_insert_eq).
  assert (likes_of
            (log_write (LogTrace "loadCommentsLikes: %v inserted %v")
               (set_likeMaps h b1)) ir1 = default ∅ (h !! l)) as ->
    by done.
  split; [done |]. split; [by eexists |]. split; [by destruct ir |].
  split.
  { intros cid. by rewrite (Hlists cid), Hempty, lookup_empty. }
  split.
  { intros cid. rewrite (Hdom cid), Hempty, lookup_empty.
    split; [intros [[? ?] | ?]; done | auto]. }
  split; [| done].
  intros t' Hne. simpl. by rewrite lookup_insert_ne.
Qed.

(** ** Loading a record and a whole inventory *)

Lemma same_records_refl b : same_records b b.
Proof. by repeat split. Qed.

Lemma same_records_trans b1 b2 b3 :
  same_records b1 b2 → same_records b2 b3 → same_records b1 b3.
Proof.
  intros (H1 & H2 & H3 & H4 & H5) (G1 & G2 & G3 & G4 & G5).
  repeat split; first [congruence | intros k; by rewrite G5].
Qed.

Lemma same_records_frame b b' : frame b' = frame b → same_records b b'.
Proof.
  intros F. pose proof (λ k, counter_frame k b b' F) as Hc.
  unfold frame in F.
  assert (fixed_part <$> inventory b' = fixed_part <$> inventory b) as Hf
    by congruence.
  split.
  { transitivity ((λ x : pd.Record * option loc * option loc, x.1.1)
                  <$> (fixed_part <$> inventory b'));
      [by rewrite <- map_fmap_compose |].
    rewrite Hf. by rewrite <- map_fmap_compose. }
  split; [by rewrite !comments_fixed, Hf |].
  repeat split; [congruence | congruence | done].
Qed.

Lemma same_records_set_entry b t ir ir' :
  inventory b !! t = Some ir →
  record ir' = record ir → comments ir' = comments ir →
  same_records b (set_inventory (<[t := ir']> (inventory b)) b).
Proof.
  intros Hir Hr Hc. split; [| split; [| by repeat split]]; simpl.
  - rewrite fmap_insert, Hr. apply insert_id. by rewrite lookup_fmap, Hir.
  - rewrite fmap_insert, Hc. apply insert_id. by rewrite lookup_fmap, Hir.
Qed.

Lemma same_records_buckets b b' :
  same_records b b' →
  buckets b' = buckets b ∧ dom (inventory b') = dom (inventory b).
Proof.
  intros (Hr & _). split.
  - unfold buckets.
    transitivity ((λ r, bucket_of (convertPropStatusFromPD (pd.Status r)))
                  <$> (record <$> inventory b'));
      [by rewrite <- map_fmap_compose |].
    rewrite Hr. by rewrite <- map_fmap_compose.
  - rewrite <- (dom_fmap_L record (inventory b')), Hr. apply dom_fmap_L.
Qed.

Lemma same_records_comments b b' t ir :
  same_records b b' → inventory b !! t = Some ir →
  ∃ ir', inventory b' !! t = Some ir' ∧ comments ir' = comments ir.
Proof.
  intros (_ & Hc & _) Hir.
  apply (f_equal (λ m, m !! t)) in Hc. cbv beta in Hc.
  rewrite !lookup_fmap, Hir in Hc.
  destruct (inventory b' !! t) as [ir' |]; [| discriminate].
  exists ir'. split; [done |]. simpl in Hc. congruence.
Qed.

(** The tally writes to comments maps and to nothing else. *)
Lemma updateResults_only_comments l b :
  ∃ r h, _updateResultsForCommentLike l b = Returns r (set_commentMaps h b).
Proof.
  unfold _updateResultsForCommentLike.
  destruct (inventory b !! www.LikeToken l) as [ir |];
    [| eexists _, _; by rewrite set_commentMaps_id].
  destruct (comments_of b ir !! www.LikeCommentID l) as [c |] eqn:Hc;
    [| eexists _, _; by rewrite set_commentMaps_id].
  destruct (tally _ _) as [up down].
  unfold bind, ret, write_comment.
  destruct (comments ir) as [lc |] eqn:Hl.
  - by eexists _, _.
  - unfold comments_of in Hc. by rewrite Hl, lookup_empty in Hc.
Qed.

Lemma processLikes_only_comments t likes b :
  ∃ e h, processLikes t likes b = Returns e (set_commentMaps h b).
Proof.
  revert b. induction likes as [| l rest IH]; intros b; simpl.
  - exists None, (commentMaps b). by rewrite set_commentMaps_id.
  - destruct (updateResults_only_comments l b) as (r & h1 & E1).
    unfold bind. rewrite E1. destruct r.2.
    + by eexists _, _.
    + destruct (IH (set_commentMaps h1 b)) as (e & h & E).
      exists e, h. by rewrite E.
Qed.

Lemma processComments_only_comments t m order b :
  ∃ e h, processComments t m order b = Returns e (set_commentMaps h b).
Proof.
  revert b. induction order as [| k rest IH]; intros b; simpl.
  - exists None, (commentMaps b). by rewrite set_commentMaps_id.
  - destruct (processLikes_only_comments t (default [] (m !! k)) b)
      as (e1 & h1 & E1).
    unfold bind. rewrite E1. destruct e1.
    + by eexists _, _.
    + destruct (IH (set_commentMaps h1 b)) as (e & h & E).
      exists e, h. by rewrite E.
Qed.

Lemma same_records_set_commentMaps h b :
  same_records b (set_commentMaps h b).
Proof. by repeat split. Qed.

Lemma same_records_set_likeMaps h b : same_records b (set_likeMaps h b).
Proof. by repeat split. Qed.

Lemma same_records_log l b : same_records b (log_write l b).
Proof. by repeat split. Qed.

(** [loadRecord] on a record that is in the inventory with a comments
    map: it returns, leaves the records, the users and the counters as
    they were, and reports the failure of an exchange with politeiad. *)
Lemma loadRecord_total order r b ir :
  inventory b !! pd.Token r = Some ir → is_Some (comments ir) →
  ∃ e b',
    loadRecord order r b = Returns e b'
    ∧ same_records b b'
    ∧ match getComments (pd.Token r) with
      | inl err =>
          e = Some (ErrWrapped "could not load comments for %s: %v" err)
      | inr _ =>
          match getProposalCommentsLikes (pd.Token r) with
          | inl err =>
              e = Some (ErrWrapped
                          "could not load comment likes for %s: %v" err)
          | inr _ =>
              e = None
              ∨ ∃ err,
                  e = Some (ErrWrapped
                       "could not process comment likes results for %s: %v"
                       err)
          end
      end.
Proof.
  intros Hir Hcm. unfold loadRecord.
  destruct (framed_loadRecordMetadata r b (mk_is_Some _ _ Hir))
    as ([] & b1 & E1 & F1).
  pose proof (same_records_frame _ _ F1) as S1.
  destruct (same_records_comments _ _ _ _ S1 Hir) as (ir1 & Hir1 & Hc1).
  unfold bind at 1. rewrite E1.
  assert (∃ e2 b2, loadComments (pd.Token r) b1 = Returns e2 b2
                   ∧ same_records b1 b2
                   ∧ e2 = match getComments (pd.Token r) with
                          | inl err => Some err
                          | inr _ => None
                          end) as (e2 & b2 & E2 & S2 & M2).
  { unfold loadComments, bind, modify.
    destruct (getComments (pd.Token r)) as [err | cs].
    - eexists _, _. split; [reflexivity |]. split; [apply same_records_log | done].
    - destruct Hcm as [l Hl].
      destruct (fillComments_spec (pd.Token r) cs
                  (log_write (LogTrace "loadComments: %v") b1) ir1 l Hir1)
        as (h & E & _); [congruence |].
      rewrite E. eexists _, _. split; [reflexivity |]. split; [| done].
      eapply same_records_trans; [apply same_records_log |].
      eapply same_records_trans; [apply same_records_set_commentMaps |].
      apply same_records_log. }
  unfold bind at 1. rewrite E2.
  destruct (getComments (pd.Token r)) as [err | cs]; subst e2.
  { eexists _, _. split; [reflexivity |]. split; [| done].
    by eapply same_records_trans. }
  destruct (same_records_comments _ _ _ _ S2 Hir1) as (ir2 & Hir2 & Hc2).
  assert (∃ e3 b3, _loadCommentsLikes (pd.Token r) b2 = Returns e3 b3
                   ∧ same_records b2 b3
                   ∧ e3 = match getProposalCommentsLikes (pd.Token r) with
                          | inl err => Some err
                          | inr _ => None
                          end) as (e3 & b3 & E3 & S3 & M3).
  { unfold _loadCommentsLikes, bind, modify.
    destruct (getProposalCommentsLikes (pd.Token r)) as [err | vs].
    - eexists _, _. split; [reflexivity |]. split; [apply same_records_log | done].
    - unfold resetCommentsLikes. simpl. rewrite Hir2.
      set (b0 := log_write (LogTrace "loadCommentsLikes %v") b2).
      set (l := fresh (dom (likeMaps b0))).
      set (b21 := set_inventory _ _).
      destruct (appendLikes_spec (pd.Token r) vs b21
                  (set_commentsLikes (Some l) ir2) l) as (h & E & _);
        [unfold b21; simpl; apply lookup_insert_eq | done |].
      rewrite E. eexists _, _. split; [reflexivity |]. split; [| done].
      eapply same_records_trans;
        [apply (same_records_log (LogTrace "loadCommentsLikes %v") b2) |].
      eapply same_records_trans;
        [apply (same_records_set_likeMaps (<[l := ∅]> (likeMaps b0)) b0) |].
      eapply same_records_trans;
        [apply (same_records_set_entry
                  (set_likeMaps (<[l := ∅]> (likeMaps b0)) b0)
                  (pd.Token r) ir2 (set_commentsLikes (Some l) ir2));
         done |].
      eapply same_records_trans; [apply (same_records_set_likeMaps h) |].
      apply same_records_log. }
  unfold bind at 1. rewrite E3.
  assert (same_records b b3) as S13.
  { eapply same_records_trans; [exact S1 |].
    eapply same_records_trans; [exact S2 | exact S3]. }
  destruct (getProposalCommentsLikes (pd.Token r)) as [err | vs]; subst e3.
  { eexists _, _. split; [reflexivity |]. by split. }
  unfold bind, _processCommentsLikesResults.
  destruct (inventory b3 !! pd.Token r) as [ir3 |].
  - destruct (processComments_only_comments (pd.Token r) (likes_of b3 ir3)
                order b3) as (e4 & h & E4).
    rewrite E4.
    destruct e4; eexists _, _; (split; [reflexivity |]);
      (split; [eapply same_records_trans;
                 [exact S13 | apply same_records_set_commentMaps] |]);
      eauto.
  - eexists _, _. split; [reflexivity |]. split; [exact S13 |]. eauto.
Qed.

(** X21.  [loadRecord] on a record that is in the inventory with a comments
    map returns; whatever it returns, the records, their comments maps,
    the user directory and all counters are as before; when the exchange
    for the comments fails it returns that error wrapped, and otherwise
    when the exchange for the likes fails, that error wrapped. *)
Theorem loadRecord_returns order r b ir :
  inventory b !! pd.Token r = Some ir → is_Some (comments ir) →
  ∃ e b',
    loadRecord order r b = Returns e b'
    ∧ same_records b b'
    ∧ match getComments (pd.Token r) with
      | inl err =>
          e = Some (ErrWrapped "could not load comments for %s: %v" err)
      | inr _ =>
          match getProposalCommentsLikes (pd.Token r) with
          | inl err =>
              e = Some (ErrWrapped
                          "could not load comment likes for %s: %v" err)
          | inr _ =>
              e = None
              ∨ ∃ err,
                  e = Some (ErrWrapped
                       "could not process comment likes results for %s: %v"
                       err)
          end
      end.
Proof. apply loadRecord_total. Qed.

Lemma iter_incr n a :
  Nat.iter n (λ c, int_add c 1) (int_wrap a) = int_wrap (a + Z.of_nat n).
Proof.
  induction n as [| n IH]; simpl; [by rewrite Z.add_0_r |].
  rewrite IH, int_add_wrap. f_equal. lia.
Qed.

Lemma records_in_cons k v rs :
  records_in k (v :: rs)
  = ((if decide (bucket_of (convertPropStatusFromPD (pd.Status v)) = k)
      then 1 else 0) + records_in k rs)%nat.
Proof.
  unfold records_in. case_decide.
  - by rewrite filter_cons_True.
  - by rewrite filter_cons_False.
Qed.

Lemma initializeInventory_loop_spec order rs b :
  ∃ e b',
    initializeInventory_loop order rs b = Returns e b'
    ∧ userPubkeys b' = userPubkeys b
    ∧ (e = None →
       NoDup (pd.Token <$> rs)
       ∧ (∀ r, r ∈ rs → inventory b !! pd.Token r = None)
       ∧ dom (inventory b')
         = dom (inventory b) ∪ list_to_set (pd.Token <$> rs)
       ∧ ∀ k, count k (buckets b')
              = (count k (buckets b) + records_in k rs)%nat
              ∧ counter k b'
                = Nat.iter (records_in k rs) (λ c, int_add c 1) (counter k b)).
Proof.
  revert b. induction rs as [| v rest IH]; intros b; simpl.
  - exists None, b. split; [done |]. split; [done |]. intros _.
    split; [constructor |]. split; [intros r Hr; by apply elem_of_nil in Hr |].
    split; [by rewrite (right_id_L ∅ (∪)) |].
    intros k. unfold records_in. simpl. split; [lia | done].
  - unfold bind.
    destruct (inventory b !! pd.Token v) as [ir0 |] eqn:Hfresh.
    { unfold _newInventoryRecord. rewrite Hfresh.
      eexists _, b. split; [reflexivity |]. split; [done | discriminate]. }
    destruct (newInventoryRecord_fresh v b Hfresh)
      as (b0 & ir & e1 & b1 & _ & Hir0 & _ & Hnew & Hinv & Hbk & Hc & _).
    destruct (newInventoryRecord_layout v b e1 b1 Hfresh Hnew)
      as (Hf & _ & _ & Hup).
    rewrite Hnew.
    destruct e1 as [err |].
    { eexists _, b1. split; [reflexivity |]. split; [done | discriminate]. }
    assert (inventory b1 !! pd.Token v = Some ir) as Hir by (by rewrite Hinv).
    assert (is_Some (comments ir)) as Hcm.
    { assert (fixed_part <$> inventory b1 !! pd.Token v = Some (fixed_part ir))
        as Hl by (by rewrite Hir).
      rewrite <- lookup_fmap, Hf, lookup_insert_eq in Hl.
      unfold fixed_part in Hl. injection Hl as _ <- _. eauto. }
    destruct (loadRecord_total (order (pd.Token v)) v b1 ir Hir Hcm)
      as (e2 & b2 & E2 & S2 & _).
    rewrite E2.
    destruct (same_records_buckets _ _ S2) as [Hbk2 Hdom2].
    destruct S2 as (_ & _ & Hup2 & _ & Hc2).
    destruct e2 as [err |].
    { eexists _, b2. split; [reflexivity |]. split; [congruence | discriminate]. }
    destruct (IH b2) as (e & b' & E & Hup' & Hok).
    exists e, b'. split; [exact E |]. split; [congruence |].
    intros He. destruct (Hok He) as (Hnd & Hnone & Hdom & Hcount).
    assert (dom (inventory b1) = {[pd.Token v]} ∪ dom (inventory b)) as Hdom1.
    { rewrite <- (dom_fmap_L entry_bucket (inventory b1)).
      fold (buckets b1). rewrite Hbk, dom_insert_L.
      unfold buckets. by rewrite dom_fmap_L. }
    assert (∀ r, r ∈ rest → pd.Token r ∉ dom (inventory b2)) as Hout.
    { intros r Hr. apply not_elem_of_dom. by apply Hnone. }
    split.
    { apply NoDup_cons. split; [| done].
      intros Hin. apply list_elem_of_fmap in Hin as (r & Hr & Hin).
      apply (Hout r Hin). rewrite Hdom2, Hdom1, <- Hr.
      apply elem_of_union_l. by apply elem_of_singleton. }
    split.
    { intros r Hr. apply elem_of_cons in Hr as [-> | Hr]; [done |].
      apply not_elem_of_dom. intros Hin. apply (Hout r Hr).
      rewrite Hdom2, Hdom1. by apply elem_of_union_r. }
    split.
    { rewrite Hdom, Hdom2, Hdom1. simpl.
      rewrite (comm_L (∪) {[pd.Token v]} (dom (inventory b))).
      by rewrite (assoc_L (∪)). }
    intros k. destruct (Hcount k) as [Hn Hk].
    rewrite records_in_cons. split.
    + rewrite Hn, Hbk2, Hbk, count_insert_fresh
        by (unfold buckets; by rewrite lookup_fmap, Hfresh).
      lia.
    + rewrite Hk, Hc2, Hc.
      destruct (decide (k = bucket_of (convertPropStatusFromPD (pd.Status v))))
        as [-> | Hne].
      * rewrite !decide_True by done. symmetry.
        exact (Nat.iter_succ_r _ (λ c, int_add c 1) _).
      * rewrite !decide_False by congruence. done.
Qed.

(** X22.  [initializeInventory] always returns: it panics for no backend, no
    reply of politeiad and no behaviour of the plugin.  It replaces the
    inventory and keeps the user directory.  When it returns nil, the
    tokens of the reply are pairwise different and are exactly the
    tokens of the new inventory; the counters are not reset: each was
    incremented once per record of its bucket, on top of the value it
    had; so the counters hold the numbers of records of their buckets
    when they were all zero before the call. *)
Theorem initializeInventory_returns order inv b :
  ∃ e b',
    initializeInventory order inv b = Returns e b'
    ∧ userPubkeys b' = userPubkeys b
    ∧ (e = None →
       NoDup (pd.Token <$> (Vetted inv ++ Branches inv))
       ∧ dom (inventory b')
         =@{gset string} list_to_set (pd.Token <$> (Vetted inv ++ Branches inv))
       ∧ (∀ k,
            count k (buckets b') = records_in k (Vetted inv ++ Branches inv)
            ∧ counter k b'
              = Nat.iter (count k (buckets b')) (λ c, int_add c 1)
                  (counter k b))
       ∧ ((∀ k, counter k b = 0) → counters_follow b')).
Proof.
  unfold initializeInventory, bind, modify.
  destruct (initializeInventory_loop_spec order (Vetted inv ++ Branches inv)
              (set_inventory ∅ b)) as (e & b' & E & Hup & Hok).
  exists e, b'. split; [exact E |]. split; [exact Hup |].
  intros He. destruct (Hok He) as (Hnd & _ & Hdom & Hcount).
  split; [exact Hnd |]. split.
  { rewrite Hdom. simpl. by rewrite dom_empty_L, (left_id_L ∅ (∪)). }
  assert (∀ k, count k (buckets b')
               = records_in k (Vetted inv ++ Branches inv)) as Hn.
  { intros k. destruct (Hcount k) as [-> _]. unfold buckets. simpl.
    by rewrite fmap_empty, count_empty. }
  assert (∀ k, counter k (set_inventory ∅ b) = counter k b) as Hsame
    by (by intros []).
  split.
  { intros k. split; [apply Hn |].
    destruct (Hcount k) as [_ ->]. by rewrite Hn, Hsame. }
  intros Hzero k. destruct (Hcount k) as [_ ->].
  rewrite Hsame, Hzero, Hn.
  change 0 with (int_wrap 0) at 1. by rewrite iter_incr.
Qed.

Lemma initializeInventory_loop_app order rs1 rs2 b :
  initializeInventory_loop order (rs1 ++ rs2) b
  = (let* e := initializeInventory_loop order rs1 in
     match e with
     | Some err => ret (Some err)
     | None => initializeInventory_loop order rs2
     end) b.
Proof.
  revert b. induction rs1 as [| v rest IH]; intros b; simpl; [done |].
  unfold bind.
  destruct (_newInventoryRecord v b) as [[err |] b1 |]; [done | | done].
  destruct (loadRecord (order (pd.Token v)) v b1) as [[err |] b2 |];
    [done | | done].
  apply IH.
Qed.

(** X23.  [initializeInventory] stops at the first record that fails: when it
    returns an error on the first records of a reply, it returns the
    same error and leaves the same backend whatever records follow them,
    vetted or in branches; what was loaded before the failure stays
    loaded and the records after it are not looked at. *)
Theorem initializeInventory_stops_at_first_error order rs1 err b b1 :
  initializeInventory order {| Vetted := rs1; Branches := [] |} b
  = Returns (Some err) b1 →
  ∀ rs2 bs,
    initializeInventory order {| Vetted := rs1 ++ rs2; Branches := bs |} b
    = Returns (Some err) b1.
Proof.
  unfold initializeInventory, bind, modify. simpl. rewrite app_nil_r.
  intros H rs2 bs. rewrite <- app_assoc, initializeInventory_loop_app.
  unfold bind. by rewrite H.
Qed.

End LoadingProperties.

(** * The properties at work on the small instance *)

#[local] Existing Instance Demo.ext.

Lemma after_returns {A} (m : M A) b a b' :
  m b = Returns a b' → b' = Demo.after b m.
Proof. intros E. unfold Demo.after. by rewrite E. Qed.

Lemma returned_returns {A} (d : A) (m : M A) b a b' :
  m b = Returns a b' → a = Demo.returned d b m.
Proof. intros E. unfold Demo.returned. by rewrite E. Qed.

Lemma with_A_holds_A :
  inventory Demo.with_A !! "A"
  = Some (default zero_inventoryRecord (inventory Demo.with_A !! "A")).
Proof. vm_compute. reflexivity. Qed.

Lemma counters_sum_is_inventory_size_witness :
  (∃ errs b,
     run_ops Demo.ops (empty_backend Demo.users) = Returns errs b
     ∧ Z.of_nat (size (inventory b)) < 2 ^ 63
     ∧ counters_sum b = Z.of_nat (size (inventory b)))
  ∧ (∃ ir b',
       inventory Demo.with_A !! pd.Token Demo.recA' = Some ir
       ∧ updateInventoryRecord Demo.recA' Demo.with_A = Returns None b'
       ∧ counter Public b' = 0 ∧ counter Censored b' = 1).
Proof.
  destruct (counters_sum_is_inventory_size (Ext := Demo.ext)) as [Hsum Hupd].
  split.
  - destruct (Hsum Demo.users Demo.ops) as (errs & b & E & H).
    exists errs, b. split; [exact E |].
    assert (Z.of_nat (size (inventory b)) < 2 ^ 63) as Hlt.
    { rewrite (after_returns _ _ _ _ E). vm_compute. reflexivity. }
    split; [exact Hlt | exact (H Hlt)].
  - destruct (Hupd Demo.with_A Demo.recA' _ with_A_holds_A)
      as (b' & E & _ & _ & Hc).
    eexists _, b'. split; [exact with_A_holds_A |]. split; [exact E |]. split.
    + rewrite (Hc Public). vm_compute. reflexivity.
    + rewrite (Hc Censored). vm_compute. reflexivity.
Defined.

Lemma newInventoryRecord_duplicate_witness :
  is_Some (inventory Demo.with_A !! pd.Token Demo.recA')
  ∧ newInventoryRecord Demo.recA' Demo.with_A
    = Returns (Some (ErrDuplicateToken "A")) Demo.with_A.
Proof.
  assert (is_Some (inventory Demo.with_A !! pd.Token Demo.recA')) as H
    by (change (pd.Token Demo.recA') with "A"; rewrite with_A_holds_A; eauto).
  split; [exact H |].
  exact (newInventoryRecord_duplicate Demo.with_A Demo.recA' H).
Defined.

Lemma newInventoryRecord_error_after_store_witness :
  inventory Demo.with_A !! pd.Token Demo.recX = None
  ∧ ∃ e b',
      _newInventoryRecord Demo.recX Demo.with_A = Returns (Some e) b'
      ∧ is_Some (inventory b' !! "X")
      ∧ size (inventory b') = 2%nat
      ∧ b' ≠ Demo.with_A.
Proof.
  assert (inventory Demo.with_A !! pd.Token Demo.recX = None) as H
    by (vm_compute; reflexivity).
  split; [exact H |].
  destruct (newInventoryRecord_error_after_store Demo.with_A Demo.recX H)
    as (b2 & ir & Hload & Hir & Herr).
  assert (userPubkeys Demo.with_A !! MDPublicKey (proposalMD ir) = None) as Hpk.
  { rewrite (after_returns _ _ _ _ Hload) in Hir.
    assert (ir = default zero_inventoryRecord
                   (inventory (Demo.after (store_new_entry Demo.recX Demo.with_A)
                                 (loadRecordMetadata Demo.recX)) !! "X")) as ->
      by (change (pd.Token Demo.recX) with "X" in Hir; by rewrite Hir).
    vm_compute. reflexivity. }
  destruct (Herr Hpk) as (e & b' & E & Hin & _ & Hsz & _ & Hne).
  exists e, b'. split; [exact E |]. split; [by eexists |].
  split; [| exact Hne]. rewrite Hsz. vm_compute. reflexivity.
Defined.


Lemma getProposals_at_most_page_size_witness :
  1 ≤ ProposalListPageSize
  ∧ ∃ ps b',
      getProposals Demo.convertProp Demo.usernameById Demo.order_five
        Demo.after_C Demo.with_five = Returns ps b'
      ∧ Z.of_nat (length ps) ≤ 2.
Proof.
  assert (1 ≤ ProposalListPageSize) as H by (vm_compute; discriminate).
  split; [exact H |].
  exact (getProposals_at_most_page_size Demo.convertProp Demo.usernameById
           Demo.order_five Demo.after_C Demo.with_five H).
Defined.

(** The snapshot of the five proposals, as [_getAllProposals] returns
    it. *)
Lemma snapshot_of_five all b' :
  _getAllProposals Demo.convertProp Demo.usernameById Demo.order_five
    Demo.with_five = Returns all b' →
  all = Demo.returned []
          Demo.with_five
          (_getAllProposals Demo.convertProp Demo.usernameById Demo.order_five).
Proof. apply returned_returns. Qed.





(** C9 as worded fails: a caller that writes a comment into the
    [comments] map of the record it got changes the entry in the cache. *)
Lemma getInventoryRecord_shares_the_comments_map :
  ∃ r b',
    getInventoryRecord "A" Demo.with_A = Returns (r, None) Demo.with_A
    ∧ caller_apply (WriteComment "1" Demo.comment1) r Demo.with_A
      = Returns r b'
    ∧ (ec_comments <$> cached Demo.with_A "A") = Some ∅
    ∧ (ec_comments <$> cached b' "A") = Some {[ "1" := Demo.comment1 ]}
    ∧ cached b' "A" ≠ cached Demo.with_A "A".
Proof.
  exists (default zero_inventoryRecord (inventory Demo.with_A !! "A")).
  exists (Demo.after Demo.with_A
            (caller_apply (WriteComment "1" Demo.comment1)
               (default zero_inventoryRecord (inventory Demo.with_A !! "A")))).
  split; [vm_compute; reflexivity |].
  split; [vm_compute; reflexivity |].
  split; [vm_compute; reflexivity |].
  split; [vm_compute; reflexivity |].
  intros H.
  apply (f_equal (λ o, (ec_comments <$> o) ≫= (.!! "1"))) in H.
  vm_compute in H. discriminate.
Qed.

Lemma getInventoryRecord_copies_the_struct_only_witness :
  ∃ ir b',
    inventory Demo.with_A !! "A" = Some ir
    ∧ is_Some (comments ir)
    ∧ getInventoryRecord "A" Demo.with_A = Returns (ir, None) Demo.with_A
    ∧ caller_apply (WriteComment "1" Demo.comment1) ir Demo.with_A
      = Returns ir b'
    ∧ ec_comments <$> cached b' "A"
      = Some (<["1" := Demo.comment1]> (comments_of Demo.with_A ir)).
Proof.
  assert (is_Some (comments
            (default zero_inventoryRecord (inventory Demo.with_A !! "A"))))
    as Hc by (vm_compute; eauto).
  destruct (getInventoryRecord_copies_the_struct_only Demo.with_A "A" _
              with_A_holds_A) as (Hget & _ & Hwrite & _).
  destruct (Hwrite "1" Demo.comment1 Hc) as (b' & E & Hseen).
  eexists _, b'. split; [exact with_A_holds_A |]. split; [exact Hc |].
  split; [exact Hget |]. split; [exact E | exact Hseen].
Defined.









(** ** The further properties on the small instance *)

#[local] Existing Instance Demo.plugin.

Lemma entry_A_in_with_A : inventory Demo.with_A !! "A" = Some Demo.entry_A.
Proof. vm_compute. reflexivity. Qed.

Lemma entry_A_has_comments : is_Some (comments Demo.entry_A).
Proof. vm_compute. eauto. Qed.

Lemma demo_statuses_differ : NoDup (status_of <$> all_buckets).
Proof.
  apply (bool_decide_unpack (NoDup (status_of <$> all_buckets))).
  vm_compute. exact I.
Qed.

Lemma userProposalStats_counts_witness :
  NoDup (status_of <$> all_buckets)
  ∧ ∃ ps b',
      userProposalStats Demo.convertProp Demo.usernameById Demo.order_five
        "alice" Demo.with_five = Returns ps b'
      ∧ stat Public ps = 4 ∧ stat Censored ps = 0.
Proof.
  split; [exact demo_statuses_differ |].
  destruct (userProposalStats_counts Demo.convertProp Demo.usernameById
              Demo.order_five "alice" Demo.with_five demo_statuses_differ)
    as (all & b' & E & ps & Eps & Hstat & _).
  exists ps, b'. split; [exact Eps |].
  rewrite (Hstat Public), (Hstat Censored), (snapshot_of_five _ _ E).
  split; vm_compute; reflexivity.
Defined.

Lemma inventoryProposalStats_counts_witness :
  ∃ es b ps,
    run_calls [CallInsert Demo.recA; CallInsert Demo.recX;
               CallUpdate Demo.recA'; CallSetComment Demo.comment1]
      (empty_backend Demo.users) = Returns es b
    ∧ inventoryProposalStats b = Returns ps b
    ∧ stat Censored ps = 1 ∧ stat Unvetted ps = 1 ∧ stat Public ps = 0.
Proof.
  destruct (inventoryProposalStats_counts Demo.users
              [CallInsert Demo.recA; CallInsert Demo.recX;
               CallUpdate Demo.recA'; CallSetComment Demo.comment1])
    as (es & b & ps & E & Eps & Hstat & _).
  exists es, b, ps. split; [exact E |]. split; [exact Eps |].
  rewrite !Hstat, (after_returns _ _ _ _ E).
  repeat split; vm_compute; reflexivity.
Defined.

Lemma setRecordComment_round_trip_witness :
  inventory Demo.with_A !! www.Token Demo.comment1 = Some Demo.entry_A
  ∧ is_Some (comments Demo.entry_A)
  ∧ ∃ b',
      setRecordComment Demo.comment1 Demo.with_A = Returns None b'
      ∧ _getInventoryRecordComment "A" "1" b'
        = Returns (Some Demo.comment1, None) b'
      ∧ setRecordComment Demo.comment1 b' = Returns None b'.
Proof.
  split; [exact entry_A_in_with_A |]. split; [exact entry_A_has_comments |].
  destruct (setRecordComment_round_trip Demo.with_A Demo.comment1 Demo.entry_A
              entry_A_in_with_A entry_A_has_comments)
    as (b' & E & Hget & _ & _ & _ & Hagain).
  exists b'. split; [exact E |]. split; [exact Hget | exact Hagain].
Defined.

Lemma setRecordComment_after_calls_witness :
  ∃ es b e b',
    run_calls [CallInsert Demo.recA; CallInsert Demo.recC]
      (empty_backend Demo.users) = Returns es b
    ∧ setRecordComment Demo.comment1 b = Returns e b'
    ∧ e = None
    ∧ cached b' "C" = cached b "C".
Proof.
  destruct (setRecordComment_after_calls Demo.users
              [CallInsert Demo.recA; CallInsert Demo.recC] Demo.comment1)
    as (es & b & e & b' & E & Ec & He & _ & Hother).
  exists es, b, e, b'. split; [exact E |]. split; [exact Ec |]. split.
  - apply He. rewrite (after_returns _ _ _ _ E). vm_compute. eauto.
  - apply Hother. discriminate.
Defined.

Lemma setRecordVoting_round_trip_witness :
  inventory Demo.with_A !! "A" = Some Demo.entry_A
  ∧ ∃ b' ir',
      _setRecordVoting "A" 7 8 Demo.with_A = Returns None b'
      ∧ getInventoryRecord "A" b' = Returns (ir', None) b'
      ∧ votebits ir' = 7 ∧ voting ir' = 8
      ∧ frame b' = frame Demo.with_A.
Proof.
  split; [exact entry_A_in_with_A |].
  destruct (setRecordVoting_round_trip Demo.with_A "A" Demo.entry_A 7 8
              entry_A_in_with_A)
    as (b' & ir' & E & Hget & Hvb & Hv & _ & _ & Hf & _).
  exists b', ir'. auto.
Defined.

Lemma setRecordVoteAuthorization_round_trip_witness :
  inventory Demo.with_A !! "A" = Some Demo.entry_A
  ∧ ∃ b' ir',
      setRecordVoteAuthorization "A" 9 Demo.with_A = Returns None b'
      ∧ getInventoryRecord "A" b' = Returns (ir', None) b'
      ∧ voteAuthorization ir' = 9
      ∧ frame b' = frame Demo.with_A.
Proof.
  split; [exact entry_A_in_with_A |].
  destruct (setRecordVoteAuthorization_round_trip Demo.with_A "A" Demo.entry_A
              9 entry_A_in_with_A)
    as (b' & ir' & E & Hget & Hv & _ & _ & Hf & _).
  exists b', ir'. auto.
Defined.

Lemma with_A_lacks_B : inventory Demo.with_A !! pd.Token Demo.recB = None.
Proof. vm_compute. reflexivity. Qed.

Lemma newInventoryRecord_then_get_witness :
  inventory Demo.with_A !! pd.Token Demo.recB = None
  ∧ ∃ e b' ir,
      newInventoryRecord Demo.recB Demo.with_A = Returns e b'
      ∧ getInventoryRecord "B" b' = Returns (ir, None) b'
      ∧ record ir = Demo.recB
      ∧ comments_of b' ir = ∅
      ∧ inventory b' !! "A" = inventory Demo.with_A !! "A".
Proof.
  split; [exact with_A_lacks_B |].
  destruct (newInventoryRecord_then_get Demo.with_A Demo.recB with_A_lacks_B)
    as (e & b' & ir & E & Hget & Hrec & _ & Hempty & _ & Hother & _).
  exists e, b', ir. split; [exact E |]. split; [exact Hget |].
  split; [exact Hrec |]. split; [exact Hempty |]. apply Hother. discriminate.
Defined.

Lemma newInventoryRecord_counts_for_author_witness :
  inventory Demo.with_A !! pd.Token Demo.recB = None
  ∧ ∃ e b',
      newInventoryRecord Demo.recB Demo.with_A = Returns e b'
      ∧ numOfPropsByUserID Demo.with_A !! "alice" = Some 1
      ∧ numOfPropsByUserID b' !! "alice" = Some 2.
Proof.
  split; [exact with_A_lacks_B |].
  destruct (newInventoryRecord_counts_for_author Demo.with_A Demo.recB
              with_A_lacks_B) as (e & b' & ir & E & _).
  exists e, b'. split; [exact E |]. rewrite (after_returns _ _ _ _ E).
  split; vm_compute; reflexivity.
Defined.

Lemma updateInventoryRecord_then_get_witness :
  inventory Demo.with_A !! pd.Token Demo.recA' = Some Demo.entry_A
  ∧ ∃ b' ir',
      updateInventoryRecord Demo.recA' Demo.with_A = Returns None b'
      ∧ getInventoryRecord "A" b' = Returns (ir', None) b'
      ∧ record ir' = Demo.recA'
      ∧ comments ir' = comments Demo.entry_A
      ∧ numOfPropsByUserID b' = numOfPropsByUserID Demo.with_A.
Proof.
  split; [exact entry_A_in_with_A |].
  destruct (updateInventoryRecord_then_get Demo.with_A Demo.recA' Demo.entry_A
              entry_A_in_with_A)
    as (b' & ir' & E & Hget & Hrec & Hc & _ & _ & _ & Hn & _).
  exists b', ir'. auto.
Defined.

Lemma entry_A_changes_wf :
  sl_wf (changeArrays Demo.with_A) (changes Demo.entry_A).
Proof. vm_compute. reflexivity. Qed.

Lemma loadChanges_appends_witness :
  inventory Demo.with_A !! "A" = Some Demo.entry_A
  ∧ sl_wf (changeArrays Demo.with_A) (changes Demo.entry_A)
  ∧ ∃ b' ir',
      loadChanges "A" "x" Demo.with_A = Returns None b'
      ∧ inventory b' !! "A" = Some ir'
      ∧ slice_elems (changeArrays b') (changes ir') = [7].
Proof.
  split; [exact entry_A_in_with_A |]. split; [exact entry_A_changes_wf |].
  destruct (loadChanges_appends "A" "x" Demo.with_A Demo.entry_A
              entry_A_in_with_A entry_A_changes_wf)
    as (b' & ir' & E & Hir & He & _).
  exists b', ir'. split; [exact E |]. split; [exact Hir |]. exact He.
Defined.

Lemma updateInventoryRecord_appends_changes_witness :
  inventory Demo.with_A !! pd.Token Demo.recA_changes = Some Demo.entry_A
  ∧ sl_wf (changeArrays Demo.with_A) (changes Demo.entry_A)
  ∧ ∃ b' ir' b'' ir'',
      updateInventoryRecord Demo.recA_changes Demo.with_A = Returns None b'
      ∧ inventory b' !! "A" = Some ir'
      ∧ slice_elems (changeArrays b') (changes ir') = [7]
      ∧ updateInventoryRecord Demo.recA_changes b' = Returns None b''
      ∧ inventory b'' !! "A" = Some ir''
      ∧ slice_elems (changeArrays b'') (changes ir'') = [7; 7].
Proof.
  split; [exact entry_A_in_with_A |]. split; [exact entry_A_changes_wf |].
  destruct (updateInventoryRecord_appends_changes Demo.with_A Demo.recA_changes
              Demo.entry_A entry_A_in_with_A entry_A_changes_wf)
    as (b' & ir' & E & Hir & He & _ & b'' & ir'' & E' & Hir' & He').
  exists b', ir', b'', ir''. repeat split; assumption.
Defined.

Lemma with_A_range_order : range_order (inventory Demo.with_A) ["A"].
Proof. unfold range_order. vm_compute. reflexivity. Qed.

Lemma getAllProposals_one_per_record_witness :
  range_order (inventory Demo.with_A) ["A"]
  ∧ ∃ all b',
      _getAllProposals Demo.convertProp Demo.usernameById ["A"] Demo.with_A
      = Returns all b'
      ∧ length all = 1%nat
      ∧ inventory b' = inventory Demo.with_A.
Proof.
  split; [exact with_A_range_order |].
  destruct (getAllProposals_one_per_record Demo.convertProp Demo.usernameById
              ["A"] Demo.with_A with_A_range_order)
    as (all & b' & E & Hlen & _ & Hinv & _).
  exists all, b'. split; [exact E |]. split; [| exact Hinv].
  rewrite Hlen. vm_compute. reflexivity.
Defined.

Lemma getProposals_page_of_snapshot_witness :
  1 ≤ ProposalListPageSize
  ∧ ∃ all b' ps,
      _getAllProposals Demo.convertProp Demo.usernameById Demo.order_five
        Demo.with_five = Returns all b'
      ∧ getProposals Demo.convertProp Demo.usernameById Demo.order_five
          Demo.after_C_alice Demo.with_five = Returns ps b'
      ∧ ps `sublist_of` reverse (sortSlice all)
      ∧ Forall (λ p, passesFilters Demo.after_C_alice p = true ∧ p ∈ all) ps
      ∧ StronglySorted (λ x y, less x y = false) ps.
Proof.
  assert (1 ≤ ProposalListPageSize) as H by (vm_compute; discriminate).
  split; [exact H |].
  destruct (getProposals_page_of_snapshot Demo.convertProp Demo.usernameById
              Demo.order_five Demo.after_C_alice Demo.with_five H)
    as (all & b' & ps & E1 & E2 & Hsub & Hall & Hs & _).
  exists all, b', ps. auto.
Defined.

Lemma with_A_lacks_Z : inventory Demo.with_A !! "Z" = None.
Proof. vm_compute. reflexivity. Qed.

Lemma missing_token_witness :
  inventory Demo.with_A !! "Z" = None
  ∧ getInventoryRecord "Z" Demo.with_A
    = Returns (zero_inventoryRecord, Some (ErrRecordNotFound "Z")) Demo.with_A
  ∧ _setRecordVoting "Z" 7 8 Demo.with_A
    = Returns (Some (ErrRecordNotFound "Z")) Demo.with_A
  ∧ _getInventoryRecordComment "Z" "1" Demo.with_A = Panics.
Proof.
  split; [exact with_A_lacks_Z |].
  destruct (missing_token Demo.convertProp Demo.with_A "Z" with_A_lacks_Z)
    as (Hget & _ & _ & _ & Hv & _ & _ & _ & Hc & _).
  split; [exact Hget |]. split; [apply Hv | apply Hc].
Defined.

Lemma loadComments_merges_witness :
  inventory Demo.with_A !! "A" = Some Demo.entry_A
  ∧ is_Some (comments Demo.entry_A)
  ∧ ∃ b',
      loadComments "A" Demo.with_A = Returns None b'
      ∧ inventory b' = inventory Demo.with_A
      ∧ dom (comments_of b' Demo.entry_A)
        = dom (comments_of Demo.with_A Demo.entry_A)
          ∪ list_to_set (www.CommentID <$> [Demo.comment_c1; Demo.comment1]).
Proof.
  split; [exact entry_A_in_with_A |]. split; [exact entry_A_has_comments |].
  pose proof (loadComments_merges "A" Demo.with_A Demo.entry_A
                entry_A_in_with_A entry_A_has_comments) as H.
  change (getComments "A") with
    (@inr error_value _ [Demo.comment_c1; Demo.comment1]) in H.
  destruct H as (b' & E & Hinv & Hdom & _).
  exists b'. split; [exact E |]. split; [exact Hinv | exact Hdom].
Defined.

Lemma loadCommentsLikes_groups_witness :
  inventory Demo.with_A !! "A" = Some Demo.entry_A
  ∧ ∃ b' ir',
      _loadCommentsLikes "A" Demo.with_A = Returns None b'
      ∧ inventory b' !! "A" = Some ir'
      ∧ default [] (likes_of b' ir' !! "c1") = Demo.events
      ∧ commentMaps b' = commentMaps Demo.with_A.
Proof.
  split; [exact entry_A_in_with_A |].
  pose proof (loadCommentsLikes_groups "A" Demo.with_A Demo.entry_A
                entry_A_in_with_A) as H.
  change (getProposalCommentsLikes "A") with
    (@inr error_value _ Demo.events) in H.
  destruct H as (b' & ir' & E & Hir & _ & _ & Hl & _ & _ & Hc).
  exists b', ir'. split; [exact E |]. split; [exact Hir |].
  split; [| exact Hc]. rewrite (Hl "c1"). vm_compute. reflexivity.
Defined.

Lemma initializeInventory_returns_witness :
  ∃ b',
    initializeInventory Demo.like_order Demo.reply (empty_backend Demo.users)
    = Returns None b'
    ∧ dom (inventory b') =@{gset string} list_to_set ["A"; "C"; "D"]
    ∧ counters_follow b'.
Proof.
  destruct (initializeInventory_returns Demo.like_order Demo.reply
              (empty_backend Demo.users)) as (e & b' & E & _ & Hok).
  assert (e = None) as ->.
  { apply (returned_returns None) in E. rewrite E. vm_compute. reflexivity. }
  destruct (Hok eq_refl) as (_ & Hdom & _ & Hfollow).
  exists b'. split; [exact E |]. split; [exact Hdom |].
  apply Hfollow. by intros [].
Defined.

Lemma twice_A_fails :
  initializeInventory Demo.like_order
    {| Vetted := [Demo.recA; Demo.recA]; Branches := [] |}
    (empty_backend Demo.users)
  = Returns (Some (ErrDuplicateToken "A"))
      (Demo.after (empty_backend Demo.users)
         (initializeInventory Demo.like_order
            {| Vetted := [Demo.recA; Demo.recA]; Branches := [] |})).
Proof. vm_compute. reflexivity. Qed.

Lemma initializeInventory_stops_at_first_error_witness :
  ∃ b1,
    initializeInventory Demo.like_order
      {| Vetted := [Demo.recA; Demo.recA]; Branches := [] |}
      (empty_backend Demo.users)
    = Returns (Some (ErrDuplicateToken "A")) b1
    ∧ initializeInventory Demo.like_order
        {| Vetted := [Demo.recA; Demo.recA] ++ [Demo.recC];
           Branches := [Demo.recD] |}
        (empty_backend Demo.users)
      = Returns (Some (ErrDuplicateToken "A")) b1
    ∧ inventory b1 !! "C" = None.
Proof.
  eexists. split; [exact twice_A_fails |]. split.
  - exact (initializeInventory_stops_at_first_error Demo.like_order _ _ _ _
             twice_A_fails [Demo.recC] [Demo.recD]).
  - vm_compute. reflexivity.
Defined.

Lemma loadRecordMetadata_last_general_stream_witness :
  inventory Demo.with_A !! pd.Token Demo.recA_two = Some Demo.entry_A
  ∧ proposalMD Demo.entry_A = "pk-alice"
  ∧ ∃ b' ir',
      loadRecordMetadata Demo.recA_two Demo.with_A = Returns tt b'
      ∧ inventory b' !! "A" = Some ir'
      ∧ proposalMD ir' = "pk-bob".
Proof.
  split; [exact entry_A_in_with_A |]. split; [vm_compute; reflexivity |].
  destruct (loadRecordMetadata_last_general_stream Demo.recA_two Demo.with_A
              Demo.entry_A entry_A_in_with_A) as (b' & ir' & E & Hir & Hmd).
  exists b', ir'. split; [exact E |]. split; [exact Hir |].
  rewrite Hmd. vm_compute. reflexivity.
Defined.

Lemma loadRecord_returns_witness :
  inventory Demo.with_A !! pd.Token Demo.recA = Some Demo.entry_A
  ∧ is_Some (comments Demo.entry_A)
  ∧ ∃ e b',
      loadRecord ["c1"] Demo.recA Demo.with_A = Returns e b'
      ∧ same_records Demo.with_A b'
      ∧ e = None.
Proof.
  split; [exact entry_A_in_with_A |]. split; [exact entry_A_has_comments |].
  destruct (loadRecord_returns ["c1"] Demo.recA Demo.with_A Demo.entry_A
              entry_A_in_with_A entry_A_has_comments) as (e & b' & E & S & _).
  exists e, b'. split; [exact E |]. split; [exact S |].
  apply (returned_returns None) in E. rewrite E. vm_compute. reflexivity.
Defined.

Lemma getProposals_next_page_witness :
  1 ≤ ProposalListPageSize
  ∧ ∃ all b' L c,
      _getAllProposals Demo.convertProp Demo.usernameById Demo.order_five
        Demo.with_five = Returns all b'
      ∧ L = filter (λ p, passesFilters Demo.before_C p = true)
              (reverse (sortSlice all))
      ∧ NoDup (www.PropToken <$> L)
      ∧ L !! 1%nat = Some c
      ∧ www.PropToken c = "D"
      ∧ returned_tokens
          (getProposals Demo.convertProp Demo.usernameById Demo.order_five
             {| After := www.PropToken c; Before := "C";
                ReqUserId := ""; StateMap := Demo.vetted |} Demo.with_five)
        = Some ["C"; "B"].
Proof.
  assert (1 ≤ ProposalListPageSize) as H by (vm_compute; discriminate).
  split; [exact H |].
  destruct (getProposals_next_page Demo.convertProp Demo.usernameById
              Demo.order_five Demo.before_C Demo.with_five H)
    as (all & b' & E & Hnext).
  pose proof (snapshot_of_five _ _ E) as Hall.
  set (L := filter (λ p, passesFilters Demo.before_C p = true)
              (reverse (sortSlice all))).
  assert (NoDup (www.PropToken <$> L)) as Hnd.
  { unfold L. rewrite Hall.
    apply (bool_decide_unpack (NoDup _)). vm_compute. exact I. }
  exists all, b', L, (default zero_ProposalRecord (L !! 1%nat)).
  assert (L !! 1%nat = Some (default zero_ProposalRecord (L !! 1%nat))) as Hi
    by (unfold L; rewrite Hall; vm_compute; reflexivity).
  assert (www.PropToken (default zero_ProposalRecord (L !! 1%nat)) = "D") as Hd
    by (unfold L; rewrite Hall; vm_compute; reflexivity).
  split; [exact E |]. split; [reflexivity |]. split; [exact Hnd |].
  split; [exact Hi |]. split; [exact Hd |].
  destruct (Hnext L 1%nat _ eq_refl Hnd Hi) as [Hpage _];
    [rewrite Hd; discriminate |].
  assert (getProposals Demo.convertProp Demo.usernameById Demo.order_five
            {| After := www.PropToken (default zero_ProposalRecord (L !! 1%nat));
               Before := "C"; ReqUserId := ""; StateMap := Demo.vetted |}
            Demo.with_five
          = Returns (take (Z.to_nat ProposalListPageSize) (drop 2 L)) b') as ->
    by exact Hpage.
  unfold L. rewrite Hall. vm_compute. reflexivity.
Defined.

Lemma getProposals_after_overrides_before_witness :
  1 ≤ ProposalListPageSize
  ∧ After Demo.after_C ≠ ""
  ∧ getProposals Demo.convertProp Demo.usernameById Demo.order_five
      {| After := "C"; Before := "E"; ReqUserId := "";
         StateMap := Demo.vetted |} Demo.with_five
    = getProposals Demo.convertProp Demo.usernameById Demo.order_five
        Demo.after_C Demo.with_five.
Proof.
  assert (1 ≤ ProposalListPageSize) as H by (vm_compute; discriminate).
  assert (After Demo.after_C ≠ "") as Ha by discriminate.
  split; [exact H |]. split; [exact Ha |].
  exact (getProposals_after_overrides_before Demo.convertProp
           Demo.usernameById Demo.order_five Demo.after_C Demo.with_five "E"
           H Ha).
Defined.
